(** * bytecode_graph: the instruction graph and its relocation engine

    A shallow embedding of [src/bytecode_graph/bytecode_graph.py]
    (Python 2): the [Bytecode] node class and the [BytecodeGraph] class
    with its decoder, cross-reference resolution, structural edits,
    relocation and line-table encoder.

    Python objects are mutable and shared, so nodes live in a store
    indexed by an object identity ([nat]); [prev], [next], [target] and
    [xrefs] hold identities.  The dictionary [self.bytecodes] is a
    [gmap Z nat] from address to identity.  A Python exception is a value
    of [exn]; a call that raises returns [Raise e].  *)

From Stdlib Require Import ZArith Lia.
From stdpp Require Import base option list gmap.

Local Open Scope Z_scope.

(** ** Exceptions and results *)

(** The exceptions the module can raise. [StructError] is [struct.error]. *)
Inductive exn : Set :=
  | KeyError | IndexError | AttributeError | TypeError | StructError.

(** The outcome of a call: a value, an exception, or no answer because the
    traversal of the linked list did not end within the fuel given. *)
Inductive res (A : Type) : Type :=
  | Ok (a : A)
  | Raise (e : exn)
  | Diverge.
Arguments Ok {A} a.
Arguments Raise {A} e.
Arguments Diverge {A}.

#[global] Instance res_ret : MRet res := fun A a => Ok a.
#[global] Instance res_bind : MBind res := fun A B f m =>
  match m with
  | Ok a => f a
  | Raise e => Raise e
  | Diverge => Diverge
  end.

#[global] Instance exn_eq_dec : EqDecision exn.
Proof. solve_decision. Defined.

(** ** The [dis] tables

    [dis.HAVE_ARGUMENT], [dis.hasjrel] and [dis.hasjabs] come from the
    Python standard library, not from this repository; the embedding takes
    them as a parameter.  [py27] holds the values of CPython 2.7's
    [opcode.py]. *)
Record Dis : Type := mkDis {
  HAVE_ARGUMENT : Z;
  hasjrel : list Z;
  hasjabs : list Z
}.

Definition py27 : Dis :=
  {| HAVE_ARGUMENT := 90;
     hasjrel := [93; 110; 120; 121; 122; 143];
     hasjabs := [111; 112; 113; 114; 115; 119] |}.

(** ** class Bytecode *)

(** [node_co_lnotab] is the attribute [co_lnotab] of a node: the source
    line of the instruction ([None] until [apply_lineno] sets it). *)
Record Bytecode : Type := mkBytecode {
  opcode : Z;
  addr : Z;
  oparg : option Z;
  prev : option nat;
  next : option nat;
  xrefs : list nat;
  target : option nat;
  node_co_lnotab : option Z
}.

Definition set_addr (a : Z) (b : Bytecode) : Bytecode :=
  mkBytecode (opcode b) a (oparg b) (prev b) (next b) (xrefs b) (target b)
             (node_co_lnotab b).
Definition set_oparg (o : option Z) (b : Bytecode) : Bytecode :=
  mkBytecode (opcode b) (addr b) o (prev b) (next b) (xrefs b) (target b)
             (node_co_lnotab b).
Definition set_prev (p : option nat) (b : Bytecode) : Bytecode :=
  mkBytecode (opcode b) (addr b) (oparg b) p (next b) (xrefs b) (target b)
             (node_co_lnotab b).
Definition set_next (n : option nat) (b : Bytecode) : Bytecode :=
  mkBytecode (opcode b) (addr b) (oparg b) (prev b) n (xrefs b) (target b)
             (node_co_lnotab b).
Definition set_xrefs (x : list nat) (b : Bytecode) : Bytecode :=
  mkBytecode (opcode b) (addr b) (oparg b) (prev b) (next b) x (target b)
             (node_co_lnotab b).
Definition set_target (t : option nat) (b : Bytecode) : Bytecode :=
  mkBytecode (opcode b) (addr b) (oparg b) (prev b) (next b) (xrefs b) t
             (node_co_lnotab b).
Definition set_node_co_lnotab (l : option Z) (b : Bytecode) : Bytecode :=
  mkBytecode (opcode b) (addr b) (oparg b) (prev b) (next b) (xrefs b)
             (target b) l.

(** The object store: every identity denotes a node. *)
Abbreviation Store := (nat -> Bytecode).

(** [upd h i f]: the object [i] is mutated by [f], all others are as they
    were. *)
Definition upd (h : Store) (i : nat) (f : Bytecode -> Bytecode) : Store :=
  fun j => if decide (j = i) then f (h j) else h j.

Definition blank : Bytecode :=
  mkBytecode 0 0 None None None [] None None.

Section WithDis.

Variable D : Dis.

(** [Bytecode.__init__(addr, buffer, prev)]: [buffer[1]] and [buffer[2]]
    raise IndexError on a buffer that is too short. *)
Definition Bytecode_init (a : Z) (buffer : list Z) (p : option nat)
  : res Bytecode :=
  match buffer with
  | [] => Raise IndexError
  | op :: rest =>
      if bool_decide (HAVE_ARGUMENT D <= op) then
        match rest with
        | b1 :: b2 :: _ =>
            Ok (mkBytecode op a (Some (Z.lor b1 (Z.shiftl b2 8)))
                           p None [] None None)
        | _ => Raise IndexError
        end
      else Ok (mkBytecode op a None p None [] None None)
  end.

(** [Bytecode.len] *)
Definition len (b : Bytecode) : Z :=
  if bool_decide (opcode b < HAVE_ARGUMENT D) then 1 else 3.

(** [struct.pack("<B", v)] and [struct.pack("<H", v)]: a value out of
    range, or [None], raises [struct.error]. *)
Definition pack_B (v : Z) : res (list Z) :=
  if bool_decide (0 <= v <= 255) then Ok [v] else Raise StructError.

Definition pack_H (v : option Z) : res (list Z) :=
  match v with
  | Some v =>
      if bool_decide (0 <= v <= 65535)
      then Ok [Z.land v 255; Z.shiftr v 8]
      else Raise StructError
  | None => Raise StructError
  end.

(** [Bytecode.bin] *)
Definition bin (b : Bytecode) : res (list Z) :=
  if bool_decide (HAVE_ARGUMENT D <= opcode b) then
    o ← pack_B (opcode b); a ← pack_H (oparg b); Ok (o ++ a)
  else pack_B (opcode b).

(** [Bytecode.get_target_addr]: two independent [if]s, the second one
    wins; [self.addr + None] raises TypeError. *)
Definition get_target_addr (b : Bytecode) : res (option Z) :=
  r1 ← (if bool_decide (opcode b ∈ hasjrel D) then
          match oparg b with
          | Some a => Ok (Some (addr b + a + len b))
          | None => Raise TypeError
          end
        else Ok None);
  if bool_decide (opcode b ∈ hasjabs D) then Ok (oparg b) else Ok r1.

(** ** class BytecodeGraph *)

(** The fields of the code object that the graph reads and rebuilds. *)
Record code_object : Type := mkCode {
  co_code : list Z;
  co_firstlineno : Z;
  co_lnotab : list Z
}.

(** The graph object together with the store its nodes live in; [fresh]
    is the next unused identity. *)
Record BytecodeGraph : Type := mkGraph {
  base : Z;
  code : code_object;
  head : option nat;
  bytecodes : gmap Z nat;
  store : Store;
  fresh : nat
}.

Definition with_store (g : BytecodeGraph) (h : Store) : BytecodeGraph :=
  mkGraph (base g) (code g) (head g) (bytecodes g) h (fresh g).

(** [BytecodeGraph.nodes(start)]: the identities met from [start] (from
    [self.head] when [start] is [None]) along [next]. *)
Fixpoint nodes_from (fuel : nat) (h : Store) (cur : option nat)
  : option (list nat) :=
  match cur with
  | None => Some []
  | Some i =>
      match fuel with
      | O => None
      | S f => cons i <$> nodes_from f h (next (h i))
      end
  end.

Definition start_of (g : BytecodeGraph) (start : option nat) : option nat :=
  match start with
  | None => head g
  | Some s => Some s
  end.

Definition nodes (fuel : nat) (g : BytecodeGraph) (start : option nat)
  : option (list nat) :=
  nodes_from fuel (store g) (start_of g start).

(** [for current in self.nodes(start): body].  The generator is lazy: it
    reads [current.next] after the body has run, in the store the body
    left. [A] is the state of the loop's local variables. *)
Fixpoint for_nodes {A : Type} (fuel : nat)
    (body : nat -> Store * A -> res (Store * A))
    (cur : option nat) (s : Store * A) : res (Store * A) :=
  match cur with
  | None => Ok s
  | Some i =>
      match fuel with
      | O => Diverge
      | S f => s' ← body i s; for_nodes f body (next (s'.1 i)) s'
      end
  end.

(** The same loop over a list of identities fixed beforehand; [for_nodes]
    is this loop over [nodes_from] whenever the body leaves every [next]
    alone (lemma [for_nodes_run_list]). *)
Fixpoint run_list {A : Type}
    (body : nat -> Store * A -> res (Store * A))
    (l : list nat) (s : Store * A) : res (Store * A) :=
  match l with
  | [] => Ok s
  | i :: r => s' ← body i s; run_list body r s'
  end.

(** [chain h cur l]: following [next] from [cur] meets exactly [l] and
    then [None]. *)
Fixpoint chain (h : Store) (cur : option nat) (l : list nat) : Prop :=
  match l with
  | [] => cur = None
  | i :: r => cur = Some i ∧ chain h (next (h i)) r
  end.

(** [self.bytecodes[k]] *)
Definition getitem (m : gmap Z nat) (k : Z) : res nat :=
  match m !! k with
  | Some i => Ok i
  | None => Raise KeyError
  end.

(** The [label] that [apply_labels] computes for an instruction with an
    argument; [None] is Python's [None] (an absolute jump without
    [oparg]). *)
Definition jump_label (b : Bytecode) : res (option Z) :=
  if bool_decide (opcode b ∈ hasjrel D) then
    match oparg b with
    | Some a => Ok (Some (addr b + a + len b))
    | None => Raise TypeError
    end
  else if bool_decide (opcode b ∈ hasjabs D) then Ok (oparg b)
  else Ok (Some (-1)).

Definition apply_labels_clear (i : nat) (s : Store * unit)
  : res (Store * unit) :=
  Ok (upd (upd s.1 i (set_xrefs [])) i (set_target None), tt).

(** [if current not in t.xrefs: t.xrefs.append(current)] and then
    [current.target = t], for the node [t] found in the dictionary. *)
Definition link (h : Store) (i t : nat) : Store :=
  let h1 := if bool_decide (i ∈ xrefs (h t)) then h
            else upd h t (set_xrefs (xrefs (h t) ++ [i])) in
  upd h1 i (set_target (Some t)).

(** The second loop of [apply_labels]. In Python 2, [None >= 0] is
    false. *)
Definition apply_labels_body (bcs : gmap Z nat) (i : nat) (s : Store * unit)
  : res (Store * unit) :=
  let h := s.1 in
  if bool_decide (HAVE_ARGUMENT D <= opcode (h i)) then
    lbl ← jump_label (h i);
    match lbl with
    | Some l =>
        if bool_decide (0 <= l) then
          t ← getitem bcs l;
          Ok (link h i t, tt)
        else Ok s
    | None => Ok s
    end
  else Ok s.

(** [BytecodeGraph.apply_labels(start)] *)
Definition apply_labels (fuel : nat) (g : BytecodeGraph) (start : option nat)
  : res BytecodeGraph :=
  s1 ← for_nodes fuel apply_labels_clear (start_of g start) (store g, tt);
  s2 ← for_nodes fuel (apply_labels_body (bytecodes g))
                 (start_of g start) s1;
  Ok (with_store g s2.1).

(** [BytecodeGraph.add_node(parent, bc, lnotab)]: every statement reads
    the store the previous one left. *)
Definition add_node (g : BytecodeGraph) (parent bc : nat)
    (lnotab : option Z) : BytecodeGraph :=
  let h := store g in
  let h := upd h bc (set_next (next (h parent))) in
  let h := upd h bc (set_prev (Some parent)) in
  let h := match lnotab with
           | None => upd h bc (set_node_co_lnotab (node_co_lnotab (h parent)))
           | Some l => upd h bc (set_node_co_lnotab (Some l))
           end in
  let h := match next (h parent) with
           | Some n => upd h n (set_prev (Some bc))
           | None => h
           end in
  let h := upd h parent (set_next (Some bc)) in
  with_store g h.

(** A caller's [Bytecode(addr, buffer)]: a new object in the store. *)
Definition new_Bytecode (g : BytecodeGraph) (a : Z) (buffer : list Z)
  : res (nat * BytecodeGraph) :=
  b ← Bytecode_init a buffer None;
  Ok (fresh g,
      mkGraph (base g) (code g) (head g) (bytecodes g)
              (upd (store g) (fresh g) (fun _ => b)) (S (fresh g))).

(** [s[0::2]] and [s[1::2]] *)
Fixpoint slice_even (l : list Z) : list Z :=
  match l with
  | [] => []
  | a :: r => a :: match r with [] => [] | _ :: r' => slice_even r' end
  end.

Definition slice_odd (l : list Z) : list Z := slice_even (tail l).

(** The first loop of [apply_lineno]: the running (addr, lineno) pairs. *)
Fixpoint running_linenos (a lineno : Z) (incrs : list (Z * Z))
  : list (Z * Z) :=
  match incrs with
  | [] => []
  | (b, l) :: r => (a + b, lineno + l) :: running_linenos (a + b) (lineno + l) r
  end.

(** The local variables of the second loop of [apply_lineno]. *)
Record lineno_vars : Type := mkLinenoVars {
  current_addr : Z;
  current_lineno : Z;
  next_lineno : Z;
  linenos : list (Z * Z)
}.

Definition apply_lineno_body (x : nat) (s : Store * lineno_vars)
  : res (Store * lineno_vars) :=
  let h := s.1 in
  let v := s.2 in
  let v :=
    if bool_decide (current_addr v <= addr (h x)) then
      match linenos v with
      | [] => mkLinenoVars (current_addr v) (next_lineno v) (next_lineno v) []
      | (a, l) :: r => mkLinenoVars a (next_lineno v) l r
      end
    else v in
  Ok (upd h x (set_node_co_lnotab (Some (current_lineno v))), v).

(** [BytecodeGraph.apply_lineno]: the second [linenos.pop(0)] raises
    IndexError on a table of one entry. *)
Definition apply_lineno (fuel : nat) (g : BytecodeGraph) : res BytecodeGraph :=
  let byte_increments := slice_even (co_lnotab (code g)) in
  let line_increments := slice_odd (co_lnotab (code g)) in
  let lns := running_linenos (base g) (co_firstlineno (code g))
               (zip byte_increments line_increments) in
  match lns with
  | [] => Ok g
  | (_, l0) :: [] => Raise IndexError
  | (_, l0) :: (a1, l1) :: r =>
      s ← for_nodes fuel apply_lineno_body (head g)
            (store g, mkLinenoVars a1 l0 l1 r);
      Ok (with_store g s.1)
  end.

(** The local variables of the loop of [calc_lnotab]. *)
Record lnotab_vars : Type := mkLnotabVars {
  rvalue : list Z;
  prev_lineno : Z;
  prev_offset : Z
}.

(** The body of the loop of [calc_lnotab]. [new_offset] is computed,
    clamped, and not used; [struct.pack("BB", ...)] checks both bytes. *)
Definition calc_lnotab_body (i : nat) (s : Store * lnotab_vars)
  : res (Store * lnotab_vars) :=
  let h := s.1 in
  let v := s.2 in
  if bool_decide (node_co_lnotab (h i) = Some (prev_lineno v)) then Ok s
  else
    match node_co_lnotab (h i) with
    | None => Raise TypeError
    | Some line =>
        let new_offset := line - prev_lineno v in
        let new_offset := if bool_decide (255 < new_offset) then 255
                          else new_offset in
        b1 ← pack_B (addr (h i) - prev_offset v);
        b2 ← pack_B (Z.land (line - prev_lineno v) 255);
        Ok (h, mkLnotabVars (rvalue v ++ b1 ++ b2) line (addr (h i)))
    end.

(** [BytecodeGraph.calc_lnotab]: [self.head.addr] raises AttributeError
    when [head] is [None]. *)
Definition calc_lnotab (fuel : nat) (g : BytecodeGraph) : res (list Z) :=
  match head g with
  | None => Raise AttributeError
  | Some hd =>
      s ← for_nodes fuel calc_lnotab_body (head g)
            (store g,
             mkLnotabVars [] (co_firstlineno (code g)) (addr (store g hd)));
      Ok (rvalue s.2)
  end.

(** One turn of the first loop of [delete_node]. *)
Definition redirect (node : nat) (h : Store) (x : nat) : Store :=
  let h := upd h x (set_target (next (h node))) in
  match next (h node) with
  | Some m => upd h m (set_xrefs (xrefs (h m) ++ [x]))
  | None => h
  end.

Definition delitem (m : gmap Z nat) (k : Z) : res (gmap Z nat) :=
  match m !! k with
  | Some _ => Ok (delete k m)
  | None => Raise KeyError
  end.

(** [BytecodeGraph.delete_node(node)].  When [node.next] is [node] the
    first loop appends to the list it iterates over and never ends. *)
Definition delete_node (g : BytecodeGraph) (node : nat)
  : res BytecodeGraph :=
  let h := store g in
  if bool_decide (next (h node) = Some node ∧ xrefs (h node) ≠ [])
  then Diverge
  else
    let h := foldl (redirect node) h (xrefs (h node)) in
    let h := match prev (h node) with
             | Some p => upd h p (set_next (next (h node)))
             | None => h
             end in
    let h := match next (h node) with
             | Some n => upd h n (set_prev (prev (h node)))
             | None => h
             end in
    let hd := if bool_decide (Some node = head g) then next (h node)
              else head g in
    bcs ← delitem (bytecodes g) (addr (h node));
    Ok (mkGraph (base g) (code g) hd bcs h (fresh g)).

(** The body of the loop of [patch_opargs]; [current.target.addr] raises
    AttributeError when [target] is [None]. *)
Definition patch_opargs_body (i : nat) (s : Store * unit)
  : res (Store * unit) :=
  let h := s.1 in
  if bool_decide (opcode (h i) < HAVE_ARGUMENT D) then Ok s
  else if bool_decide (opcode (h i) ∈ hasjrel D) then
    match target (h i) with
    | Some t =>
        Ok (upd h i (set_oparg
                       (Some (addr (h t) - (addr (h i) + len (h i))))), tt)
    | None => Raise AttributeError
    end
  else if bool_decide (opcode (h i) ∈ hasjabs D) then
    match target (h i) with
    | Some t => Ok (upd h i (set_oparg (Some (addr (h t)))), tt)
    | None => Raise AttributeError
    end
  else Ok s.

(** [BytecodeGraph.patch_opargs(start)] *)
Definition patch_opargs (fuel : nat) (g : BytecodeGraph)
    (start : option nat) : res BytecodeGraph :=
  s ← for_nodes fuel patch_opargs_body (start_of g start) (store g, tt);
  Ok (with_store g s.1).

(** The body of the loop of [refactor]; the loop's variables are
    [offset] and [new_bytecodes]. *)
Definition refactor_body (i : nat) (s : Store * (Z * gmap Z nat))
  : res (Store * (Z * gmap Z nat)) :=
  let h := s.1 in
  let offset := s.2.1 in
  let new_bytecodes := <[offset := i]> (s.2.2) in
  let h := upd h i (set_addr offset) in
  Ok (h, (offset + len (h i), new_bytecodes)).

(** [BytecodeGraph.refactor]: new addresses, the new dictionary, then
    [patch_opargs], then [apply_labels]. *)
Definition refactor (fuel : nat) (g : BytecodeGraph) : res BytecodeGraph :=
  s ← for_nodes fuel refactor_body (head g) (store g, (base g, ∅));
  let g1 := mkGraph (base g) (code g) (head g) (s.2.2) (s.1) (fresh g) in
  g2 ← patch_opargs fuel g1 None;
  apply_labels fuel g2 None.

(** The loop of [get_code]: [new_co_code += x.bin()]. *)
Definition get_code_body (i : nat) (s : Store * list Z)
  : res (Store * list Z) :=
  b ← bin (s.1 i); Ok (s.1, s.2 ++ b).

(** [BytecodeGraph.get_code(start)]: the new code object, with the fields
    the graph does not touch left out. *)
Definition get_code (fuel : nat) (g : BytecodeGraph) (start : option nat)
  : res code_object :=
  g1 ← refactor fuel g;
  new_co_lineno ← calc_lnotab fuel g1;
  s ← for_nodes fuel get_code_body (start_of g1 start) (store g1, []);
  Ok (mkCode (s.2) (co_firstlineno (code g1)) new_co_lineno).

(** The local variables of the loop of [parse_bytecode], with the store
    and its next unused identity. *)
Record parse_vars : Type := mkParseVars {
  p_store : Store;
  p_fresh : nat;
  p_bytecodes : gmap Z nat;
  p_prev : option nat;
  p_offset : Z;
  p_targets : list Z
}.

(** The [while] loop of [parse_bytecode]. Every turn advances [offset] by
    1 or 3, so [fuel] above the length of the stream is never used up.
    The length of the new instruction is read at key [offset], not at
    [self.base + offset]. *)
Fixpoint parse_loop (fuel : nat) (b : Z) (c : list Z) (v : parse_vars)
  : res parse_vars :=
  if bool_decide (p_offset v < Z.of_nat (length c)) then
    match fuel with
    | O => Diverge
    | S f =>
        nxt ← Bytecode_init (b + p_offset v)
                (take 3 (drop (Z.to_nat (p_offset v)) c)) (p_prev v);
        let id := p_fresh v in
        let h := upd (p_store v) id (fun _ => nxt) in
        let bcs := <[b + p_offset v := id]> (p_bytecodes v) in
        k ← getitem bcs (p_offset v);
        let offset := p_offset v + len (h k) in
        let h := match p_prev v with
                 | Some p => upd h p (set_next (Some id))
                 | None => h
                 end in
        t ← get_target_addr (h id);
        let targets := match t with
                       | Some x => p_targets v ++ [x]
                       | None => p_targets v
                       end in
        parse_loop f b c (mkParseVars h (S id) bcs (Some id) offset targets)
    end
  else Ok v.

(** [BytecodeGraph.parse_bytecode]: the first component is what the
    function prints, the target addresses that are not keys of
    [self.bytecodes]. *)
Definition parse_bytecode (fuel : nat) (b : Z) (c : code_object)
  : list Z * res BytecodeGraph :=
  match parse_loop (S (length (co_code c))) b (co_code c)
          (mkParseVars (fun _ => blank) O ∅ None 0 []) with
  | Ok v =>
      (filter (fun x => p_bytecodes v !! x = None) (p_targets v),
       hd ← getitem (p_bytecodes v) b;
       apply_labels fuel
         (mkGraph b c (Some hd) (p_bytecodes v) (p_store v) (p_fresh v))
         None)
  | Raise e => ([], Raise e)
  | Diverge => ([], Diverge)
  end.

(** [BytecodeGraph.__init__(code, base)] *)
Definition BytecodeGraph_init (fuel : nat) (c : code_object) (b : Z)
  : list Z * res BytecodeGraph :=
  let r := parse_bytecode fuel b c in
  (r.1, g ← r.2; apply_lineno fuel g).

End WithDis.

(** ** Predicates used in the statements *)

(** The fields two states of a node share when only some were assigned. *)
Definition same_but_addr (b b' : Bytecode) : Prop :=
  opcode b' = opcode b ∧ oparg b' = oparg b ∧ prev b' = prev b ∧
  next b' = next b ∧ xrefs b' = xrefs b ∧ target b' = target b ∧
  node_co_lnotab b' = node_co_lnotab b.

Definition same_but_oparg (b b' : Bytecode) : Prop :=
  opcode b' = opcode b ∧ addr b' = addr b ∧ prev b' = prev b ∧
  next b' = next b ∧ xrefs b' = xrefs b ∧ target b' = target b ∧
  node_co_lnotab b' = node_co_lnotab b.

Definition same_but_links (b b' : Bytecode) : Prop :=
  opcode b' = opcode b ∧ addr b' = addr b ∧ oparg b' = oparg b ∧
  prev b' = prev b ∧ next b' = next b ∧
  node_co_lnotab b' = node_co_lnotab b.

Section Predicates.

Variable D : Dis.

(** A jump-class node, as [apply_labels] and [patch_opargs] test it. *)
Definition is_jump (b : Bytecode) : Prop :=
  HAVE_ARGUMENT D <= opcode b ∧
  (opcode b ∈ hasjrel D ∨ opcode b ∈ hasjabs D).

(** [contiguous h a l]: the nodes of [l] lie one after the other from
    address [a], each at the end of the one before. *)
Fixpoint contiguous (h : Store) (a : Z) (l : list nat) : Prop :=
  match l with
  | [] => True
  | i :: r => addr (h i) = a ∧ contiguous h (a + len D (h i)) r
  end.

(** What [patch_opargs] leaves in the operand of node [i]: targets are
    read in [ht], addresses in [ha], the new operand in [ho]. *)
Definition patched (ht ha ho : Store) (i : nat) : Prop :=
  HAVE_ARGUMENT D <= opcode (ha i) ->
  (opcode (ha i) ∈ hasjrel D ->
     ∃ t, target (ht i) = Some t ∧
          oparg (ho i) = Some (addr (ha t) - (addr (ha i) + len D (ha i)))) ∧
  (opcode (ha i) ∉ hasjrel D -> opcode (ha i) ∈ hasjabs D ->
     ∃ t, target (ht i) = Some t ∧ oparg (ho i) = Some (addr (ha t))).

(** The state of the second loop of [apply_labels] over the list [l] once
    the nodes of [p] have been visited. *)
Definition xref_inv (l p : list nat) (h : Store) : Prop :=
  (∀ n r, n ∈ l -> r ∈ xrefs (h n) -> r ∈ p ∧ target (h r) = Some n) ∧
  (∀ n r, r ∈ p -> target (h r) = Some n -> r ∈ xrefs (h n)) ∧
  (∀ n, n ∈ l -> NoDup (xrefs (h n))) ∧
  (∀ r, r ∈ l -> r ∉ p -> target (h r) = None).

(** [node_lines h l xs]: [xs] lists the address and the line of the nodes
    of [l], all of which have a line. *)
Definition node_lines (h : Store) (l : list nat) (xs : list (Z * Z)) : Prop :=
  Forall2 (fun i x => addr (h i) = x.1 ∧ node_co_lnotab (h i) = Some x.2) l xs.

(** The line-table encoder in the words of the specification: a pair
    each time the line differs from the line of the last pair, both deltas
    clamped into 0..255. *)
Definition clamp_byte (v : Z) : Z := Z.max 0 (Z.min 255 v).

Fixpoint lnotab_claimed (line offset : Z) (xs : list (Z * Z)) : list Z :=
  match xs with
  | [] => []
  | (a, ln) :: r =>
      if bool_decide (ln = line) then lnotab_claimed line offset r
      else clamp_byte (a - offset) :: clamp_byte (ln - line)
             :: lnotab_claimed ln a r
  end.

(** Every pair to emit has both deltas in 0..255. *)
Fixpoint deltas_fit (line offset : Z) (xs : list (Z * Z)) : Prop :=
  match xs with
  | [] => True
  | (a, ln) :: r =>
      if bool_decide (ln = line) then deltas_fit line offset r
      else (0 <= a - offset <= 255 ∧ 0 <= ln - line <= 255) ∧ deltas_fit ln a r
  end.

(** Relocation in the order the specification gives: new addresses, the
    new dictionary, cross-reference resolution, and then the patch of the
    operands. *)
Definition refactor_claimed (fuel : nat) (g : BytecodeGraph)
  : res BytecodeGraph :=
  s ← for_nodes fuel (refactor_body D) (head g) (store g, (base g, ∅));
  let g1 := mkGraph (base g) (code g) (head g) (s.2.2) (s.1) (fresh g) in
  g2 ← apply_labels D fuel g1 None;
  patch_opargs D fuel g2 None.

(** Some pair to emit has its byte delta out of 0..255, the pairs before
    it having theirs inside. *)
Fixpoint byte_delta_overflows (line offset : Z) (xs : list (Z * Z)) : Prop :=
  match xs with
  | [] => False
  | (a, ln) :: r =>
      if bool_decide (ln = line) then byte_delta_overflows line offset r
      else ¬ 0 <= a - offset <= 255 ∨
           (0 <= a - offset <= 255 ∧ byte_delta_overflows ln a r)
  end.

(** The line-table encoding as the specification states it, for the
    graph [g]. *)
Definition lnotab_claim (fuel : nat) (g : BytecodeGraph) : Prop :=
  ∀ l xs hd,
    nodes fuel g None = Some l -> head g = Some hd ->
    node_lines (store g) l xs ->
    calc_lnotab fuel g
    = Ok (lnotab_claimed (co_firstlineno (code g)) (addr (store g hd)) xs).

(** Decoding a code object and encoding the graph at once. *)
Definition round_trip (fuel : nat) (c : code_object) (b : Z)
  : res code_object :=
  g ← (BytecodeGraph_init D fuel c b).2; get_code D fuel g None.

End Predicates.

#[global] Instance is_jump_dec D b : Decision (is_jump D b).
Proof. unfold is_jump. apply _. Defined.

#[global] Instance node_lines_dec h l xs : Decision (node_lines h l xs).
Proof. unfold node_lines. apply _. Defined.

(** ** Predicates for the decoder and the serialiser *)

Section Layout.

Variable D : Dis.

(** A value [ord] can return. *)
Definition is_byte (x : Z) : Prop := 0 <= x <= 255.

(** The address after the nodes of [l], laid out from [a]. *)
Fixpoint stream_end (h : Store) (a : Z) (l : list nat) : Z :=
  match l with
  | [] => a
  | i :: r => stream_end h (a + len D (h i)) r
  end.

(** [back_linked h p l]: the [prev] of every node of [l] is the node
    before it, [p] for the first. *)
Fixpoint back_linked (h : Store) (p : option nat) (l : list nat) : Prop :=
  match l with
  | [] => True
  | i :: r => prev (h i) = p ∧ back_linked h (Some i) r
  end.

(** The addresses [get_target_addr] returns over the nodes of [l], in
    order: what [parse_bytecode] collects in [targets]. *)
Definition targets_of (h : Store) (l : list nat) : list Z :=
  l ≫= (fun i => match get_target_addr D (h i) with
                 | Ok (Some x) => [x]
                 | _ => []
                 end).

(** The tables of a Python: jump opcodes take an argument, and no opcode
    is both a relative and an absolute jump. *)
Definition dis_wf : Prop :=
  (∀ op, op ∈ hasjrel D -> HAVE_ARGUMENT D <= op) ∧
  (∀ op, op ∈ hasjabs D -> HAVE_ARGUMENT D <= op) ∧
  (∀ op, op ∈ hasjrel D -> op ∉ hasjabs D).

(** What [parse_bytecode] has built once its loop has read the stream [c]
    up to [offset], at base address 0: the nodes are the identities below
    [p_fresh], linked both ways, laid out from 0 to [offset], recorded in
    the dictionary under their addresses, and each holds the bytes of [c]
    at its address. *)
Definition parse_inv (c : list Z) (v : parse_vars) : Prop :=
  let h := p_store v in
  let l := seq 0 (p_fresh v) in
  p_prev v = last l ∧
  chain h (l !! 0%nat) l ∧
  back_linked h None l ∧
  contiguous D h 0 l ∧
  p_offset v = stream_end h 0 l ∧
  (∀ a i, p_bytecodes v !! a = Some i ↔ i ∈ l ∧ addr (h i) = a) ∧
  p_targets v = targets_of h l ∧
  (∀ i, i ∈ l ->
     xrefs (h i) = [] ∧ target (h i) = None ∧ node_co_lnotab (h i) = None ∧
     c !! Z.to_nat (addr (h i)) = Some (opcode (h i)) ∧
     (opcode (h i) < HAVE_ARGUMENT D -> oparg (h i) = None) ∧
     (HAVE_ARGUMENT D <= opcode (h i) ->
      ∃ b1 b2, c !! Z.to_nat (addr (h i) + 1) = Some b1 ∧
               c !! Z.to_nat (addr (h i) + 2) = Some b2 ∧
               oparg (h i) = Some (Z.lor b1 (Z.shiftl b2 8)))).

(** The fields [apply_lineno] leaves alone. *)
Definition same_but_line (b b' : Bytecode) : Prop :=
  opcode b' = opcode b ∧ addr b' = addr b ∧ oparg b' = oparg b ∧
  prev b' = prev b ∧ next b' = next b ∧ xrefs b' = xrefs b ∧
  target b' = target b.

(** [resolved_layout g l]: the list [l] of [g] is laid out from the base
    address and every jump of it has as target the node of the list that
    lies at the address its operand designates. *)
Definition resolved_layout (g : BytecodeGraph) (l : list nat) : Prop :=
  contiguous D (store g) (base g) l ∧
  ∀ i, i ∈ l -> is_jump D (store g i) ->
    ∃ t lab, target (store g i) = Some t ∧ t ∈ l ∧
             jump_label D (store g i) = Ok (Some lab) ∧
             addr (store g t) = lab.

(** A turn of the second loop of [apply_labels] returns when the label
    it computes, if it is an address, is a key of the dictionary. *)
Definition label_found (m : gmap Z nat) (b : Bytecode) : Prop :=
  HAVE_ARGUMENT D <= opcode b ->
  ∃ lbl, jump_label D b = Ok lbl ∧
         ∀ lab, lbl = Some lab -> 0 <= lab -> is_Some (m !! lab).

(** The address the second loop of [apply_labels] looks up for a node:
    its label when the opcode takes an argument and the label is not
    negative, and none otherwise. *)
Definition linkable (b : Bytecode) : option Z :=
  if bool_decide (HAVE_ARGUMENT D <= opcode b) then
    match jump_label D b with
    | Ok (Some lab) => if bool_decide (0 <= lab) then Some lab else None
    | _ => None
    end
  else None.

(** [encoded_at c b]: the stream [c] holds at the address of [b] the
    bytes [b.bin()] writes. *)
Definition encoded_at (c : list Z) (b : Bytecode) : Prop :=
  c !! Z.to_nat (addr b) = Some (opcode b) ∧
  (HAVE_ARGUMENT D <= opcode b ->
   ∃ v, oparg b = Some v ∧ 0 <= v <= 65535 ∧
        c !! Z.to_nat (addr b + 1) = Some (Z.land v 255) ∧
        c !! Z.to_nat (addr b + 2) = Some (Z.shiftr v 8)).

(** [decoded_at c b]: [b] holds what [Bytecode.__init__] reads in [c] at
    the address of [b]. *)
Definition decoded_at (c : list Z) (b : Bytecode) : Prop :=
  c !! Z.to_nat (addr b) = Some (opcode b) ∧
  (HAVE_ARGUMENT D <= opcode b ->
   ∃ b1 b2, c !! Z.to_nat (addr b + 1) = Some b1 ∧
            c !! Z.to_nat (addr b + 2) = Some b2 ∧
            oparg b = Some (Z.lor b1 (Z.shiftl b2 8))).

(** Two nodes that are the same instruction at the same place. *)
Definition same_instr (b b' : Bytecode) : Prop :=
  addr b' = addr b ∧ opcode b' = opcode b ∧
  (HAVE_ARGUMENT D <= opcode b -> oparg b' = oparg b).

(** The line of the last pair of [pairs] whose address is not above
    [a], and [line] when the first pair already is above; [pairs] are the
    running (address, line) pairs of a line table. *)
Fixpoint line_at (line : Z) (pairs : list (Z * Z)) (a : Z) : Z :=
  match pairs with
  | [] => line
  | (aj, lj) :: r => if bool_decide (aj <= a) then line_at lj r a else line
  end.

(** The bytes of a line table, from its (byte increment, line increment)
    pairs. *)
Fixpoint flatten_pairs (incrs : list (Z * Z)) : list Z :=
  match incrs with
  | [] => []
  | (b, d) :: r => b :: d :: flatten_pairs r
  end.

(** Every element is below the elements after it. *)
Fixpoint ascending (xs : list Z) : Prop :=
  match xs with
  | [] => True
  | a :: r => Forall (fun b => a < b) r ∧ ascending r
  end.

(** A line table of at least two pairs that starts at the first
    instruction, where every pair moves on by 1..255 lines and, after the
    first, by 1..255 bytes. *)
Definition standard_table (incrs : list (Z * Z)) : Prop :=
  match incrs with
  | [] => False
  | (b0, d0) :: rest =>
      b0 = 0 ∧ 1 <= d0 <= 255 ∧ rest ≠ [] ∧
      Forall (fun p => 1 <= p.1 <= 255 ∧ 1 <= p.2 <= 255) rest
  end.

End Layout.

(** ** Sample programs *)

(** LOAD_CONST 0, a JUMP_ABSOLUTE 1 into the LOAD_CONST, RETURN_VALUE. *)
Definition code_nonlinear : code_object :=
  mkCode [100; 0; 0; 113; 1; 0; 83] 1 [0; 1; 3; 1].


Definition empty_graph : BytecodeGraph :=
  mkGraph 0 (mkCode [] 0 []) None ∅ (fun _ => blank) 0.

Definition from_res (r : res BytecodeGraph) : BytecodeGraph :=
  match r with
  | Ok g => g
  | _ => empty_graph
  end.

Definition is_Ok {A} (r : res A) : bool :=
  match r with
  | Ok _ => true
  | _ => false
  end.

(** A function body with two jumps to one instruction, in the
    instruction set of CPython 2.7: LOAD_FAST 0, POP_JUMP_IF_FALSE 13,
    LOAD_CONST 1, RETURN_VALUE, JUMP_FORWARD 0, LOAD_CONST 2,
    RETURN_VALUE; the lines are 2 from address 0, 3 from 6 and 5 from
    13. *)
Definition code_if : code_object :=
  mkCode [124; 0; 0; 114; 13; 0; 100; 1; 0; 83; 110; 0; 0; 100; 2; 0; 83]
         1 [0; 1; 6; 1; 7; 2].

Definition graph_if : BytecodeGraph :=
  from_res (BytecodeGraph_init py27 10 code_if 0).2.

(** [graph_if] once its last instruction, the RETURN_VALUE at 16, is
    deleted, and then the LOAD_CONST at 13, the target of both jumps. *)
Definition graph_if_dangling : BytecodeGraph :=
  from_res (delete_node (from_res (delete_node graph_if 6%nat)) 5%nat).

(** [graph_if] once the RETURN_VALUE at 9 is deleted. *)
Definition graph_if_deleted : BytecodeGraph :=
  from_res (delete_node graph_if 3%nat).

(** The body of [while 1: pass]: SETUP_LOOP 3, a JUMP_ABSOLUTE 3 that
    jumps to itself, LOAD_CONST 0, RETURN_VALUE. *)
Definition code_loop : code_object :=
  mkCode [120; 3; 0; 113; 3; 0; 100; 0; 0; 83] 1 [0; 1; 3; 1].

Definition graph_loop : BytecodeGraph :=
  from_res (BytecodeGraph_init py27 10 code_loop 0).2.

(** The deletion redirect as the specification states it, for the
    deletion of [n] in [g]: every referrer of [n] has the successor [m]
    as target and is in [m.xrefs], at once and after relocation. *)
Definition deletion_redirect_claim (D : Dis) (fuel : nat)
    (g : BytecodeGraph) (n : nat) : Prop :=
  ∀ m g1 r,
    next (store g n) = Some m -> delete_node g n = Ok g1 ->
    r ∈ xrefs (store g n) ->
    (target (store g1 r) = Some m ∧ r ∈ xrefs (store g1 m)) ∧
    (∀ g2, refactor D fuel g1 = Ok g2 ->
           target (store g2 r) = Some m ∧ r ∈ xrefs (store g2 m)).

(** The address and the line of every node of the list of [g]. *)
Definition lines_of (fuel : nat) (g : BytecodeGraph) : list (Z * Z) :=
  (fun i => (addr (store g i), default 0 (node_co_lnotab (store g i))))
    <$> default [] (nodes fuel g None).

(** 86 LOAD_CONST and a RETURN_VALUE at 258; the line table is the one
    CPython 2.7 writes when line 2 starts at 0 and line 3 at 258. *)
Definition code_long : code_object :=
  mkCode (concat (replicate 86 [100; 0; 0]) ++ [83]) 1 [0; 1; 255; 0; 3; 1].

Definition graph_long : BytecodeGraph :=
  from_res (BytecodeGraph_init py27 100 code_long 0).2.

(** [graph_loop] with a NOP of line 400 inserted after its first
    instruction by [add_node], relocated. *)
Definition graph_line_jump : BytecodeGraph :=
  match new_Bytecode py27 graph_loop 0 [9] with
  | Ok (bc, g) => from_res (refactor py27 10 (add_node g 0%nat bc (Some 400)))
  | _ => empty_graph
  end.

(** [graph_loop] and a NOP the caller has built with [Bytecode(0, "\x09")],
    not yet inserted: the new object has identity 4. *)
Definition graph_loop_nop : BytecodeGraph :=
  match new_Bytecode py27 graph_loop 0 [9] with
  | Ok (_, g) => g
  | _ => empty_graph
  end.

(** LOAD_CONST 0, JUMP_FORWARD 0, RETURN_VALUE, where the caller has
    pointed the JUMP_FORWARD at the LOAD_CONST before it
    ([jump.target = load]). *)
Definition code_forward : code_object :=
  mkCode [100; 0; 0; 110; 0; 0; 83] 1 [0; 1; 3; 1].

Definition graph_back_jump : BytecodeGraph :=
  let g := from_res (BytecodeGraph_init py27 10 code_forward 0).2 in
  with_store g (upd (store g) 1%nat (set_target (Some 0%nat))).

(** The module [x = 1] / [y = 2] / [z = 3] as CPython 2.7 compiles it:
    three LOAD_CONST and STORE_NAME pairs, LOAD_CONST, RETURN_VALUE, one
    line every 6 bytes. *)
Definition code_three_lines : code_object :=
  mkCode [100; 0; 0; 90; 0; 0; 100; 1; 0; 90; 1; 0; 100; 2; 0; 90; 2; 0;
          100; 3; 0; 83] 1 [6; 1; 6; 1].

(** The graph [parse_bytecode] returns for it, before [apply_lineno]. *)
Definition graph_three_lines_parsed : BytecodeGraph :=
  from_res (parse_bytecode py27 10 0 code_three_lines).2.

(** The function [def f(): return 1] on two lines: LOAD_CONST 1,
    RETURN_VALUE, and the line table of its one body line. *)
Definition code_one_line : code_object :=
  mkCode [100; 1; 0; 83] 1 [0; 1].

(** The module [x = 1]: on its first line, so the line table is empty. *)
Definition code_first_line : code_object :=
  mkCode [100; 0; 0; 90; 0; 0; 100; 1; 0; 83] 1 [].

Section Proofs.

Variable D : Dis.

Lemma bind_Ok {A B} (m : res A) (f : A -> res B) b :
  m ≫= f = Ok b -> ∃ a, m = Ok a ∧ f a = Ok b.
Proof. destruct m; simpl; try done. eauto. Qed.

(** *** The store *)

Lemma upd_eq (h : Store) i f : upd h i f i = f (h i).
Proof. unfold upd. by rewrite decide_True. Qed.

Lemma upd_ne (h : Store) i j f : j ≠ i -> upd h i f j = h j.
Proof. intros Hne. unfold upd. by rewrite decide_False. Qed.

Lemma len_pos b : 0 < len D b.
Proof. unfold len. case_bool_decide; lia. Qed.

Lemma len_opcode b b' : opcode b' = opcode b -> len D b' = len D b.
Proof. unfold len. by intros ->. Qed.

(** *** Traversal *)

Lemma nodes_from_ext fuel (h h' : Store) cur :
  (∀ j, next (h' j) = next (h j)) ->
  nodes_from fuel h' cur = nodes_from fuel h cur.
Proof.
  intros Hn. revert cur. induction fuel as [|f IH]; intros [i|]; simpl; auto.
  by rewrite Hn, IH.
Qed.

Lemma nodes_from_chain fuel h cur l :
  nodes_from fuel h cur = Some l -> chain h cur l.
Proof.
  revert cur l. induction fuel as [|f IH]; intros [i|] l; simpl; try done.
  - intros [= <-]. done.
  - destruct (nodes_from f h (next (h i))) as [r|] eqn:E; try done.
    simpl. intros [= <-]. simpl. split; auto.
  - intros [= <-]. done.
Qed.

Lemma chain_nodes_from h cur l fuel :
  chain h cur l -> (length l <= fuel)%nat -> nodes_from fuel h cur = Some l.
Proof.
  revert cur fuel. induction l as [|i r IH]; intros cur fuel; simpl.
  - intros ->. by destruct fuel.
  - intros [-> Hc] Hlen. destruct fuel as [|f]; [lia|]. simpl.
    rewrite (IH _ f Hc); [done|lia].
Qed.

Lemma chain_det h cur l1 l2 : chain h cur l1 -> chain h cur l2 -> l1 = l2.
Proof.
  revert cur l2. induction l1 as [|i r IH]; intros cur [|j r2]; simpl.
  - done.
  - intros -> [? _]. done.
  - intros [-> _] ?. done.
  - intros [-> H1] [[= <-] H2]. f_equal. eauto.
Qed.

Lemma chain_ext (h h' : Store) cur l :
  (∀ j, j ∈ l -> next (h' j) = next (h j)) -> chain h cur l -> chain h' cur l.
Proof.
  revert cur. induction l as [|i r IH]; intros cur Hn; simpl; [done|].
  intros [-> Hc]. split; [done|]. rewrite Hn by left.
  apply IH; [|done]. intros j Hj. apply Hn. by right.
Qed.

Lemma chain_app_cons h cur l1 i l2 :
  chain h cur (l1 ++ i :: l2) -> chain h (next (h i)) l2.
Proof.
  revert cur. induction l1 as [|k r IH]; intros cur; simpl.
  - by intros [_ ?].
  - intros [_ Hc]. eauto.
Qed.

(** A traversal that ends meets no node twice. *)
Lemma chain_NoDup h cur l : chain h cur l -> NoDup l.
Proof.
  revert cur. induction l as [|i r IH]; intros cur; simpl.
  - intros _. constructor.
  - intros [-> Hc]. constructor; [|eauto].
    intros Hin. apply list_elem_of_split in Hin as (l1 & l2 & ->).
    pose proof (chain_app_cons _ _ _ _ _ Hc) as Ha.
    pose proof (chain_det _ _ _ _ Hc Ha) as Heq.
    apply (f_equal length) in Heq. rewrite length_app in Heq. simpl in Heq. lia.
Qed.

Lemma nodes_from_NoDup fuel h cur l : nodes_from fuel h cur = Some l -> NoDup l.
Proof. intros H. eapply chain_NoDup, nodes_from_chain, H. Qed.

(** The lazy generator and the loop over the list met agree as long as the
    body assigns no [next]. *)
Lemma for_nodes_run_list {A} (body : nat -> Store * A -> res (Store * A)) :
  (∀ i s s', body i s = Ok s' -> ∀ j, next (s'.1 j) = next (s.1 j)) ->
  ∀ fuel cur s l, nodes_from fuel s.1 cur = Some l ->
    for_nodes fuel body cur s = run_list body l s.
Proof.
  intros Hb. induction fuel as [|f IH]; intros [i|] s l; simpl; try done.
  - intros [= <-]. done.
  - destruct (nodes_from f s.1 (next (s.1 i))) as [r|] eqn:E; [|done].
    simpl. intros [= <-]. simpl. destruct (body i s) as [s'| |] eqn:Eb; try done.
    simpl. rewrite (Hb _ _ _ Eb). apply IH.
    rewrite <- E. apply nodes_from_ext. eauto.
  - intros [= <-]. done.
Qed.

(** A pointwise relation that every turn keeps is kept by the loop. *)
Lemma run_list_rel {A} (R : Bytecode -> Bytecode -> Prop)
    (body : nat -> Store * A -> res (Store * A)) :
  (∀ b, R b b) -> (∀ a b c, R a b -> R b c -> R a c) ->
  (∀ i s s', body i s = Ok s' -> ∀ j, R (s.1 j) (s'.1 j)) ->
  ∀ l s s', run_list body l s = Ok s' -> ∀ j, R (s.1 j) (s'.1 j).
Proof.
  intros Hr Ht Hb. induction l as [|i r IH]; intros s s'; simpl.
  - intros [= <-] j. apply Hr.
  - destruct (body i s) as [s1| |] eqn:E; try done. simpl.
    intros Hrun j. eapply Ht; [eapply Hb, E|eapply IH, Hrun].
Qed.

(** Nodes outside the list keep what every turn keeps of the nodes it
    does not visit. *)
Lemma run_list_outside_rel {A} (R : Bytecode -> Bytecode -> Prop)
    (body : nat -> Store * A -> res (Store * A)) :
  (∀ b, R b b) -> (∀ a b c, R a b -> R b c -> R a c) ->
  (∀ i s s', body i s = Ok s' -> ∀ j, j ≠ i -> R (s.1 j) (s'.1 j)) ->
  ∀ l s s', run_list body l s = Ok s' -> ∀ j, j ∉ l -> R (s.1 j) (s'.1 j).
Proof.
  intros Hr Ht Hb. induction l as [|i r IH]; intros s s'; simpl.
  - intros [= <-] j _. apply Hr.
  - destruct (body i s) as [s1| |] eqn:E; try done. simpl.
    intros Hrun j Hj. apply not_elem_of_cons in Hj as [Hji Hjr].
    eapply Ht; [eapply Hb; eauto|eapply IH; eauto].
Qed.

Lemma run_list_outside {A} (body : nat -> Store * A -> res (Store * A)) :
  (∀ i s s', body i s = Ok s' -> ∀ j, j ≠ i -> s'.1 j = s.1 j) ->
  ∀ l s s', run_list body l s = Ok s' -> ∀ j, j ∉ l -> s'.1 j = s.1 j.
Proof.
  intros Hb l s s' Hrun j Hj. symmetry.
  apply (run_list_outside_rel eq body) with (l := l); auto.
  - intros. congruence.
  - intros. symmetry. eauto.
Qed.

Lemma for_nodes_Ok_nodes {A} (body : nat -> Store * A -> res (Store * A)) :
  (∀ i s s', body i s = Ok s' -> ∀ j, next (s'.1 j) = next (s.1 j)) ->
  ∀ fuel cur s s', for_nodes fuel body cur s = Ok s' ->
    ∃ l, nodes_from fuel s.1 cur = Some l.
Proof.
  intros Hb. induction fuel as [|f IH]; intros [i|] s s'; simpl; try done; eauto.
  intros (s1 & E & Hrun)%bind_Ok. rewrite (Hb _ _ _ E) in Hrun.
  apply IH in Hrun as [r Hr].
  rewrite (nodes_from_ext _ _ _ _ (Hb _ _ _ E)) in Hr. rewrite Hr. eauto.
Qed.

(** *** The loop of [refactor] *)

Lemma refactor_body_Ok i s :
  refactor_body D i s =
  Ok (upd s.1 i (set_addr s.2.1),
      (s.2.1 + len D (s.1 i), <[s.2.1 := i]> s.2.2)).
Proof.
  unfold refactor_body. cbn zeta. rewrite upd_eq.
  by rewrite (len_opcode (s.1 i) (set_addr s.2.1 (s.1 i))).
Qed.

Lemma refactor_body_next i s s' :
  refactor_body D i s = Ok s' -> ∀ j, next (s'.1 j) = next (s.1 j).
Proof.
  rewrite refactor_body_Ok. intros [= <-] j. simpl.
  unfold upd. by case_decide.
Qed.

Lemma refactor_body_rel i s s' :
  refactor_body D i s = Ok s' -> ∀ j, same_but_addr (s.1 j) (s'.1 j).
Proof.
  rewrite refactor_body_Ok. intros [= <-] j. simpl.
  unfold upd, same_but_addr. by case_decide.
Qed.

Lemma refactor_body_outside i s s' :
  refactor_body D i s = Ok s' -> ∀ j, j ≠ i -> s'.1 j = s.1 j.
Proof.
  rewrite refactor_body_Ok. intros [= <-] j Hj. simpl. by apply upd_ne.
Qed.

Lemma same_but_addr_refl b : same_but_addr b b.
Proof. by unfold same_but_addr. Qed.

Lemma same_but_addr_trans a b c :
  same_but_addr a b -> same_but_addr b c -> same_but_addr a c.
Proof. unfold same_but_addr. intros ? ?. intuition congruence. Qed.

Lemma refactor_loop_rel l s s' :
  run_list (refactor_body D) l s = Ok s' -> ∀ j, same_but_addr (s.1 j) (s'.1 j).
Proof.
  apply (run_list_rel same_but_addr);
    eauto using same_but_addr_refl, same_but_addr_trans, refactor_body_rel.
Qed.

Lemma refactor_loop_total l : ∀ s, ∃ s', run_list (refactor_body D) l s = Ok s'.
Proof.
  induction l as [|i r IH]; intros s; simpl; eauto.
Qed.

Lemma contiguous_lower h a l i :
  contiguous D h a l -> i ∈ l -> a <= addr (h i).
Proof.
  revert a. induction l as [|k r IH]; intros a; simpl.
  - intros _ Hi. by apply elem_of_nil in Hi.
  - intros [Hk Hr] [->|Hi]%elem_of_cons; [lia|].
    specialize (IH _ Hr Hi). pose proof (len_pos (h k)). lia.
Qed.

Lemma contiguous_ext (h h' : Store) a l :
  (∀ j, j ∈ l -> addr (h' j) = addr (h j) ∧ opcode (h' j) = opcode (h j)) ->
  contiguous D h a l -> contiguous D h' a l.
Proof.
  revert a. induction l as [|k r IH]; intros a Hext; simpl; [done|].
  intros [Hk Hr]. destruct (Hext k) as [Ha Ho]; [by left|].
  split; [congruence|]. rewrite (len_opcode _ _ Ho).
  apply IH; [|done]. intros j Hj. apply Hext. by right.
Qed.

(** The loop of [refactor] lays the list out from [off] and records every
    node of it under its new address. *)
Lemma refactor_loop_spec l : ∀ h off (m : gmap Z nat) s',
  NoDup l ->
  run_list (refactor_body D) l (h, (off, m)) = Ok s' ->
  contiguous D s'.1 off l ∧
  (∀ i, i ∈ l -> s'.2.2 !! addr (s'.1 i) = Some i) ∧
  (∀ a, a < off -> s'.2.2 !! a = m !! a).
Proof.
  induction l as [|i r IH]; intros h off m s' Hnd; cbn [run_list].
  - intros [= <-]. simpl. split_and!; [done| |done].
    intros i Hi. by apply elem_of_nil in Hi.
  - rewrite refactor_body_Ok. cbn [mbind res_bind fst snd]. intros Hrun.
    apply NoDup_cons in Hnd as [Hi Hnd].
    destruct (IH _ _ _ _ Hnd Hrun) as (Hc & Hm & Hlow).
    pose proof (run_list_outside _ refactor_body_outside _ _ _ Hrun i Hi) as Hout.
    pose proof (refactor_loop_rel _ _ _ Hrun i) as Hrel.
    simpl in Hout, Hrel. rewrite upd_eq in Hout.
    assert (Ha : addr (s'.1 i) = off) by (by rewrite Hout).
    assert (Hl : len D (s'.1 i) = len D (h i)).
    { apply len_opcode. by rewrite Hout. }
    pose proof (len_pos (h i)) as Hpos.
    split_and!.
    + split; [done|]. by rewrite Hl.
    + intros j [->|Hj]%elem_of_cons; [|by apply Hm].
      rewrite Ha, Hlow by lia. apply lookup_insert_eq.
    + intros a Ha'. rewrite Hlow by lia. apply lookup_insert_ne. lia.
Qed.

(** *** The loop of [patch_opargs] *)

Lemma same_but_oparg_refl b : same_but_oparg b b.
Proof. by unfold same_but_oparg. Qed.

Lemma same_but_oparg_trans a b c :
  same_but_oparg a b -> same_but_oparg b c -> same_but_oparg a c.
Proof. unfold same_but_oparg. intros ? ?. intuition congruence. Qed.

Lemma patch_body_rel i s s' :
  patch_opargs_body D i s = Ok s' -> ∀ j, same_but_oparg (s.1 j) (s'.1 j).
Proof.
  unfold patch_opargs_body; cbv zeta. intros H j.
  repeat case_bool_decide; try destruct (target (s.1 i));
    simplify_eq; simpl; auto using same_but_oparg_refl;
    unfold upd, same_but_oparg; by case_decide.
Qed.

Lemma patch_body_outside i s s' :
  patch_opargs_body D i s = Ok s' -> ∀ j, j ≠ i -> s'.1 j = s.1 j.
Proof.
  unfold patch_opargs_body; cbv zeta. intros H j Hj.
  repeat case_bool_decide; try destruct (target (s.1 i));
    simplify_eq; simpl; auto; by apply upd_ne.
Qed.

Lemma patch_body_next i s s' :
  patch_opargs_body D i s = Ok s' -> ∀ j, next (s'.1 j) = next (s.1 j).
Proof. intros H j. by destruct (patch_body_rel _ _ _ H j) as (_&_&_&?&_). Qed.

Lemma patch_body_patched i s s' :
  patch_opargs_body D i s = Ok s' -> patched D s.1 s.1 s'.1 i.
Proof.
  unfold patch_opargs_body, patched; cbv zeta. intros H Hop.
  rewrite bool_decide_false in H by lia.
  destruct (target (s.1 i)) as [t|] eqn:Et; split.
  - intros Hj. rewrite bool_decide_true in H by done.
    simplify_eq. simpl. rewrite upd_eq. eauto.
  - intros Hj1 Hj2. rewrite bool_decide_false, bool_decide_true in H by done.
    simplify_eq. simpl. rewrite upd_eq. eauto.
  - intros Hj. by rewrite bool_decide_true in H.
  - intros Hj1 Hj2. by rewrite bool_decide_false, bool_decide_true in H.
Qed.

(** The only exception of the loop is the AttributeError of
    [current.target.addr]. *)
Lemma patch_body_dangling i s :
  is_jump D (s.1 i) -> target (s.1 i) = None ->
  patch_opargs_body D i s = Raise AttributeError.
Proof.
  unfold patch_opargs_body, is_jump; cbv zeta. intros [Hop Hj] ->.
  rewrite bool_decide_false by lia.
  destruct Hj; repeat case_bool_decide; done.
Qed.

Lemma patch_body_exn i s :
  (∃ s', patch_opargs_body D i s = Ok s') ∨
  patch_opargs_body D i s = Raise AttributeError.
Proof.
  unfold patch_opargs_body; cbv zeta.
  repeat case_bool_decide; try destruct (target (s.1 i)); eauto.
Qed.

Lemma patch_loop_rel l s s' :
  run_list (patch_opargs_body D) l s = Ok s' ->
  ∀ j, same_but_oparg (s.1 j) (s'.1 j).
Proof.
  apply (run_list_rel same_but_oparg);
    eauto using same_but_oparg_refl, same_but_oparg_trans, patch_body_rel.
Qed.

Lemma patched_ext (h0 h h2 : Store) i :
  (∀ j, same_but_oparg (h0 j) (h j)) ->
  patched D h h h2 i -> patched D h0 h0 h2 i.
Proof.
  intros Hrel Hp. unfold patched in *.
  destruct (Hrel i) as (Ho & Ha & _ & _ & _ & Ht & _).
  rewrite Ho, Ha, Ht, (len_opcode _ _ Ho) in Hp.
  intros Hop. destruct (Hp Hop) as [H1 H2]. split.
  - intros Hj. destruct (H1 Hj) as (t & ? & Ho2). exists t. split; [done|].
    destruct (Hrel t) as (_ & <- & _). done.
  - intros Hj1 Hj2. destruct (H2 Hj1 Hj2) as (t & ? & Ho2). exists t.
    split; [done|]. destruct (Hrel t) as (_ & <- & _). done.
Qed.

Lemma patch_loop_spec l : ∀ s s',
  NoDup l -> run_list (patch_opargs_body D) l s = Ok s' ->
  ∀ i, i ∈ l -> patched D s.1 s.1 s'.1 i.
Proof.
  induction l as [|k r IH]; intros s s' Hnd; cbn [run_list].
  - intros _ i Hi. by apply elem_of_nil in Hi.
  - intros (s1 & E & Hrun)%bind_Ok i Hi.
    apply NoDup_cons in Hnd as [Hk Hnd].
    apply elem_of_cons in Hi as [->|Hi].
    + pose proof (patch_body_patched _ _ _ E) as Hp.
      pose proof (run_list_outside _ patch_body_outside _ _ _ Hrun k Hk) as Ho.
      unfold patched in *. by rewrite Ho.
    + eapply patched_ext; [eapply patch_body_rel, E|]. eapply IH; eauto.
Qed.

Lemma patch_loop_dangling l : ∀ s i,
  i ∈ l -> is_jump D (s.1 i) -> target (s.1 i) = None ->
  run_list (patch_opargs_body D) l s = Raise AttributeError.
Proof.
  induction l as [|k r IH]; intros s i Hi Hj Ht; cbn [run_list].
  - by apply elem_of_nil in Hi.
  - destruct (patch_body_exn k s) as [[s1 E]| ->]; [|done].
    rewrite E. cbn [mbind res_bind].
    apply elem_of_cons in Hi as [->|Hi].
    + by rewrite patch_body_dangling in E.
    + destruct (patch_body_rel _ _ _ E i) as (Ho & _ & _ & _ & _ & Ht' & _).
      apply (IH _ i); [done| |congruence].
      unfold is_jump in *. by rewrite Ho.
Qed.

(** *** The loops of [apply_labels] *)

Lemma same_but_links_refl b : same_but_links b b.
Proof. by unfold same_but_links. Qed.

Lemma same_but_links_trans a b c :
  same_but_links a b -> same_but_links b c -> same_but_links a c.
Proof. unfold same_but_links. intros ? ?. intuition congruence. Qed.

Lemma jump_label_links b b' :
  same_but_links b b' -> jump_label D b' = jump_label D b.
Proof.
  intros (Ho & Ha & Hg & _). unfold jump_label.
  by rewrite Ho, Ha, Hg, (len_opcode _ _ Ho).
Qed.

Lemma clear_loop_spec l : ∀ s : Store * unit,
  ∃ s', run_list apply_labels_clear l s = Ok s' ∧
    (∀ j, same_but_links (s.1 j) (s'.1 j)) ∧
    (∀ j, j ∈ l -> xrefs (s'.1 j) = [] ∧ target (s'.1 j) = None) ∧
    (∀ j, j ∉ l -> s'.1 j = s.1 j).
Proof.
  induction l as [|k r IH]; intros s; cbn [run_list].
  - exists s. split_and!; auto using same_but_links_refl.
    intros j Hj. by apply elem_of_nil in Hj.
  - unfold apply_labels_clear at 1. cbn [mbind res_bind].
    destruct (IH (upd (upd s.1 k (set_xrefs [])) k (set_target None), tt))
      as (s' & Hrun & Hrel & Hin & Hout).
    simpl in Hrel, Hout. exists s'. split_and!; [done| | |].
    + intros j. eapply same_but_links_trans; [|apply Hrel].
      unfold upd, same_but_links. by case_decide.
    + intros j [->|Hj]%elem_of_cons; [|by apply Hin].
      destruct (decide (k ∈ r)) as [Hk|Hk]; [by apply Hin|].
      rewrite (Hout _ Hk), !upd_eq. done.
    + intros j [Hjk Hjr]%not_elem_of_cons.
      rewrite (Hout _ Hjr), !upd_ne by done. done.
Qed.

Lemma link_links h c t j : same_but_links (h j) (link h c t j).
Proof.
  unfold link, upd, same_but_links.
  repeat (case_bool_decide || case_decide); simpl; done.
Qed.

Lemma link_target h c t r :
  target (link h c t r) = if decide (r = c) then Some t else target (h r).
Proof.
  unfold link, upd.
  repeat (case_bool_decide || case_decide); simpl; done.
Qed.

Lemma link_xrefs_elem h c t n r :
  r ∈ xrefs (link h c t n) ↔ r ∈ xrefs (h n) ∨ (n = t ∧ r = c).
Proof.
  unfold link, upd.
  repeat (case_bool_decide || case_decide); simpl; subst;
    rewrite ?elem_of_app, ?list_elem_of_singleton; intuition congruence.
Qed.

Lemma link_xrefs_NoDup h c t n :
  NoDup (xrefs (h n)) -> NoDup (xrefs (link h c t n)).
Proof.
  unfold link, upd.
  repeat (case_bool_decide || case_decide); simpl; subst; try done;
    intros Hnd; apply NoDup_app; split_and!; try done;
    try apply NoDup_singleton; intros x Hx ?%list_elem_of_singleton; by subst.
Qed.

(** What one turn of the second loop does: nothing, or [link]. *)
Lemma apply_labels_body_cases bcs c (s s' : Store * unit) :
  apply_labels_body D bcs c s = Ok s' ->
  (s' = s ∧ ∀ lab, HAVE_ARGUMENT D <= opcode (s.1 c) ->
             jump_label D (s.1 c) = Ok (Some lab) -> ¬ 0 <= lab) ∨
  (∃ lab t, HAVE_ARGUMENT D <= opcode (s.1 c) ∧
            jump_label D (s.1 c) = Ok (Some lab) ∧ 0 <= lab ∧
            bcs !! lab = Some t ∧ s' = (link s.1 c t, tt)).
Proof.
  unfold apply_labels_body; cbv zeta. case_bool_decide as Hop.
  - intros (lbl & Hl & H)%bind_Ok. rewrite Hl. destruct lbl as [lab|].
    + case_bool_decide as Hlab.
      * apply bind_Ok in H as (t & Ht & H). right. exists lab, t.
        unfold getitem in Ht. destruct (bcs !! lab) eqn:E; simplify_eq. done.
      * left. simplify_eq. split; [done|]. intros ? _ [= <-]. done.
    + left. simplify_eq. split; [done|]. intros ? _ [=].
  - intros [= <-]. left. split; [done|]. intros ? ?. lia.
Qed.

Lemma apply_labels_body_rel bcs c s s' :
  apply_labels_body D bcs c s = Ok s' -> ∀ j, same_but_links (s.1 j) (s'.1 j).
Proof.
  intros [[-> _]|(lab & t & _ & _ & _ & _ & ->)]%apply_labels_body_cases j.
  - apply same_but_links_refl.
  - apply link_links.
Qed.

Lemma apply_labels_body_next bcs c s s' :
  apply_labels_body D bcs c s = Ok s' -> ∀ j, next (s'.1 j) = next (s.1 j).
Proof.
  intros H j. by destruct (apply_labels_body_rel _ _ _ _ H j) as (_&_&_&_&?&_).
Qed.

Lemma apply_labels_body_target bcs c s s' :
  apply_labels_body D bcs c s = Ok s' ->
  ∀ j, j ≠ c -> target (s'.1 j) = target (s.1 j).
Proof.
  intros [[-> _]|(lab & t & _ & _ & _ & _ & ->)]%apply_labels_body_cases j Hj.
  - done.
  - simpl. rewrite link_target. by rewrite decide_False.
Qed.

Lemma apply_labels_loop_rel bcs l s s' :
  run_list (apply_labels_body D bcs) l s = Ok s' ->
  ∀ j, same_but_links (s.1 j) (s'.1 j).
Proof.
  apply (run_list_rel same_but_links);
    eauto using same_but_links_refl, same_but_links_trans,
                apply_labels_body_rel.
Qed.

Lemma apply_labels_loop_target bcs l s s' :
  run_list (apply_labels_body D bcs) l s = Ok s' ->
  ∀ j, j ∉ l -> target (s'.1 j) = target (s.1 j).
Proof.
  intros Hrun j Hj. symmetry.
  apply (run_list_outside_rel (fun b b' => target b = target b')
           (apply_labels_body D bcs)) with (l := l); auto.
  - intros. congruence.
  - intros. symmetry. eapply apply_labels_body_target; eauto.
Qed.

(** One turn of the second loop keeps the invariant. *)
Lemma xref_inv_step bcs l p c (s s' : Store * unit) :
  xref_inv l p s.1 -> c ∈ l -> c ∉ p ->
  apply_labels_body D bcs c s = Ok s' ->
  xref_inv l (p ++ [c]) s'.1.
Proof.
  intros (Ha & Ha' & Hb & Hc) Hcl Hcp
    [[-> _]|(lab & t & _ & _ & _ & _ & ->)]%apply_labels_body_cases.
  - split_and!.
    + intros n r Hn Hr. destruct (Ha n r Hn Hr). split; [|done].
      apply elem_of_app. by left.
    + intros n r [Hr| ->%list_elem_of_singleton]%elem_of_app Ht.
      * by apply Ha'.
      * rewrite (Hc c) in Ht; done.
    + done.
    + intros r Hr Hrp. apply Hc; [done|]. intros ?. apply Hrp.
      apply elem_of_app. by left.
  - simpl. split_and!.
    + intros n r Hn. rewrite link_xrefs_elem, link_target.
      intros [Hr|[-> ->]].
      * destruct (Ha n r Hn Hr) as [Hrp Ht].
        rewrite decide_False by (by intros ->).
        split; [|done]. apply elem_of_app. by left.
      * rewrite decide_True by done. split; [|done].
        apply elem_of_app. right. by apply list_elem_of_singleton.
    + intros n r Hr. rewrite link_xrefs_elem, link_target.
      case_decide as Hrc.
      * intros [= <-]. by right.
      * apply elem_of_app in Hr as [Hr|Hr%list_elem_of_singleton]; [|done].
        intros Ht. left. by apply Ha'.
    + intros n Hn. apply link_xrefs_NoDup. by apply Hb.
    + intros r Hr Hrp. rewrite link_target.
      assert (r ≠ c ∧ r ∉ p) as [? ?].
      { split; intros ?; apply Hrp, elem_of_app; [right|by left].
        by apply list_elem_of_singleton. }
      rewrite decide_False by done. by apply Hc.
Qed.

Lemma xref_inv_loop bcs l q : ∀ p (s s' : Store * unit),
  xref_inv l p s.1 -> NoDup (p ++ q) -> (∀ c, c ∈ q -> c ∈ l) ->
  run_list (apply_labels_body D bcs) q s = Ok s' ->
  xref_inv l (p ++ q) s'.1.
Proof.
  induction q as [|c r IH]; intros p s s' Hinv Hnd Hsub; cbn [run_list].
  - intros [= <-]. by rewrite app_nil_r.
  - intros (s1 & E & Hrun)%bind_Ok.
    replace (p ++ c :: r) with ((p ++ [c]) ++ r) in * by (by rewrite <- app_assoc).
    apply (IH _ s1); [|done| |done].
    + eapply xref_inv_step; eauto.
      * apply Hsub. by left.
      * intros Hcp. apply NoDup_app in Hnd as (Hnd & _ & _).
        apply NoDup_app in Hnd as (_ & Hd & _).
        apply (Hd c Hcp). by left.
    + intros x Hx. apply Hsub. by right.
Qed.

(** The target each visited jump ends with is the node the dictionary
    holds at its label. *)
Lemma apply_labels_loop_resolved bcs l : ∀ (s s' : Store * unit),
  NoDup l -> run_list (apply_labels_body D bcs) l s = Ok s' ->
  ∀ i lab, i ∈ l -> HAVE_ARGUMENT D <= opcode (s.1 i) ->
    jump_label D (s.1 i) = Ok (Some lab) -> 0 <= lab ->
    ∃ t, bcs !! lab = Some t ∧ target (s'.1 i) = Some t.
Proof.
  induction l as [|k r IH]; intros s s' Hnd; cbn [run_list].
  - intros _ i lab Hi. by apply elem_of_nil in Hi.
  - intros (s1 & E & Hrun)%bind_Ok i lab Hi Hop Hl Hlab.
    apply NoDup_cons in Hnd as [Hk Hnd].
    apply elem_of_cons in Hi as [->|Hi].
    + rewrite (apply_labels_loop_target _ _ _ _ Hrun k Hk).
      apply apply_labels_body_cases in E
        as [[-> Hno]|(lab' & t & _ & Hl' & _ & Ht & ->)].
      * by destruct (Hno lab Hop Hl).
      * rewrite Hl in Hl'. simplify_eq. exists t. split; [done|].
        simpl. rewrite link_target. by rewrite decide_True.
    + pose proof (apply_labels_body_rel _ _ _ _ E i) as Hrel.
      apply (IH s1 s' Hnd Hrun i lab Hi).
      * destruct Hrel as (-> & _). done.
      * by rewrite (jump_label_links _ _ Hrel).
      * done.
Qed.

(** *** The methods as wholes *)

Lemma apply_labels_clear_next i s s' :
  apply_labels_clear i s = Ok s' -> ∀ j, next (s'.1 j) = next (s.1 j).
Proof.
  unfold apply_labels_clear. intros [= <-] j. simpl. unfold upd.
  by repeat case_decide.
Qed.

Lemma apply_labels_spec fuel g start g' l :
  nodes fuel g start = Some l ->
  apply_labels D fuel g start = Ok g' ->
  g' = with_store g (store g') ∧
  (∀ j, same_but_links (store g j) (store g' j)) ∧
  xref_inv l l (store g') ∧
  (∀ i lab, i ∈ l -> HAVE_ARGUMENT D <= opcode (store g i) ->
     jump_label D (store g i) = Ok (Some lab) -> 0 <= lab ->
     ∃ t, bytecodes g !! lab = Some t ∧ target (store g' i) = Some t).
Proof.
  unfold nodes, apply_labels. intros Hn (s1 & E1 & (s2 & E2 & [= <-])%bind_Ok)%bind_Ok.
  pose proof (nodes_from_NoDup _ _ _ _ Hn) as Hnd.
  rewrite (for_nodes_run_list _ apply_labels_clear_next _ _ _ l) in E1 by done.
  destruct (clear_loop_spec l (store g, tt)) as (s1' & E1' & Hrel1 & Hin & Hout).
  rewrite E1 in E1'. simplify_eq. simpl in Hrel1, Hout.
  assert (Hn1 : nodes_from fuel s1'.1 (start_of g start) = Some l).
  { rewrite <- Hn. apply nodes_from_ext. intros j.
    by destruct (Hrel1 j) as (_&_&_&_&?&_). }
  rewrite (for_nodes_run_list _ (apply_labels_body_next (bytecodes g)) _ _ _ l)
    in E2 by done.
  pose proof (apply_labels_loop_rel _ _ _ _ E2) as Hrel2.
  simpl. split_and!.
  - done.
  - intros j. eapply same_but_links_trans; eauto.
  - apply (xref_inv_loop (bytecodes g) l l [] s1' s2); auto.
    split_and!.
    + intros n r Hn' Hr. destruct (Hin n Hn') as [Hx _]. rewrite Hx in Hr.
      by apply elem_of_nil in Hr.
    + intros n r Hr. by apply elem_of_nil in Hr.
    + intros n Hn'. destruct (Hin n Hn') as [-> _]. constructor.
    + intros r Hr _. by destruct (Hin r Hr).
  - intros i lab Hi Hop Hl Hlab.
    apply (apply_labels_loop_resolved _ _ _ _ Hnd E2 i lab Hi); [| |done].
    + destruct (Hrel1 i) as (-> & _). done.
    + by rewrite (jump_label_links _ _ (Hrel1 i)).
Qed.

Lemma patch_opargs_spec fuel g g' l :
  nodes fuel g None = Some l ->
  patch_opargs D fuel g None = Ok g' ->
  g' = with_store g (store g') ∧
  (∀ j, same_but_oparg (store g j) (store g' j)) ∧
  (∀ i, i ∈ l -> patched D (store g) (store g) (store g') i).
Proof.
  unfold nodes, patch_opargs. intros Hn (s1 & E1 & [= <-])%bind_Ok.
  rewrite (for_nodes_run_list _ patch_body_next _ _ _ l) in E1 by done.
  simpl. split_and!; [done| |].
  - apply (patch_loop_rel _ _ _ E1).
  - apply (patch_loop_spec _ _ _ (nodes_from_NoDup _ _ _ _ Hn) E1).
Qed.

Lemma contiguous_adjacent h a l k i j :
  contiguous D h a l -> l !! k = Some i -> l !! S k = Some j ->
  addr (h j) = addr (h i) + len D (h i).
Proof.
  revert a k. induction l as [|x r IH]; intros a k; [done|].
  simpl. intros [Hx Hr]. destruct k as [|k]; simpl.
  - intros [= ->]. destruct r as [|y r']; [done|]. simpl.
    intros [= ->]. destruct Hr as [-> _]. lia.
  - apply (IH _ _ Hr).
Qed.

Lemma jump_label_patched (h : Store) i t :
  is_jump D (h i) ->
  (opcode (h i) ∈ hasjrel D ->
     oparg (h i) = Some (addr (h t) - (addr (h i) + len D (h i)))) ->
  (opcode (h i) ∉ hasjrel D -> oparg (h i) = Some (addr (h t))) ->
  jump_label D (h i) = Ok (Some (addr (h t))).
Proof.
  intros [Hop Hj] H1 H2. unfold jump_label.
  case_bool_decide as Hr.
  - rewrite (H1 Hr). do 2 f_equal. lia.
  - destruct Hj as [?|Ha]; [done|]. rewrite bool_decide_true by done.
    by rewrite (H2 Hr).
Qed.

(** [refactor], step by step: [h1] is the store after the addresses are
    assigned, [h2] the store after [patch_opargs]. *)
Lemma refactor_spec fuel g g' l :
  nodes fuel g None = Some l ->
  refactor D fuel g = Ok g' ->
  ∃ h1 h2,
    base g' = base g ∧ head g' = head g ∧ code g' = code g ∧
    (∀ j, same_but_addr (store g j) (h1 j)) ∧
    (∀ j, same_but_oparg (h1 j) (h2 j)) ∧
    (∀ j, same_but_links (h2 j) (store g' j)) ∧
    contiguous D h1 (base g) l ∧
    (∀ i, i ∈ l -> bytecodes g' !! addr (h1 i) = Some i) ∧
    (∀ i, i ∈ l -> patched D h1 h1 h2 i) ∧
    xref_inv l l (store g') ∧
    (∀ i lab, i ∈ l -> HAVE_ARGUMENT D <= opcode (h2 i) ->
       jump_label D (h2 i) = Ok (Some lab) -> 0 <= lab ->
       ∃ t, bytecodes g' !! lab = Some t ∧ target (store g' i) = Some t).
Proof.
  unfold nodes, refactor. cbn [start_of].
  intros Hn (s1 & E1 & (g2 & E2 & E3)%bind_Ok)%bind_Ok.
  pose proof (nodes_from_NoDup _ _ _ _ Hn) as Hnd.
  rewrite (for_nodes_run_list _ refactor_body_next _ _ _ l) in E1 by done.
  pose proof (refactor_loop_rel _ _ _ E1) as Hrel1. simpl in Hrel1.
  destruct s1 as [h1 [off m1]].
  destruct (refactor_loop_spec _ _ _ _ _ Hnd E1) as (Hc & Hm & _).
  simpl in *.
  assert (Hn1 : nodes fuel (mkGraph (base g) (code g) (head g) m1 h1 (fresh g))
                  None = Some l).
  { unfold nodes. simpl. rewrite <- Hn. apply nodes_from_ext.
    intros j. by destruct (Hrel1 j) as (_&_&_&?&_). }
  destruct (patch_opargs_spec _ _ _ _ Hn1 E2) as (Hg2 & Hrel2 & Hp).
  simpl in *.
  assert (Hn2 : nodes fuel g2 None = Some l).
  { rewrite Hg2. unfold nodes. simpl. rewrite <- Hn1. unfold nodes. simpl.
    apply nodes_from_ext. intros j. by destruct (Hrel2 j) as (_&_&_&?&_). }
  destruct (apply_labels_spec _ _ _ _ _ Hn2 E3) as (Hg' & Hrel3 & Hinv & Hres).
  exists h1, (store g2). rewrite Hg', Hg2. simpl. split_and!; try done.
  rewrite Hg2 in Hres. simpl in Hres. done.
Qed.

(** *** [delete_node] *)

Lemma redirect_links node h x j : same_but_links (h j) (redirect node h x j).
Proof.
  unfold redirect; cbv zeta.
  destruct (next (upd h x (set_target (next (h node))) node));
    unfold upd, same_but_links; repeat case_decide; simpl; done.
Qed.

Lemma redirect_target node h x j :
  target (redirect node h x j) =
  if decide (j = x) then next (h node) else target (h j).
Proof.
  unfold redirect; cbv zeta.
  destruct (next (upd h x (set_target (next (h node))) node));
    unfold upd; repeat case_decide; simpl; congruence.
Qed.

Lemma redirect_xrefs node h x j :
  xrefs (redirect node h x j) =
  if bool_decide (next (h node) = Some j) then xrefs (h j) ++ [x]
  else xrefs (h j).
Proof.
  unfold redirect; cbv zeta.
  assert (Hn : next (upd h x (set_target (next (h node))) node)
               = next (h node)).
  { unfold upd. by case_decide. }
  rewrite Hn. destruct (next (h node)) as [m|].
  - case_bool_decide; simplify_eq.
    + rewrite upd_eq. simpl. unfold upd. by case_decide.
    + rewrite upd_ne by congruence. unfold upd. by case_decide.
  - rewrite bool_decide_false by done. unfold upd. by case_decide.
Qed.

Lemma redirect_fold node xs : ∀ h : Store,
  let h' := foldl (redirect node) h xs in
  (∀ j, same_but_links (h j) (h' j)) ∧
  (∀ j, target (h' j) =
        if bool_decide (j ∈ xs) then next (h node) else target (h j)) ∧
  (∀ j, xrefs (h' j) =
        if bool_decide (next (h node) = Some j) then xrefs (h j) ++ xs
        else xrefs (h j)).
Proof.
  induction xs as [|x r IH]; intros h; cbn [foldl].
  - cbv zeta. split_and!; auto using same_but_links_refl.
    intros j. case_bool_decide; by rewrite ?app_nil_r.
  - destruct (IH (redirect node h x)) as (Hrel & Ht & Hx). cbv zeta.
    destruct (redirect_links node h x node) as (_&_&_&_&Hn&_).
    split_and!.
    + intros j. eapply same_but_links_trans; [apply redirect_links|apply Hrel].
    + intros j. rewrite Ht, Hn, redirect_target.
      destruct (decide (j = x)) as [->|Hjx].
      * rewrite (bool_decide_true (x ∈ x :: r)) by left. by case_bool_decide.
      * assert (bool_decide (j ∈ x :: r) = bool_decide (j ∈ r)) as ->; [|done].
        apply bool_decide_ext. rewrite elem_of_cons. intuition congruence.
    + intros j. rewrite Hx, Hn, redirect_xrefs.
      case_bool_decide; [|done]. by rewrite <- app_assoc.
Qed.

Lemma delete_node_spec g n g' :
  delete_node g n = Ok g' ->
  base g' = base g ∧ code g' = code g ∧
  head g' = (if bool_decide (Some n = head g) then next (store g n)
             else head g) ∧
  bytecodes g' = delete (addr (store g n)) (bytecodes g) ∧
  (∀ j, opcode (store g' j) = opcode (store g j) ∧
        addr (store g' j) = addr (store g j) ∧
        oparg (store g' j) = oparg (store g j) ∧
        node_co_lnotab (store g' j) = node_co_lnotab (store g j)) ∧
  (∀ j, target (store g' j) =
        if bool_decide (j ∈ xrefs (store g n)) then next (store g n)
        else target (store g j)) ∧
  (∀ j, xrefs (store g' j) =
        if bool_decide (next (store g n) = Some j)
        then xrefs (store g j) ++ xrefs (store g n)
        else xrefs (store g j)) ∧
  (∀ j, next (store g' j) =
        if bool_decide (prev (store g n) = Some j) then next (store g n)
        else next (store g j)) ∧
  (∀ j, prev (store g' j) =
        if bool_decide (next (store g n) = Some j) then prev (store g n)
        else prev (store g j)).
Proof.
  unfold delete_node; cbv zeta. case_bool_decide as Hloop; [done|].
  destruct (redirect_fold n (xrefs (store g n)) (store g))
    as (Hrel & Ht & Hx).
  cbv zeta in Hrel, Ht, Hx.
  set (h1 := foldl (redirect n) (store g) (xrefs (store g n))) in *.
  destruct (Hrel n) as (_ & Han & _ & Hpn & Hnn & _).
  rewrite Hpn.
  set (h2 := match prev (store g n) with
             | Some p => upd h1 p (set_next (next (h1 n)))
             | None => h1
             end).
  assert (H2 : ∀ j, next (h2 j) =
                    (if bool_decide (prev (store g n) = Some j)
                     then next (store g n) else next (store g j)) ∧
                    prev (h2 j) = prev (store g j) ∧
                    opcode (h2 j) = opcode (store g j) ∧
                    addr (h2 j) = addr (store g j) ∧
                    oparg (h2 j) = oparg (store g j) ∧
                    node_co_lnotab (h2 j) = node_co_lnotab (store g j) ∧
                    target (h2 j) = target (h1 j) ∧
                    xrefs (h2 j) = xrefs (h1 j)).
  { intros j. destruct (Hrel j) as (? & ? & ? & ? & ? & ?).
    subst h2. destruct (prev (store g n)) as [p|].
    - unfold upd. case_decide; case_bool_decide; simplify_eq; simpl;
        rewrite ?Hnn; done.
    - rewrite bool_decide_false by done. done. }
  assert (Hn2 : next (h2 n) = next (store g n)).
  { destruct (H2 n) as [-> _]. by case_bool_decide. }
  rewrite Hn2. destruct (H2 n) as (_ & Hp2 & _). rewrite Hp2.
  set (h3 := match next (store g n) with
             | Some m => upd h2 m (set_prev (prev (store g n)))
             | None => h2
             end).
  assert (H3 : ∀ j, prev (h3 j) =
                    (if bool_decide (next (store g n) = Some j)
                     then prev (store g n) else prev (store g j)) ∧
                    next (h3 j) = next (h2 j) ∧
                    opcode (h3 j) = opcode (store g j) ∧
                    addr (h3 j) = addr (store g j) ∧
                    oparg (h3 j) = oparg (store g j) ∧
                    node_co_lnotab (h3 j) = node_co_lnotab (store g j) ∧
                    target (h3 j) = target (h1 j) ∧
                    xrefs (h3 j) = xrefs (h1 j)).
  { intros j. destruct (H2 j) as (_ & ? & ? & ? & ? & ? & ? & ?).
    subst h3. destruct (next (store g n)) as [m|].
    - unfold upd. case_decide; case_bool_decide; simplify_eq; simpl; done.
    - rewrite bool_decide_false by done. done. }
  destruct (H3 n) as (_ & Hn3 & _ & Ha3 & _). rewrite Hn3, Hn2, Ha3.
  intros (bcs & Hdel & [= <-])%bind_Ok. simpl.
  unfold delitem in Hdel.
  destruct (bytecodes g !! addr (store g n)); simplify_eq.
  split_and!; try done.
  - intros j. by destruct (H3 j) as (_ & _ & ? & ? & ? & ? & _).
  - intros j. rewrite <- Ht. by destruct (H3 j) as (_&_&_&_&_&_&?&_).
  - intros j. rewrite <- Hx. by destruct (H3 j) as (_&_&_&_&_&_&_&?).
  - intros j. destruct (H3 j) as (_ & -> & _). by destruct (H2 j) as (? & _).
  - intros j. by destruct (H3 j) as (? & _).
Qed.

Lemma chain_delete (h h' : Store) p nx l1 n l2 : ∀ cur,
  chain h cur (l1 ++ n :: l2) -> NoDup (l1 ++ n :: l2) ->
  p = last l1 -> nx = next (h n) ->
  (∀ j, next (h' j) = if bool_decide (p = Some j) then nx else next (h j)) ->
  chain h' (match l1 with [] => nx | _ => cur end) (l1 ++ l2).
Proof.
  induction l1 as [|a r IH]; intros cur Hc Hnd Hp Hnx Hn'.
  - simpl in *. destruct Hc as [_ Hc]. subst.
    eapply chain_ext; [|exact Hc]. intros j _. by rewrite Hn'.
  - simpl in Hc. destruct Hc as [-> Hc]. simpl. split; [done|].
    apply NoDup_cons in Hnd as [Ha Hnd].
    destruct r as [|b r'].
    + simpl in *. subst p. rewrite Hn', bool_decide_true by done.
      destruct Hc as [_ Hc]. subst nx.
      eapply chain_ext; [|exact Hc]. intros j Hj.
      rewrite Hn', bool_decide_false; [done|].
      intros [= ->]. apply Ha. by right.
    + assert (Hpa : p ≠ Some a).
      { intros ->. symmetry in Hp. rewrite last_cons_cons in Hp.
        apply last_Some in Hp as [l' Hl'].
        apply Ha. change (a ∈ (b :: r') ++ n :: l2). rewrite Hl'.
        apply elem_of_app. left. apply elem_of_app. right. by left. }
      rewrite Hn', bool_decide_false by done.
      apply (IH (next (h a)) Hc Hnd); [|done|done].
      by rewrite Hp, last_cons_cons.
Qed.

Lemma nodes_from_length fuel h cur l :
  nodes_from fuel h cur = Some l -> (length l <= fuel)%nat.
Proof.
  revert cur l. induction fuel as [|f IH]; intros [i|] l; simpl; try done.
  - intros [= <-]. simpl. lia.
  - destruct (nodes_from f h (next (h i))) as [r|] eqn:E; [|done].
    simpl. intros [= <-]. simpl. apply IH in E. lia.
  - intros [= <-]. simpl. lia.
Qed.

(** The list after a deletion, when [n.prev] is the node before [n]. *)
Lemma delete_node_nodes fuel g n g' l1 l2 :
  nodes fuel g None = Some (l1 ++ n :: l2) ->
  prev (store g n) = last l1 ->
  delete_node g n = Ok g' ->
  nodes fuel g' None = Some (l1 ++ l2) ∧ n ∉ l1 ++ l2.
Proof.
  unfold nodes. cbn [start_of]. intros Hn Hp Hdel.
  pose proof (nodes_from_chain _ _ _ _ Hn) as Hc.
  pose proof (chain_NoDup _ _ _ Hc) as Hnd.
  pose proof (nodes_from_length _ _ _ _ Hn) as Hlen.
  destruct (delete_node_spec _ _ _ Hdel)
    as (_ & _ & Hhd & _ & _ & _ & _ & Hnx & _).
  pose proof (chain_delete (store g) (store g') _ _ l1 n l2 (head g)
                Hc Hnd Hp eq_refl Hnx) as Hc'.
  split.
  - apply chain_nodes_from.
    + rewrite Hhd. destruct l1 as [|a r]; simpl in Hc.
      * destruct Hc as [-> _]. by rewrite bool_decide_true.
      * destruct Hc as [Hh _]. rewrite bool_decide_false; [done|].
        rewrite Hh. intros [= ->]. apply NoDup_cons in Hnd as [Ha _]. apply Ha.
        apply elem_of_app. right. by left.
    + rewrite length_app in *. simpl in Hlen. lia.
  - apply NoDup_app in Hnd as (_ & H1 & H2).
    apply NoDup_cons in H2 as [H2 _].
    intros [Hin|Hin]%elem_of_app; [|done]. apply (H1 n Hin). by left.
Qed.

(** A jump whose target is a node of the list keeps that target through
    [refactor], and is in the cross-references of it. *)
Lemma refactor_keeps_targets fuel g g' l i t :
  nodes fuel g None = Some l -> refactor D fuel g = Ok g' ->
  0 <= base g -> i ∈ l -> t ∈ l ->
  is_jump D (store g i) -> target (store g i) = Some t ->
  target (store g' i) = Some t ∧ i ∈ xrefs (store g' t).
Proof.
  intros Hn Hr Hb Hi Ht Hj Htg.
  pose proof (nodes_from_NoDup _ _ _ _ Hn) as Hnd.
  destruct (refactor_spec _ _ _ _ Hn Hr)
    as (h1 & h2 & _ & _ & _ & R1 & R2 & R3 & Hc & Hm & Hp & Hinv & Hres).
  destruct (R1 i) as (Ho1 & _ & _ & _ & _ & Ht1 & _).
  destruct (R2 i) as (Ho2 & Ha2 & _ & _ & _ & Ht2 & _).
  assert (Hj2 : is_jump D (h2 i)).
  { unfold is_jump in *. by rewrite Ho2, Ho1. }
  assert (Hl : jump_label D (h2 i) = Ok (Some (addr (h2 t)))).
  { destruct Hj2 as [Hop2 Hjj].
    assert (Hop1 : HAVE_ARGUMENT D <= opcode (h1 i)) by (by rewrite <- Ho2).
    destruct (Hp i Hi Hop1) as [P1 P2].
    destruct (R2 t) as (_ & Hat & _).
    apply jump_label_patched; [done| |].
    - rewrite Ho2. intros Hin. destruct (P1 Hin) as (t' & Ht' & ->).
      rewrite Ht1, Htg in Ht'. simplify_eq.
      by rewrite Hat, Ha2, (len_opcode _ _ Ho2).
    - rewrite Ho2. intros Hnin. destruct Hjj as [?|Habs]; [by rewrite Ho2 in *|].
      rewrite Ho2 in Habs. destruct (P2 Hnin Habs) as (t' & Ht' & ->).
      rewrite Ht1, Htg in Ht'. simplify_eq. by rewrite Hat. }
  destruct (R2 t) as (_ & Hat & _).
  destruct (Hres i (addr (h2 t)) Hi (proj1 Hj2) Hl) as (t' & Hlk & Htg').
  { rewrite Hat. pose proof (contiguous_lower _ _ _ _ Hc Ht). lia. }
  rewrite Hat, (Hm t Ht) in Hlk. simplify_eq.
  split; [done|]. destruct Hinv as (_ & Hx & _). by apply Hx.
Qed.

(** *** The loops of [calc_lnotab] and [get_code] *)

Lemma calc_lnotab_body_store i s s' :
  calc_lnotab_body i s = Ok s' -> s'.1 = s.1.
Proof.
  unfold calc_lnotab_body; cbv zeta. case_bool_decide; [by intros [= <-]|].
  destruct (node_co_lnotab (s.1 i)); [|done].
  intros (b1 & _ & (b2 & _ & [= <-])%bind_Ok)%bind_Ok. done.
Qed.

Lemma calc_lnotab_body_next i s s' :
  calc_lnotab_body i s = Ok s' -> ∀ j, next (s'.1 j) = next (s.1 j).
Proof. intros H j. by rewrite (calc_lnotab_body_store _ _ _ H). Qed.

Lemma land_255 v : 0 <= v <= 255 -> Z.land v 255 = v.
Proof.
  intros Hv. change 255 with (Z.ones 8). rewrite Z.land_ones by lia.
  apply Z.mod_small. lia.
Qed.

Lemma clamp_byte_id v : 0 <= v <= 255 -> clamp_byte v = v.
Proof. unfold clamp_byte. lia. Qed.

Lemma calc_lnotab_body_same i (h : Store) v :
  node_co_lnotab (h i) = Some (prev_lineno v) ->
  calc_lnotab_body i (h, v) = Ok (h, v).
Proof.
  intros Hln. unfold calc_lnotab_body; cbv zeta. cbn [fst snd].
  by rewrite bool_decide_true.
Qed.

Lemma calc_lnotab_body_emit i (h : Store) v ln :
  node_co_lnotab (h i) = Some ln -> ln ≠ prev_lineno v ->
  0 <= addr (h i) - prev_offset v <= 255 ->
  0 <= ln - prev_lineno v <= 255 ->
  calc_lnotab_body i (h, v) =
  Ok (h, mkLnotabVars
           (rvalue v ++ [addr (h i) - prev_offset v] ++ [ln - prev_lineno v])
           ln (addr (h i))).
Proof.
  intros Hln Hne Hb Hd. unfold calc_lnotab_body; cbv zeta. cbn [fst snd].
  rewrite Hln, bool_decide_false by congruence.
  unfold pack_B. rewrite (land_255 _ Hd), !bool_decide_true by done. done.
Qed.

(** A byte delta out of 0..255 is not clamped: [struct.pack] raises. *)
Lemma calc_lnotab_body_overflow i (h : Store) v ln :
  node_co_lnotab (h i) = Some ln -> ln ≠ prev_lineno v ->
  ¬ 0 <= addr (h i) - prev_offset v <= 255 ->
  calc_lnotab_body i (h, v) = Raise StructError.
Proof.
  intros Hln Hne Hb. unfold calc_lnotab_body; cbv zeta. cbn [fst snd].
  rewrite Hln, bool_decide_false by congruence.
  unfold pack_B. rewrite (bool_decide_false _ Hb). reflexivity.
Qed.

Lemma land_255_range v : 0 <= Z.land v 255 <= 255.
Proof.
  assert (Z.land v 255 = v mod 256) as ->.
  { change 255 with (Z.ones 8). by rewrite Z.land_ones. }
  pose proof (Z.mod_pos_bound v 256). lia.
Qed.

Lemma calc_lnotab_body_masked i (h : Store) v ln :
  node_co_lnotab (h i) = Some ln -> ln ≠ prev_lineno v ->
  0 <= addr (h i) - prev_offset v <= 255 ->
  calc_lnotab_body i (h, v) =
  Ok (h, mkLnotabVars
           (rvalue v ++ [addr (h i) - prev_offset v]
                     ++ [Z.land (ln - prev_lineno v) 255])
           ln (addr (h i))).
Proof.
  intros Hln Hne Hb. unfold calc_lnotab_body; cbv zeta. cbn [fst snd].
  rewrite Hln, bool_decide_false by congruence.
  unfold pack_B. rewrite (bool_decide_true _ Hb).
  rewrite (bool_decide_true _ (land_255_range _)). done.
Qed.

Lemma calc_lnotab_loop_overflow l : ∀ xs (h : Store) v,
  node_lines h l xs ->
  byte_delta_overflows (prev_lineno v) (prev_offset v) xs ->
  run_list calc_lnotab_body l (h, v) = Raise StructError.
Proof.
  induction l as [|i r IH]; intros xs h v Hl Hov.
  - apply Forall2_nil_inv_l in Hl as ->. done.
  - apply Forall2_cons_inv_l in Hl as ([a ln] & xs' & [Ha Hln] & Hl & ->).
    simpl in Ha, Hln. cbn [run_list byte_delta_overflows] in *.
    case_bool_decide as Heq.
    + subst ln. rewrite calc_lnotab_body_same by done.
      cbn [mbind res_bind]. by apply (IH xs').
    + subst a. destruct Hov as [Hb|[Hb Hov]].
      * by rewrite (calc_lnotab_body_overflow _ _ _ ln).
      * rewrite (calc_lnotab_body_masked _ _ _ ln) by done.
        cbn [mbind res_bind]. by apply (IH xs').
Qed.

Lemma calc_lnotab_loop l : ∀ xs (h : Store) v,
  node_lines h l xs ->
  deltas_fit (prev_lineno v) (prev_offset v) xs ->
  ∃ v', run_list calc_lnotab_body l (h, v) = Ok (h, v') ∧
        rvalue v' = rvalue v
                    ++ lnotab_claimed (prev_lineno v) (prev_offset v) xs.
Proof.
  induction l as [|i r IH]; intros xs h v Hl Hfit.
  - apply Forall2_nil_inv_l in Hl as ->. exists v. simpl.
    by rewrite app_nil_r.
  - apply Forall2_cons_inv_l in Hl as ([a ln] & xs' & [Ha Hln] & Hl & ->).
    simpl in Ha, Hln. cbn [run_list lnotab_claimed deltas_fit] in *.
    case_bool_decide as Heq.
    + subst ln. rewrite calc_lnotab_body_same by done.
      cbn [mbind res_bind]. by apply IH.
    + destruct Hfit as [[Hb Hd] Hfit]. subst a.
      rewrite (calc_lnotab_body_emit _ _ _ ln) by done.
      cbn [mbind res_bind].
      destruct (IH xs' h (mkLnotabVars
                  (rvalue v ++ [addr (h i) - prev_offset v]
                            ++ [ln - prev_lineno v]) ln (addr (h i)))
                  Hl Hfit) as (v' & Hrun & Hrv).
      exists v'. split; [done|]. rewrite Hrv. simpl.
      rewrite !clamp_byte_id by done. by rewrite <- app_assoc.
Qed.

Lemma get_code_body_store i s s' :
  get_code_body D i s = Ok s' -> s'.1 = s.1.
Proof. unfold get_code_body. by intros (b & _ & [= <-])%bind_Ok. Qed.

Lemma get_code_body_next i s s' :
  get_code_body D i s = Ok s' -> ∀ j, next (s'.1 j) = next (s.1 j).
Proof. intros H j. by rewrite (get_code_body_store _ _ _ H). Qed.

Lemma get_code_loop l : ∀ (h : Store) acc s',
  run_list (get_code_body D) l (h, acc) = Ok s' ->
  ∃ bss, Forall2 (fun i bs => bin D (h i) = Ok bs) l bss ∧
         s' = (h, acc ++ concat bss).
Proof.
  induction l as [|i r IH]; intros h acc s'; cbn [run_list].
  - intros [= <-]. exists []. split; [constructor|]. by rewrite app_nil_r.
  - intros (s1 & Hs1 & Hrun)%bind_Ok. unfold get_code_body in Hs1.
    apply bind_Ok in Hs1 as (b & Hb & [= <-]). cbn [fst snd] in *.
    destruct (IH _ _ _ Hrun) as (bss & Hall & ->).
    exists (b :: bss). split; [by constructor|]. simpl.
    by rewrite <- app_assoc.
Qed.

Lemma from_res_Ok r : is_Ok r = true -> r = Ok (from_res r).
Proof. by destruct r. Qed.

Lemma refactor_Ok_nodes fuel g g' :
  refactor D fuel g = Ok g' -> ∃ l, nodes fuel g None = Some l.
Proof.
  unfold refactor, nodes. cbn [start_of]. intros (s1 & E1 & _)%bind_Ok.
  apply (for_nodes_Ok_nodes _ refactor_body_next _ _ _ _ E1).
Qed.

(** What [refactor] leaves of the fields it does not compute. *)
Lemma refactor_frame fuel g g' l h1 h2 :
  (∀ j, same_but_addr (store g j) (h1 j)) ->
  (∀ j, same_but_oparg (h1 j) (h2 j)) ->
  (∀ j, same_but_links (h2 j) (store g' j)) ->
  head g' = head g -> nodes fuel g None = Some l ->
  nodes fuel g' None = Some l ∧
  (∀ j, opcode (store g' j) = opcode (store g j) ∧
        addr (store g' j) = addr (h1 j) ∧
        oparg (store g' j) = oparg (h2 j) ∧
        target (h2 j) = target (store g j)).
Proof.
  intros R1 R2 R3 Hh Hn. split.
  - unfold nodes in *. cbn [start_of] in *. rewrite Hh, <- Hn.
    apply nodes_from_ext. intros j.
    destruct (R1 j) as (_&_&_&?&_), (R2 j) as (_&_&_&?&_),
             (R3 j) as (_&_&_&_&?&_). congruence.
  - intros j.
    destruct (R1 j) as (?&_&_&_&_&?&_), (R2 j) as (?&?&_&_&_&?&_),
             (R3 j) as (?&?&?&_). split_and!; congruence.
Qed.

(** [refactor] stops in [patch_opargs] on a jump without target. *)
Lemma refactor_dangling fuel g l i :
  nodes fuel g None = Some l -> i ∈ l ->
  is_jump D (store g i) -> target (store g i) = None ->
  refactor D fuel g = Raise AttributeError.
Proof.
  unfold nodes, refactor. cbn [start_of]. intros Hn Hi Hj Ht.
  rewrite (for_nodes_run_list _ refactor_body_next _ _ _ l) by done.
  destruct (refactor_loop_total l (store g, (base g, ∅))) as [s1 E1].
  rewrite E1. cbn [mbind res_bind].
  pose proof (refactor_loop_rel _ _ _ E1) as R1. simpl in R1.
  unfold patch_opargs. cbn [start_of head store].
  rewrite (for_nodes_run_list _ patch_body_next _ _ _ l).
  - rewrite (patch_loop_dangling l _ i); [done|done| |].
    + destruct (R1 i) as (Ho & _). unfold is_jump in *. simpl. by rewrite Ho.
    + destruct (R1 i) as (_&_&_&_&_&Ht'&_). simpl. congruence.
  - simpl. rewrite <- Hn. apply nodes_from_ext. intros j.
    by destruct (R1 j) as (_&_&_&?&_).
Qed.

(** What [get_code] returns is the whole stream: every node met from the
    start was serialised, after [refactor] and [calc_lnotab] returned. *)
Lemma get_code_complete fuel g start out :
  get_code D fuel g start = Ok out ->
  ∃ g1 l1 bss,
    refactor D fuel g = Ok g1 ∧ calc_lnotab fuel g1 = Ok (co_lnotab out) ∧
    nodes fuel g1 start = Some l1 ∧
    Forall2 (fun i bs => bin D (store g1 i) = Ok bs) l1 bss ∧
    co_code out = concat bss.
Proof.
  unfold get_code.
  intros (g1 & Hr & (ln & Hl & (s & Hs & [= <-])%bind_Ok)%bind_Ok)%bind_Ok.
  destruct (for_nodes_Ok_nodes _ get_code_body_next _ _ _ _ Hs) as [l1 Hn1].
  rewrite (for_nodes_run_list _ get_code_body_next _ _ _ l1) in Hs by done.
  destruct (get_code_loop _ _ _ _ Hs) as (bss & Hall & ->).
  exists g1, l1, bss. simpl. split_and!; done.
Qed.

Lemma Bytecode_init_exn a buffer p :
  (∃ b, Bytecode_init D a buffer p = Ok b) ∨
  Bytecode_init D a buffer p = Raise IndexError.
Proof.
  unfold Bytecode_init. destruct buffer as [|op [|b1 [|b2 r]]];
    try case_bool_decide; eauto.
Qed.

(** *** Termination of the decoder, and labels without a node *)

(** The [while] loop of [parse_bytecode] ends: fuel above the bytes left
    is never used up. *)
Lemma parse_loop_fuel fuel b c : ∀ v,
  (Z.to_nat (Z.of_nat (length c) - p_offset v) < fuel)%nat ->
  parse_loop D fuel b c v ≠ Diverge.
Proof.
  induction fuel as [|f IH]; intros v Hf; [lia|].
  cbn [parse_loop]. case_bool_decide as Hlt; [|done].
  destruct (Bytecode_init_exn (b + p_offset v)
              (take 3 (drop (Z.to_nat (p_offset v)) c)) (p_prev v))
    as [[nxt E]|E]; rewrite E; [|done].
  cbn [mbind res_bind].
  destruct (getitem _ (p_offset v)) as [k| |] eqn:Ek; try done.
  - cbn [mbind res_bind].
    match goal with
    | |- context [get_target_addr D ?x] =>
        destruct (get_target_addr D x) as [t| |] eqn:Et
    end; cbn [mbind res_bind]; try done.
    + apply IH. cbn [p_offset].
      match goal with |- context [len D ?x] => pose proof (len_pos x) end.
      lia.
    + unfold get_target_addr in Et. repeat case_match; simplify_eq.
  - unfold getitem in Ek. by case_match.
Qed.

Lemma parse_loop_total b c :
  parse_loop D (S (length c)) b c
    (mkParseVars (fun _ => blank) O ∅ None 0 []) ≠ Diverge.
Proof. apply parse_loop_fuel. cbn [p_offset]. lia. Qed.

Lemma run_list_no_diverge {A} (body : nat -> Store * A -> res (Store * A)) :
  (∀ i s, body i s ≠ Diverge) -> ∀ l s, run_list body l s ≠ Diverge.
Proof.
  intros Hb. induction l as [|i r IH]; intros s; cbn [run_list]; [done|].
  destruct (body i s) as [s1| |] eqn:E; cbn [mbind res_bind]; try done.
  by destruct (Hb i s).
Qed.

Lemma apply_labels_body_no_diverge bcs i s :
  apply_labels_body D bcs i s ≠ Diverge.
Proof.
  unfold apply_labels_body, jump_label, getitem; cbv zeta.
  repeat (case_bool_decide || case_match || simplify_eq || simpl); done.
Qed.

(** Cross-reference resolution does not leave a jump of the list
    unresolved: when the label of one is not a key of the dictionary,
    [apply_labels] raises. *)
Lemma apply_labels_unresolved_raises fuel g l i lab :
  nodes fuel g None = Some l -> i ∈ l ->
  HAVE_ARGUMENT D <= opcode (store g i) ->
  jump_label D (store g i) = Ok (Some lab) -> 0 <= lab ->
  bytecodes g !! lab = None ->
  ∃ e, apply_labels D fuel g None = Raise e.
Proof.
  intros Hn Hi Hop Hl Hlab Hnone.
  destruct (apply_labels D fuel g None) as [g'|e|] eqn:E; [|eauto|].
  - destruct (apply_labels_spec _ _ _ _ _ Hn E) as (_ & _ & _ & Hres).
    destruct (Hres i lab Hi Hop Hl Hlab) as (t & Ht & _). congruence.
  - exfalso. revert E. unfold apply_labels, nodes in *.
    rewrite (for_nodes_run_list _ apply_labels_clear_next _ _ _ l) by done.
    destruct (clear_loop_spec l (store g, tt)) as (s1 & -> & Hrel & _).
    cbn [mbind res_bind].
    rewrite (for_nodes_run_list _ (apply_labels_body_next (bytecodes g))
               _ _ _ l).
    + destruct (run_list _ l s1) as [s2| |] eqn:E2; try done.
      by destruct (run_list_no_diverge _
                     (apply_labels_body_no_diverge (bytecodes g)) l s1).
    + rewrite <- Hn. apply nodes_from_ext. intros j.
      by destruct (Hrel j) as (_&_&_&_&?&_).
Qed.

(** *** Line tables the decoder does not take *)

(** A line table of one entry stops [apply_lineno] at its second
    [linenos.pop(0)]. *)
Lemma apply_lineno_one_entry fuel g x y :
  co_lnotab (code g) = [x; y] -> apply_lineno fuel g = Raise IndexError.
Proof. unfold apply_lineno. by intros ->. Qed.

Lemma calc_lnotab_body_no_line i (h : Store) v :
  node_co_lnotab (h i) = None -> calc_lnotab_body i (h, v) = Raise TypeError.
Proof.
  intros Hl. unfold calc_lnotab_body; cbv zeta. cbn [fst snd].
  rewrite Hl. by rewrite bool_decide_false.
Qed.

(** A first node without line stops [calc_lnotab] at [None - int]. *)
Lemma calc_lnotab_no_line fuel g hd :
  head g = Some hd -> node_co_lnotab (store g hd) = None ->
  calc_lnotab (S fuel) g = Raise TypeError.
Proof.
  unfold calc_lnotab. intros -> Hl. cbn [for_nodes].
  by rewrite calc_lnotab_body_no_line.
Qed.

End Proofs.

(** ** The claims *)

(** Closed decidable facts about the sample graphs, by evaluation. *)
Ltac by_eval := apply (bool_decide_unpack _); vm_compute; reflexivity.

(** C8. Address monotonicity after relocation: when [refactor] returns,
    the graph had a list from [head] along [next], and the result has
    the same list, the same base address and the same opcodes, hence the
    same lengths. In the result the nodes of that list start at the base
    address and each lies exactly at the end of the node before it, hence
    strictly above it: no gap and no overlap. *)
Theorem refactor_address_monotonic (D : Dis) fuel g g' :
  refactor D fuel g = Ok g' ->
  ∃ l, nodes fuel g None = Some l ∧
       nodes fuel g' None = Some l ∧
       base g' = base g ∧
       (∀ i, opcode (store g' i) = opcode (store g i)) ∧
       contiguous D (store g') (base g) l ∧
       ∀ k i j, l !! k = Some i -> l !! S k = Some j ->
         addr (store g' j) = addr (store g' i) + len D (store g i) ∧
         addr (store g' i) < addr (store g' j).
Proof.
  intros Hr. destruct (refactor_Ok_nodes _ _ _ _ Hr) as [l Hn].
  destruct (refactor_spec _ _ _ _ _ Hn Hr)
    as (h1 & h2 & Hb & Hh & _ & R1 & R2 & R3 & Hc & _).
  destruct (refactor_frame fuel g g' l h1 h2 R1 R2 R3 Hh Hn) as [Hn' Hf].
  assert (Hc' : contiguous D (store g') (base g) l).
  { eapply contiguous_ext; [|exact Hc]. intros j _.
    destruct (Hf j) as (Ho & Ha & _). split; [done|].
    destruct (R1 j) as (Ho1 & _). congruence. }
  assert (Hop : ∀ i, opcode (store g' i) = opcode (store g i)).
  { intros i. by destruct (Hf i) as (? & _). }
  exists l. split_and!; [done..|].
  intros k i j Hi Hj.
  pose proof (contiguous_adjacent _ _ _ _ _ _ _ Hc' Hi Hj) as Ha.
  rewrite (len_opcode D _ _ (Hop i)) in Ha.
  pose proof (len_pos D (store g i)). split; lia.
Qed.

Lemma refactor_address_monotonic_witness :
  ∃ l, nodes 10 graph_if_deleted None = Some l ∧
       nodes 10 (from_res (refactor py27 10 graph_if_deleted)) None = Some l ∧
       base (from_res (refactor py27 10 graph_if_deleted))
         = base graph_if_deleted ∧
       (∀ i, opcode (store (from_res (refactor py27 10 graph_if_deleted)) i)
             = opcode (store graph_if_deleted i)) ∧
       contiguous py27 (store (from_res (refactor py27 10 graph_if_deleted)))
                  (base graph_if_deleted) l ∧
       ∀ k i j, l !! k = Some i -> l !! S k = Some j ->
         addr (store (from_res (refactor py27 10 graph_if_deleted)) j)
         = addr (store (from_res (refactor py27 10 graph_if_deleted)) i)
           + len py27 (store graph_if_deleted i) ∧
         addr (store (from_res (refactor py27 10 graph_if_deleted)) i)
         < addr (store (from_res (refactor py27 10 graph_if_deleted)) j).
Proof.
  apply (refactor_address_monotonic py27 10 graph_if_deleted).
  apply from_res_Ok. vm_compute. reflexivity.
Defined.

(** C6. Cross-reference symmetry: after [apply_labels] over the whole
    list, for all nodes [n] and [r] of the graph, [r] is in [n.xrefs]
    exactly when [r.target] is [n]; every node with a target is in the
    [xrefs] of that target; and no [xrefs] list of the graph holds a
    referrer twice. *)
Theorem apply_labels_xref_symmetry (D : Dis) fuel g g' l :
  nodes fuel g None = Some l ->
  apply_labels D fuel g None = Ok g' ->
  nodes fuel g' None = Some l ∧
  (∀ n r, n ∈ l -> r ∈ l ->
     (r ∈ xrefs (store g' n) ↔ target (store g' r) = Some n)) ∧
  (∀ r t, r ∈ l -> target (store g' r) = Some t -> r ∈ xrefs (store g' t)) ∧
  (∀ n, n ∈ l -> NoDup (xrefs (store g' n))).
Proof.
  intros Hn Ha.
  destruct (apply_labels_spec _ _ _ _ _ _ Hn Ha)
    as (Hg & Hrel & (I1 & I2 & I3 & _) & _).
  split_and!.
  - rewrite Hg. unfold nodes in *. simpl. rewrite <- Hn.
    apply nodes_from_ext. intros j. by destruct (Hrel j) as (_&_&_&_&?&_).
  - intros n r Hnl Hrl. split.
    + intros Hr. by destruct (I1 n r Hnl Hr).
    + by apply I2.
  - intros r t Hr. by apply I2.
  - done.
Qed.

Lemma apply_labels_xref_symmetry_witness :
  nodes 10 (from_res (apply_labels py27 10 graph_if None)) None
    = Some [0; 1; 2; 3; 4; 5; 6]%nat ∧
  (∀ n r, n ∈ [0; 1; 2; 3; 4; 5; 6]%nat -> r ∈ [0; 1; 2; 3; 4; 5; 6]%nat ->
     (r ∈ xrefs (store (from_res (apply_labels py27 10 graph_if None)) n) ↔
      target (store (from_res (apply_labels py27 10 graph_if None)) r)
        = Some n)) ∧
  (∀ r t, r ∈ [0; 1; 2; 3; 4; 5; 6]%nat ->
     target (store (from_res (apply_labels py27 10 graph_if None)) r) = Some t ->
     r ∈ xrefs (store (from_res (apply_labels py27 10 graph_if None)) t)) ∧
  (∀ n, n ∈ [0; 1; 2; 3; 4; 5; 6]%nat ->
     NoDup (xrefs (store (from_res (apply_labels py27 10 graph_if None)) n))).
Proof.
  apply (apply_labels_xref_symmetry py27 10 graph_if).
  - vm_compute. reflexivity.
  - apply from_res_Ok. vm_compute. reflexivity.
Defined.

(** C2. A dangling target is a hard failure at encode time: on a graph
    whose list holds a jump-class node with [target] [None], [get_code]
    raises (the AttributeError of [current.target.addr]) and returns no
    code object; and whenever [get_code] does return one, [refactor] and
    [calc_lnotab] returned and the stream is the concatenation of the
    binary form of every node met from the start, never a part of it. *)
Theorem get_code_dangling_target_fails (D : Dis) fuel g start l i :
  nodes fuel g None = Some l -> i ∈ l ->
  is_jump D (store g i) -> target (store g i) = None ->
  get_code D fuel g start = Raise AttributeError ∧
  (∀ g0 start0 out, get_code D fuel g0 start0 = Ok out ->
     ∃ g1 l1 bss,
       refactor D fuel g0 = Ok g1 ∧ calc_lnotab fuel g1 = Ok (co_lnotab out) ∧
       nodes fuel g1 start0 = Some l1 ∧
       Forall2 (fun i bs => bin D (store g1 i) = Ok bs) l1 bss ∧
       co_code out = concat bss).
Proof.
  intros Hn Hi Hj Ht. split.
  - unfold get_code. by rewrite (refactor_dangling D fuel g l i).
  - apply get_code_complete.
Qed.

Lemma get_code_dangling_target_fails_witness :
  get_code py27 10 graph_if_dangling None = Raise AttributeError ∧
  (∀ g0 start0 out, get_code py27 10 g0 start0 = Ok out ->
     ∃ g1 l1 bss,
       refactor py27 10 g0 = Ok g1 ∧
       calc_lnotab 10 g1 = Ok (co_lnotab out) ∧
       nodes 10 g1 start0 = Some l1 ∧
       Forall2 (fun i bs => bin py27 (store g1 i) = Ok bs) l1 bss ∧
       co_code out = concat bss).
Proof.
  apply (get_code_dangling_target_fails py27 10 graph_if_dangling None
           [0; 1; 2; 3; 4]%nat 1%nat).
  - vm_compute. reflexivity.
  - by_eval.
  - by_eval.
  - vm_compute. reflexivity.
Defined.

(** C3, as the specification states it, fails: the specification resolves
    cross-references before it patches the operands. On [graph_if] without
    its first RETURN_VALUE that order looks the stale operand 13 up in the
    new dictionary and raises KeyError, where [refactor] returns a graph
    whose POP_JUMP_IF_FALSE has the operand 12. *)
Lemma refactor_claimed_order_counterexample :
  refactor_claimed py27 10 graph_if_deleted = Raise KeyError ∧
  (∃ g', refactor py27 10 graph_if_deleted = Ok g' ∧
         oparg (store g' 1%nat) = Some 12) ∧
  refactor py27 10 graph_if_deleted ≠ refactor_claimed py27 10 graph_if_deleted.
Proof.
  assert (Hc : refactor_claimed py27 10 graph_if_deleted = Raise KeyError)
    by (vm_compute; reflexivity).
  assert (Hr : refactor py27 10 graph_if_deleted
               = Ok (from_res (refactor py27 10 graph_if_deleted)))
    by (apply from_res_Ok; vm_compute; reflexivity).
  split_and!; [done| |].
  - eexists. split; [exact Hr|]. vm_compute. reflexivity.
  - rewrite Hc, Hr. discriminate.
Qed.

(** C3, amended. When [refactor] returns: the nodes of the list lie one
    after the other from the base address; the dictionary holds every node
    under its new address; every jump-class node has the operand patched
    from the target it held before the call and from the new addresses
    (relative: [target.addr - (addr + len)], absolute: [target.addr]); and
    cross-reference resolution, run last on the patched operands, leaves
    each jump with the node the dictionary holds at its label as target
    and in the [xrefs] of that node. From a base address that is not
    negative, a jump whose target was a node of the list keeps it. *)
Theorem refactor_contract (D : Dis) fuel g g' l :
  nodes fuel g None = Some l ->
  refactor D fuel g = Ok g' ->
  contiguous D (store g') (base g) l ∧
  (∀ i, i ∈ l -> bytecodes g' !! addr (store g' i) = Some i) ∧
  (∀ i, i ∈ l -> patched D (store g) (store g') (store g') i) ∧
  (∀ i lab, i ∈ l -> HAVE_ARGUMENT D <= opcode (store g' i) ->
     jump_label D (store g' i) = Ok (Some lab) -> 0 <= lab ->
     ∃ t, bytecodes g' !! lab = Some t ∧ target (store g' i) = Some t ∧
          i ∈ xrefs (store g' t)) ∧
  (0 <= base g -> ∀ i t, i ∈ l -> t ∈ l -> is_jump D (store g i) ->
     target (store g i) = Some t ->
     target (store g' i) = Some t ∧ i ∈ xrefs (store g' t)).
Proof.
  intros Hn Hr.
  destruct (refactor_spec _ _ _ _ _ Hn Hr)
    as (h1 & h2 & Hb & Hh & _ & R1 & R2 & R3 & Hc & Hm & Hp & Hinv & Hres).
  destruct (refactor_frame fuel g g' l h1 h2 R1 R2 R3 Hh Hn) as [Hn' Hf].
  assert (Ho1 : ∀ j, opcode (h1 j) = opcode (store g j))
    by (intros j; by destruct (R1 j) as (? & _)).
  split_and!.
  - eapply contiguous_ext; [|exact Hc]. intros j _.
    destruct (Hf j) as (Ho & Ha & _). split; [done|]. by rewrite Ho1.
  - intros i Hi. destruct (Hf i) as (_ & -> & _). by apply Hm.
  - intros i Hi. specialize (Hp i Hi). unfold patched in *.
    destruct (Hf i) as (Ho & Ha & Hg & Ht).
    rewrite Ho, Ha, Hg, (len_opcode D (h1 i) (store g' i)) by congruence.
    destruct (R1 i) as (_&_&_&_&_&Ht1&_). rewrite Ho1, Ht1 in Hp.
    intros Hop. destruct (Hp Hop) as [P1 P2]. split.
    + intros Hj. destruct (P1 Hj) as (t & ? & ->). exists t.
      by destruct (Hf t) as (_ & -> & _).
    + intros Hj1 Hj2. destruct (P2 Hj1 Hj2) as (t & ? & ->). exists t.
      by destruct (Hf t) as (_ & -> & _).
  - intros i lab Hi Hop Hl Hlab.
    destruct (R3 i) as (Ho3 & _).
    destruct (Hres i lab Hi) as (t & Hlk & Ht); [congruence| |done|].
    + by rewrite <- (jump_label_links D _ _ (R3 i)).
    + exists t. split_and!; [done..|].
      destruct Hinv as (_ & I2 & _). by apply I2.
  - intros Hbase i t Hi Ht Hj Htg.
    apply (refactor_keeps_targets D fuel g g' l i t); done.
Qed.

Lemma refactor_contract_witness :
  contiguous py27 (store (from_res (refactor py27 10 graph_if_deleted)))
    (base graph_if_deleted) [0; 1; 2; 4; 5; 6]%nat ∧
  (∀ i, i ∈ [0; 1; 2; 4; 5; 6]%nat ->
     bytecodes (from_res (refactor py27 10 graph_if_deleted))
       !! addr (store (from_res (refactor py27 10 graph_if_deleted)) i)
     = Some i) ∧
  (∀ i, i ∈ [0; 1; 2; 4; 5; 6]%nat ->
     patched py27 (store graph_if_deleted)
       (store (from_res (refactor py27 10 graph_if_deleted)))
       (store (from_res (refactor py27 10 graph_if_deleted))) i) ∧
  (∀ i lab, i ∈ [0; 1; 2; 4; 5; 6]%nat ->
     HAVE_ARGUMENT py27
       <= opcode (store (from_res (refactor py27 10 graph_if_deleted)) i) ->
     jump_label py27 (store (from_res (refactor py27 10 graph_if_deleted)) i)
       = Ok (Some lab) -> 0 <= lab ->
     ∃ t, bytecodes (from_res (refactor py27 10 graph_if_deleted)) !! lab
            = Some t ∧
          target (store (from_res (refactor py27 10 graph_if_deleted)) i)
            = Some t ∧
          i ∈ xrefs (store (from_res (refactor py27 10 graph_if_deleted)) t)) ∧
  (0 <= base graph_if_deleted ->
   ∀ i t, i ∈ [0; 1; 2; 4; 5; 6]%nat -> t ∈ [0; 1; 2; 4; 5; 6]%nat ->
     is_jump py27 (store graph_if_deleted i) ->
     target (store graph_if_deleted i) = Some t ->
     target (store (from_res (refactor py27 10 graph_if_deleted)) i) = Some t ∧
     i ∈ xrefs (store (from_res (refactor py27 10 graph_if_deleted)) t)).
Proof.
  apply (refactor_contract py27 10 graph_if_deleted).
  - vm_compute. reflexivity.
  - apply from_res_Ok. vm_compute. reflexivity.
Defined.

(** C5, as the specification states it, fails on a referrer that leaves
    the list: in [graph_loop] the JUMP_ABSOLUTE at 3 jumps to itself, so it
    is its own referrer; once it is deleted and the graph relocated it is
    no longer in the [xrefs] of its successor, which [apply_labels]
    rebuilt from the nodes of the list. *)
Lemma deletion_redirect_counterexample :
  ¬ deletion_redirect_claim py27 10 graph_loop 1%nat.
Proof.
  intros H.
  assert (Hd : delete_node graph_loop 1%nat
               = Ok (from_res (delete_node graph_loop 1%nat)))
    by (apply from_res_Ok; vm_compute; reflexivity).
  destruct (H 2%nat (from_res (delete_node graph_loop 1%nat)) 1%nat)
    as [_ H2]; [vm_compute; reflexivity|exact Hd| |].
  - by_eval.
  - destruct (H2 (from_res (refactor py27 10
                     (from_res (delete_node graph_loop 1%nat))))) as [_ Hin].
    + apply from_res_Ok. vm_compute. reflexivity.
    + revert Hin. by_eval.
Qed.

(** C5, amended. For a node [n] of the list whose [prev] is the node
    before it and whose successor is [m], [delete_node(n)] gives every
    referrer [r] of [n.xrefs] the target [m] and appends it to [m.xrefs];
    and after a relocation that returns, from a base address that is not
    negative, every such [r] that is a jump-class node still in the list
    has [r.target == m] and is in [m.xrefs]. The list after the deletion
    is the old one without [n]; after a relocation that returns, no node
    outside that list is in [m.xrefs], so neither is [n] itself, were it
    its own referrer. *)
Theorem delete_node_redirect (D : Dis) fuel g n m g1 l1 l2 r :
  nodes fuel g None = Some (l1 ++ n :: l2) ->
  prev (store g n) = last l1 ->
  next (store g n) = Some m ->
  delete_node g n = Ok g1 ->
  r ∈ xrefs (store g n) ->
  (target (store g1 r) = Some m ∧ r ∈ xrefs (store g1 m)) ∧
  (∀ g2, 0 <= base g -> r ∈ l1 ++ l2 -> is_jump D (store g r) ->
         refactor D fuel g1 = Ok g2 ->
         target (store g2 r) = Some m ∧ r ∈ xrefs (store g2 m)) ∧
  nodes fuel g1 None = Some (l1 ++ l2) ∧ (n ∉ l1 ++ l2) ∧
  (∀ g2, refactor D fuel g1 = Ok g2 ->
         (n ∉ xrefs (store g2 m)) ∧
         ∀ r', r' ∉ l1 ++ l2 -> r' ∉ xrefs (store g2 m)).
Proof.
  intros Hn Hp Hm Hd Hr.
  destruct (delete_node_spec _ _ _ Hd)
    as (Hb & _ & _ & _ & Hf & Ht & Hx & _).
  assert (Ht1 : target (store g1 r) = Some m).
  { by rewrite Ht, bool_decide_true, Hm. }
  destruct (delete_node_nodes _ _ _ _ _ _ Hn Hp Hd) as [Hn1 Hnot].
  assert (Hml : m ∈ l1 ++ l2).
  { pose proof (nodes_from_chain _ _ _ _ Hn) as Hc.
    apply chain_app_cons in Hc. rewrite Hm in Hc.
    destruct l2 as [|x l2']; [done|]. destruct Hc as [[= <-] _].
    apply elem_of_app. right. by left. }
  split_and!.
  - done.
  - rewrite Hx, bool_decide_true by done.
    apply elem_of_app. by right.
  - intros g2 Hbase Hrl Hj Href.
    apply (refactor_keeps_targets D fuel g1 g2 (l1 ++ l2) r m);
      try done.
    + by rewrite Hb.
    + destruct (Hf r) as (Ho & _). unfold is_jump in *. by rewrite Ho.
  - done.
  - done.
  - intros g2 Href.
    destruct (refactor_spec D _ _ _ _ Hn1 Href)
      as (_ & _ & _ & _ & _ & _ & _ & _ & _ & _ & _ & Hinv & _).
    destruct Hinv as (Hin & _).
    assert (Hout : ∀ r', r' ∉ l1 ++ l2 -> r' ∉ xrefs (store g2 m)).
    { intros r' Hr' Hxr. by destruct (Hin m r' Hml Hxr). }
    split; [by apply Hout|done].
Qed.

Lemma delete_node_redirect_witness :
  (target (store (from_res (delete_node graph_if 5%nat)) 1%nat) = Some 6%nat ∧
   1%nat ∈ xrefs (store (from_res (delete_node graph_if 5%nat)) 6%nat)) ∧
  (∀ g2, 0 <= base graph_if -> 1%nat ∈ [0; 1; 2; 3; 4]%nat ++ [6%nat] ->
         is_jump py27 (store graph_if 1%nat) ->
         refactor py27 10 (from_res (delete_node graph_if 5%nat)) = Ok g2 ->
         target (store g2 1%nat) = Some 6%nat ∧
         1%nat ∈ xrefs (store g2 6%nat)) ∧
  nodes 10 (from_res (delete_node graph_if 5%nat)) None
    = Some ([0; 1; 2; 3; 4]%nat ++ [6%nat]) ∧
  (5%nat ∉ [0; 1; 2; 3; 4]%nat ++ [6%nat]) ∧
  (∀ g2, refactor py27 10 (from_res (delete_node graph_if 5%nat)) = Ok g2 ->
         (5%nat ∉ xrefs (store g2 6%nat)) ∧
         ∀ r', r' ∉ [0; 1; 2; 3; 4]%nat ++ [6%nat] ->
               r' ∉ xrefs (store g2 6%nat)).
Proof.
  apply (delete_node_redirect py27 10 graph_if 5%nat 6%nat _
           [0; 1; 2; 3; 4]%nat [6%nat] 1%nat).
  - vm_compute. reflexivity.
  - vm_compute. reflexivity.
  - vm_compute. reflexivity.
  - apply from_res_Ok. vm_compute. reflexivity.
  - by_eval.
Defined.

(** C10. [delete_node] leaves the deleted node in the [xrefs] of its own
    target: for a node [n] of the list (with [prev] the node before it)
    that has the target [t] and is in [t.xrefs], after [delete_node(n)]
    [n] is still in [t.xrefs] although the list no longer holds [n]; when
    [t] is still a node of the list, the next [apply_labels] or [refactor]
    that returns leaves [t.xrefs] without [n]. *)
Theorem delete_node_keeps_stale_xref (D : Dis) fuel g n t g1 l1 l2 :
  nodes fuel g None = Some (l1 ++ n :: l2) ->
  prev (store g n) = last l1 ->
  target (store g n) = Some t ->
  n ∈ xrefs (store g t) ->
  delete_node g n = Ok g1 ->
  n ∈ xrefs (store g1 t) ∧
  nodes fuel g1 None = Some (l1 ++ l2) ∧ (n ∉ l1 ++ l2) ∧
  (∀ g2, t ∈ l1 ++ l2 -> apply_labels D fuel g1 None = Ok g2 ->
         n ∉ xrefs (store g2 t)) ∧
  (∀ g2, t ∈ l1 ++ l2 -> refactor D fuel g1 = Ok g2 ->
         n ∉ xrefs (store g2 t)).
Proof.
  intros Hn Hp Ht Hin Hd.
  destruct (delete_node_spec _ _ _ Hd) as (_ & _ & _ & _ & _ & _ & Hx & _).
  destruct (delete_node_nodes _ _ _ _ _ _ Hn Hp Hd) as [Hn1 Hnot].
  split_and!; [|done|done| |].
  - rewrite Hx. case_bool_decide; [|done]. apply elem_of_app. by left.
  - intros g2 Htl Ha Hin2.
    destruct (apply_labels_spec _ _ _ _ _ _ Hn1 Ha) as (_ & _ & (I1 & _) & _).
    by destruct (I1 t n Htl Hin2).
  - intros g2 Htl Hr Hin2.
    destruct (refactor_spec _ _ _ _ _ Hn1 Hr)
      as (h1 & h2 & _ & _ & _ & _ & _ & _ & _ & _ & _ & (I1 & _) & _).
    by destruct (I1 t n Htl Hin2).
Qed.

Lemma delete_node_keeps_stale_xref_witness :
  4%nat ∈ xrefs (store (from_res (delete_node graph_if 4%nat)) 5%nat) ∧
  nodes 10 (from_res (delete_node graph_if 4%nat)) None
    = Some ([0; 1; 2; 3]%nat ++ [5; 6]%nat) ∧
  (4%nat ∉ [0; 1; 2; 3]%nat ++ [5; 6]%nat) ∧
  (∀ g2, 5%nat ∈ [0; 1; 2; 3]%nat ++ [5; 6]%nat ->
         apply_labels py27 10 (from_res (delete_node graph_if 4%nat)) None
           = Ok g2 ->
         4%nat ∉ xrefs (store g2 5%nat)) ∧
  (∀ g2, 5%nat ∈ [0; 1; 2; 3]%nat ++ [5; 6]%nat ->
         refactor py27 10 (from_res (delete_node graph_if 4%nat)) = Ok g2 ->
         4%nat ∉ xrefs (store g2 5%nat)).
Proof.
  apply (delete_node_keeps_stale_xref py27 10 graph_if 4%nat 5%nat).
  - vm_compute. reflexivity.
  - vm_compute. reflexivity.
  - vm_compute. reflexivity.
  - by_eval.
  - apply from_res_Ok. vm_compute. reflexivity.
Defined.

(** C9, as the specification states it, fails. In [graph_long] line 3
    starts 258 bytes after line 2: the byte delta is not clamped to 255,
    [struct.pack] raises. In [graph_line_jump] the line goes from 2 to 400
    and back to 3: the line deltas are not clamped to 255 and 0 either. *)
Lemma lnotab_claim_counterexample :
  ¬ lnotab_claim 100 graph_long ∧ ¬ lnotab_claim 10 graph_line_jump.
Proof.
  split; intros H.
  - specialize (H (default [] (nodes 100 graph_long None))
                  (lines_of 100 graph_long) 0%nat).
    assert (Hc : calc_lnotab 100 graph_long = Raise StructError)
      by (vm_compute; reflexivity).
    rewrite Hc in H. discriminate H.
    + vm_compute. reflexivity.
    + vm_compute. reflexivity.
    + by_eval.
  - specialize (H (default [] (nodes 10 graph_line_jump None))
                  (lines_of 10 graph_line_jump) 0%nat).
    assert (Hc : calc_lnotab 10 graph_line_jump
                 = Ok [0; 1; 3; 142; 1; 115]) by (vm_compute; reflexivity).
    assert (Hs : lnotab_claimed (co_firstlineno (code graph_line_jump))
                   (addr (store graph_line_jump 0%nat))
                   (lines_of 10 graph_line_jump)
                 = [0; 1; 3; 255; 1; 0]) by (vm_compute; reflexivity).
    rewrite Hc, Hs in H. discriminate H.
    + vm_compute. reflexivity.
    + vm_compute. reflexivity.
    + by_eval.
Qed.

(** C9, amended. Over a list in which every node has a line,
    [calc_lnotab] emits a pair exactly when the line of a node differs from
    the line of the last pair (from [co_firstlineno] at the start), made of
    the address delta and the line delta since the last pair, whenever
    both lie in 0..255; the byte delta is not clamped: out of 0..255 it
    makes [calc_lnotab] raise [struct.error]. *)
Theorem calc_lnotab_in_range fuel g l xs hd :
  nodes fuel g None = Some l -> head g = Some hd ->
  node_lines (store g) l xs ->
  (deltas_fit (co_firstlineno (code g)) (addr (store g hd)) xs ->
   calc_lnotab fuel g
   = Ok (lnotab_claimed (co_firstlineno (code g)) (addr (store g hd)) xs)) ∧
  (byte_delta_overflows (co_firstlineno (code g)) (addr (store g hd)) xs ->
   calc_lnotab fuel g = Raise StructError).
Proof.
  unfold nodes, calc_lnotab. cbn [start_of]. intros Hn Hh Hl. rewrite Hh.
  rewrite <- Hh.
  rewrite (for_nodes_run_list _ calc_lnotab_body_next _ _ _ l) by done.
  split.
  - intros Hfit.
    destruct (calc_lnotab_loop l xs (store g)
                (mkLnotabVars [] (co_firstlineno (code g))
                   (addr (store g hd))) Hl Hfit) as (v' & -> & Hrv).
    simpl. by rewrite Hrv.
  - intros Hov.
    by rewrite (calc_lnotab_loop_overflow l xs (store g)
                  (mkLnotabVars [] (co_firstlineno (code g))
                     (addr (store g hd))) Hl Hov).
Qed.

Lemma calc_lnotab_in_range_witness :
  (deltas_fit (co_firstlineno (code graph_if)) (addr (store graph_if 0%nat))
     (lines_of 10 graph_if) ->
   calc_lnotab 10 graph_if
   = Ok (lnotab_claimed (co_firstlineno (code graph_if))
           (addr (store graph_if 0%nat)) (lines_of 10 graph_if))) ∧
  (byte_delta_overflows (co_firstlineno (code graph_if))
     (addr (store graph_if 0%nat)) (lines_of 10 graph_if) ->
   calc_lnotab 10 graph_if = Raise StructError).
Proof.
  apply (calc_lnotab_in_range 10 graph_if [0; 1; 2; 3; 4; 5; 6]%nat).
  - vm_compute. reflexivity.
  - vm_compute. reflexivity.
  - by_eval.
Defined.

(** C1. Round-trip identity, at inputs where the code misses it. With a
    line table of one entry the second [linenos.pop(0)] of [apply_lineno]
    raises IndexError, in the constructor. With an empty line table the
    nodes get no line and [calc_lnotab] raises TypeError. With the line
    table [6; 1; 6; 1] decoding and encoding at once gives back the byte
    stream but the line table [0; 1; 12; 1]. *)
Theorem round_trip_line_table_differs :
  (BytecodeGraph_init py27 10 code_one_line 0).2 = Raise IndexError ∧
  round_trip py27 10 code_one_line 0 = Raise IndexError ∧
  round_trip py27 10 code_first_line 0 = Raise TypeError ∧
  round_trip py27 10 code_three_lines 0
    = Ok (mkCode (co_code code_three_lines) 1 [0; 1; 12; 1]).
Proof. split_and!; vm_compute; reflexivity. Qed.

(** C4. A jump into the middle of an instruction, at decode time: the
    JUMP_ABSOLUTE 1 below points at the second byte of the LOAD_CONST at
    0. [parse_bytecode] prints the address 1 and goes on to
    [apply_labels], whose [self.bytecodes[label]] raises KeyError: no
    graph is produced. *)
Theorem parse_bytecode_nonlinear_jump_raises :
  parse_bytecode py27 10 0 (mkCode [100; 0; 0; 113; 1; 0; 83] 1 [0; 1; 3; 1])
    = ([1], Raise KeyError) ∧
  (BytecodeGraph_init py27 10
     (mkCode [100; 0; 0; 113; 1; 0; 83] 1 [0; 1; 3; 1]) 0).2
    = Raise KeyError.
Proof. split; vm_compute; reflexivity. Qed.

(** C7. The decoder at a base address other than 0: whatever the stream,
    [parse_bytecode] raises. The length of the first instruction is read
    at [self.bytecodes[offset]], where the dictionary holds the node
    under [self.base + offset] (KeyError); a stream cut inside its first
    instruction raises IndexError before that, and an empty stream has
    no [self.bytecodes[self.base]]. *)
Theorem parse_bytecode_nonzero_base_raises (D : Dis) fuel b c :
  b ≠ 0 ->
  (parse_bytecode D fuel b c).2 = Raise KeyError ∨
  (parse_bytecode D fuel b c).2 = Raise IndexError.
Proof.
  intros Hb. unfold parse_bytecode.
  generalize (length (co_code c)). intros n.
  destruct (co_code c) as [|op rest].
  - left. reflexivity.
  - cbn [parse_loop p_offset p_prev p_fresh p_bytecodes p_store].
    rewrite bool_decide_true by (simpl; lia).
    match goal with
    | |- context [Bytecode_init ?d ?a ?buf ?p] =>
        destruct (Bytecode_init_exn d a buf p) as [[nxt E]|E]; rewrite E
    end.
    + left. cbn [mbind res_bind].
      unfold getitem at 1. rewrite lookup_insert_ne by lia.
      rewrite lookup_empty. reflexivity.
    + right. reflexivity.
Qed.

Lemma parse_bytecode_nonzero_base_raises_witness :
  (parse_bytecode py27 10 1 (mkCode [9; 83] 1 [0; 1; 1; 1])).2 = Raise KeyError ∨
  (parse_bytecode py27 10 1 (mkCode [9; 83] 1 [0; 1; 1; 1])).2 = Raise IndexError.
Proof.
  apply (parse_bytecode_nonzero_base_raises py27 10 1). lia.
Defined.

(** ** Further properties of the code *)

Section Bytes.

Variable D : Dis.

(** *** Bytes and operands *)

Lemma operand_of_bytes b1 b2 :
  is_byte b1 -> is_byte b2 ->
  Z.land (Z.lor b1 (Z.shiftl b2 8)) 255 = b1 ∧
  Z.shiftr (Z.lor b1 (Z.shiftl b2 8)) 8 = b2 ∧
  0 <= Z.lor b1 (Z.shiftl b2 8) <= 65535.
Proof.
  unfold is_byte. intros H1 H2.
  assert (Hl : Z.land (Z.lor b1 (Z.shiftl b2 8)) 255 = b1).
  { rewrite Z.land_lor_distr_l, (land_255 b1) by done.
    change 255 with (Z.ones 8). rewrite Z.land_ones, Z.shiftl_mul_pow2 by lia.
    rewrite Z.mod_mul by lia. apply Z.lor_0_r. }
  assert (Hh : Z.shiftr (Z.lor b1 (Z.shiftl b2 8)) 8 = b2).
  { rewrite Z.shiftr_lor, Z.shiftr_shiftl_l by lia.
    rewrite Z.shiftr_div_pow2 by lia. change (2 ^ 8) with 256.
    rewrite Z.div_small by lia. rewrite Z.sub_diag. apply Z.lor_0_l. }
  split; [done|]. split; [done|].
  assert (Hn : 0 <= Z.lor b1 (Z.shiftl b2 8)).
  { apply Z.lor_nonneg. split; [lia|]. apply Z.shiftl_nonneg. lia. }
  pose proof (Z.div_mod (Z.lor b1 (Z.shiftl b2 8)) 256) as Hdm.
  rewrite Z.shiftr_div_pow2 in Hh by lia. change (2 ^ 8) with 256 in Hh.
  change 255 with (Z.ones 8) in Hl. rewrite Z.land_ones in Hl by lia.
  change (2 ^ 8) with 256 in Hl. lia.
Qed.

Lemma bytes_of_operand v :
  0 <= v <= 65535 ->
  is_byte (Z.land v 255) ∧ is_byte (Z.shiftr v 8) ∧
  Z.lor (Z.land v 255) (Z.shiftl (Z.shiftr v 8) 8) = v ∧
  Z.land v 255 + 256 * Z.shiftr v 8 = v.
Proof.
  intros Hv.
  assert (Hl : Z.land v 255 = v mod 256).
  { change 255 with (Z.ones 8). by rewrite Z.land_ones. }
  assert (Hh : Z.shiftr v 8 = v / 256) by (by rewrite Z.shiftr_div_pow2).
  pose proof (Z.mod_pos_bound v 256). pose proof (Z.div_mod v 256).
  assert (B1 : is_byte (Z.land v 255)) by (unfold is_byte; lia).
  assert (B2 : is_byte (Z.shiftr v 8)).
  { unfold is_byte. rewrite Hh. split.
    - apply Z.div_pos; lia.
    - assert (v / 256 < 256) by (apply Z.div_lt_upper_bound; lia). lia. }
  assert (Hs : Z.land v 255 + 256 * Z.shiftr v 8 = v) by (rewrite Hl, Hh; lia).
  split_and!; try done.
  destruct (operand_of_bytes _ _ B1 B2) as (E1 & E2 & E3).
  set (w := Z.lor (Z.land v 255) (Z.shiftl (Z.shiftr v 8) 8)) in *.
  pose proof (Z.div_mod w 256) as Hw.
  change 255 with (Z.ones 8) in E1 at 1. rewrite Z.land_ones in E1 by lia.
  rewrite Z.shiftr_div_pow2 in E2 by lia.
  change (2 ^ 8) with 256 in *. lia.
Qed.

(** *** [Bytecode.__init__] and [Bytecode.bin] *)

Lemma bin_cases b bs :
  bin D b = Ok bs ->
  is_byte (opcode b) ∧
  ((opcode b < HAVE_ARGUMENT D ∧ bs = [opcode b]) ∨
   (HAVE_ARGUMENT D <= opcode b ∧
    ∃ v, oparg b = Some v ∧ 0 <= v <= 65535 ∧
         bs = [opcode b; Z.land v 255; Z.shiftr v 8])).
Proof.
  unfold bin, pack_B, pack_H, is_byte. intros H.
  repeat (case_bool_decide || case_match || simplify_eq || simpl in * );
    (split; [done|]).
  - right. split; [done|]. eauto.
  - left. split; [lia|done].
Qed.

Lemma bin_length b bs :
  bin D b = Ok bs -> Z.of_nat (length bs) = len D b.
Proof.
  intros [_ [[Hlt ->]|[Hge (v & _ & _ & ->)]]]%bin_cases; unfold len.
  - by rewrite bool_decide_true.
  - by rewrite bool_decide_false by lia.
Qed.

Lemma bin_bytes b bs : bin D b = Ok bs -> Forall is_byte bs.
Proof.
  intros [Hop [[Hlt ->]|[Hge (v & _ & Hv & ->)]]]%bin_cases.
  - by apply Forall_cons_2; [|apply Forall_nil_2].
  - destruct (bytes_of_operand v Hv) as (? & ? & _).
    by repeat (apply Forall_cons_2; [done|]).
Qed.

Lemma Bytecode_init_fields a buffer p b :
  Bytecode_init D a buffer p = Ok b ->
  addr b = a ∧ prev b = p ∧ next b = None ∧ xrefs b = [] ∧
  target b = None ∧ node_co_lnotab b = None ∧
  buffer !! 0%nat = Some (opcode b) ∧
  (opcode b < HAVE_ARGUMENT D -> oparg b = None) ∧
  (HAVE_ARGUMENT D <= opcode b ->
   ∃ b1 b2, buffer !! 1%nat = Some b1 ∧ buffer !! 2%nat = Some b2 ∧
            oparg b = Some (Z.lor b1 (Z.shiftl b2 8))).
Proof.
  unfold Bytecode_init. destruct buffer as [|op rest]; [done|].
  case_bool_decide as Hop.
  - destruct rest as [|b1 [|b2 r]]; try done. intros [= <-]. simpl.
    split_and!; try done; [lia|eauto].
  - intros [= <-]. simpl. split_and!; try done.
Qed.

(** Decoding and then encoding one instruction gives the bytes read. *)
Lemma Bytecode_init_bin a buffer p b :
  Forall is_byte buffer ->
  Bytecode_init D a buffer p = Ok b ->
  bin D b = Ok (take (Z.to_nat (len D b)) buffer).
Proof.
  unfold Bytecode_init, bin, len, pack_B, pack_H.
  destruct buffer as [|op rest]; [done|].
  intros [Hop Hrest]%Forall_cons. unfold is_byte in Hop.
  case_bool_decide as Hge.
  - destruct rest as [|b1 [|b2 r]]; try done. intros [= <-]. simpl.
    apply Forall_cons in Hrest as [H1 [H2 _]%Forall_cons].
    destruct (operand_of_bytes _ _ H1 H2) as (E1 & E2 & E3).
    rewrite (bool_decide_true (HAVE_ARGUMENT D <= op)) by done.
    rewrite (bool_decide_false (op < HAVE_ARGUMENT D)) by lia.
    rewrite (bool_decide_true (0 <= op <= 255)) by done. simpl.
    rewrite (bool_decide_true _ E3). simpl. by rewrite E1, E2.
  - intros [= <-]. simpl.
    rewrite (bool_decide_false (HAVE_ARGUMENT D <= op)) by done.
    rewrite (bool_decide_true (op < HAVE_ARGUMENT D)) by lia.
    by rewrite (bool_decide_true (0 <= op <= 255)).
Qed.

(** Encoding and then decoding one instruction gives its opcode and its
    operand back. *)
Lemma bin_Bytecode_init b bs rest a p :
  bin D b = Ok bs ->
  (opcode b < HAVE_ARGUMENT D -> oparg b = None) ->
  ∃ b', Bytecode_init D a (bs ++ rest) p = Ok b' ∧
        opcode b' = opcode b ∧ oparg b' = oparg b.
Proof.
  intros [_ [[Hlt ->]|[Hge (v & Hv & Hr & ->)]]]%bin_cases Hnone;
    unfold Bytecode_init; simpl.
  - rewrite bool_decide_false by lia. eexists. split; [done|]. simpl.
    by rewrite Hnone.
  - rewrite bool_decide_true by done. eexists. split; [done|]. simpl.
    destruct (bytes_of_operand v Hr) as (_ & _ & -> & _). done.
Qed.

(** *** The loop of [get_code]: where each instruction lies *)

Lemma stream_end_snoc h a l i :
  stream_end D h a (l ++ [i]) = stream_end D h a l + len D (h i).
Proof. revert a. induction l as [|k r IH]; intros a; simpl; [done|]. apply IH. Qed.

Lemma stream_end_ge h a l : a <= stream_end D h a l.
Proof.
  revert a. induction l as [|k r IH]; intros a; simpl; [lia|].
  specialize (IH (a + len D (h k))). pose proof (len_pos D (h k)). lia.
Qed.

Lemma stream_end_ext (h h' : Store) a l :
  (∀ j, j ∈ l -> opcode (h' j) = opcode (h j)) ->
  stream_end D h' a l = stream_end D h a l.
Proof.
  revert a. induction l as [|k r IH]; intros a Hext; simpl; [done|].
  rewrite (len_opcode D (h k) (h' k)) by (apply Hext; by left).
  apply IH. intros j Hj. apply Hext. by right.
Qed.

Lemma concat_bins_length h a l bss :
  Forall2 (fun i bs => bin D (h i) = Ok bs) l bss ->
  a + Z.of_nat (length (concat bss)) = stream_end D h a l.
Proof.
  intros H. revert a. induction H as [|i bs l bss Hb _ IH]; intros a; simpl.
  - lia.
  - rewrite length_app, <- IH, <- (bin_length _ _ Hb). lia.
Qed.

(** In the concatenation of the binary forms of a contiguous list, the
    bytes of each node start at its address. *)
Lemma concat_bins_at h a l bss :
  Forall2 (fun i bs => bin D (h i) = Ok bs) l bss ->
  contiguous D h a l ->
  ∀ i, i ∈ l ->
    ∃ bs, bin D (h i) = Ok bs ∧
          take (length bs) (drop (Z.to_nat (addr (h i) - a)) (concat bss)) = bs.
Proof.
  intros H. revert a. induction H as [|k bs l bss Hb _ IH]; intros a; simpl.
  - intros _ i Hi. by apply elem_of_nil in Hi.
  - intros [Hk Hc] i [->|Hi]%elem_of_cons.
    + exists bs. split; [done|]. rewrite Hk, Z.sub_diag.
      change (Z.to_nat 0) with 0%nat. rewrite drop_0. apply take_app_length.
    + destruct (IH _ Hc i Hi) as (bsi & Hbi & Ht). exists bsi. split; [done|].
      pose proof (contiguous_lower D _ _ _ _ Hc Hi) as Hlow.
      pose proof (bin_length _ _ Hb) as Hlen.
      replace (Z.to_nat (addr (h i) - a))
        with (length bs + Z.to_nat (addr (h i) - (a + len D (h k))))%nat by lia.
      by rewrite drop_app_add.
Qed.

(** *** Lists that grow at the end *)

Lemma chain_snoc (h h' : Store) cur l n :
  chain h cur l -> n ∉ l ->
  next (h' n) = None ->
  (∀ j, j ∈ l ->
     next (h' j) = if decide (last l = Some j) then Some n else next (h j)) ->
  chain h' (match l with [] => Some n | _ => cur end) (l ++ [n]).
Proof.
  revert cur. induction l as [|a r IH]; intros cur Hc Hn Hnn Hf.
  - simpl. done.
  - simpl in Hc. destruct Hc as [-> Hc]. simpl. split; [done|].
    apply not_elem_of_cons in Hn as [Hna Hnr].
    destruct r as [|b r'].
    + simpl. rewrite Hf by left. simpl. by rewrite decide_True.
    + pose proof (IH (next (h a)) Hc Hnr Hnn) as IH'.
      rewrite Hf by left. rewrite last_cons_cons.
      assert (HND : NoDup (a :: b :: r')).
      { apply (chain_NoDup h (Some a)). simpl. split; [done|exact Hc]. }
      rewrite decide_False.
      * apply IH'. intros j Hj. rewrite Hf by (by right).
        by rewrite last_cons_cons.
      * intros Hl. apply last_Some in Hl as [l' Hl'].
        apply NoDup_cons in HND as [Ha _]. apply Ha. rewrite Hl'.
        apply elem_of_app. right. by left.
Qed.

Lemma back_linked_ext (h h' : Store) p l :
  (∀ j, j ∈ l -> prev (h' j) = prev (h j)) ->
  back_linked h p l -> back_linked h' p l.
Proof.
  revert p. induction l as [|a r IH]; intros p Hext; simpl; [done|].
  intros [Ha Hr]. split; [by rewrite Hext by left|].
  apply IH; [|done]. intros j Hj. apply Hext. by right.
Qed.

Lemma back_linked_snoc h p l n :
  back_linked h p l ->
  prev (h n) = (match last l with Some x => Some x | None => p end) ->
  back_linked h p (l ++ [n]).
Proof.
  revert p. induction l as [|a r IH]; intros p.
  - simpl. intros _ Hn. done.
  - intros [Ha Hr] Hn. split; [done|]. apply IH; [done|].
    destruct r as [|b r']; [done|]. rewrite last_cons_cons in Hn.
    destruct (last (b :: r')) eqn:E; [done|]. by apply last_None in E.
Qed.

Lemma contiguous_snoc h a l n :
  contiguous D h a l -> addr (h n) = stream_end D h a l ->
  contiguous D h a (l ++ [n]).
Proof.
  revert a. induction l as [|k r IH]; intros a; simpl; [done|].
  intros [Hk Hr] Hn. split; [done|]. by apply IH.
Qed.

Lemma contiguous_upper h a l i :
  contiguous D h a l -> i ∈ l ->
  addr (h i) + len D (h i) <= stream_end D h a l.
Proof.
  revert a. induction l as [|k r IH]; intros a; simpl.
  - intros _ Hi. by apply elem_of_nil in Hi.
  - intros [Hk Hr] [->|Hi]%elem_of_cons.
    + rewrite Hk. apply stream_end_ge.
    + by apply IH.
Qed.

Lemma get_target_addr_ext b b' :
  opcode b' = opcode b -> addr b' = addr b -> oparg b' = oparg b ->
  get_target_addr D b' = get_target_addr D b.
Proof.
  intros Ho Ha Hg. unfold get_target_addr.
  by rewrite Ho, Ha, Hg, (len_opcode D _ _ Ho).
Qed.

Lemma targets_of_ext (h h' : Store) l :
  (∀ j, j ∈ l -> opcode (h' j) = opcode (h j) ∧ addr (h' j) = addr (h j) ∧
                 oparg (h' j) = oparg (h j)) ->
  targets_of D h' l = targets_of D h l.
Proof.
  unfold targets_of. induction l as [|k r IH]; intros Hext; [done|].
  rewrite !bind_cons. destruct (Hext k) as (Ho & Ha & Hg); [by left|].
  rewrite (get_target_addr_ext _ _ Ho Ha Hg). f_equal.
  apply IH. intros j Hj. apply Hext. by right.
Qed.

Lemma targets_of_snoc h l n :
  targets_of D h (l ++ [n]) =
  targets_of D h l ++ match get_target_addr D (h n) with
                      | Ok (Some x) => [x]
                      | _ => []
                      end.
Proof. unfold targets_of. rewrite bind_app. simpl. by rewrite app_nil_r. Qed.

(** *** The loop of [parse_bytecode] at base address 0 *)

Lemma buffer_lookup (c : list Z) k j x :
  take 3 (drop k c) !! j = Some x -> c !! (k + j)%nat = Some x.
Proof. rewrite lookup_take_Some, lookup_drop. by intros [? _]. Qed.

Lemma parse_inv_init c :
  parse_inv D c (mkParseVars (fun _ => blank) O ∅ None 0 []).
Proof.
  unfold parse_inv. simpl. split_and!; try done.
  - intros a i. rewrite lookup_empty. split; [done|].
    intros [Hi _]. by apply elem_of_nil in Hi.
  - intros i Hi. by apply elem_of_nil in Hi.
Qed.

(** One turn of the loop keeps the invariant. *)
Lemma parse_inv_step c v nxt t :
  parse_inv D c v ->
  Bytecode_init D (0 + p_offset v)
    (take 3 (drop (Z.to_nat (p_offset v)) c)) (p_prev v) = Ok nxt ->
  get_target_addr D nxt = Ok t ->
  parse_inv D c
    (mkParseVars
       (match p_prev v with
        | Some p => upd (upd (p_store v) (p_fresh v) (fun _ => nxt)) p
                        (set_next (Some (p_fresh v)))
        | None => upd (p_store v) (p_fresh v) (fun _ => nxt)
        end)
       (S (p_fresh v))
       (<[0 + p_offset v := p_fresh v]> (p_bytecodes v))
       (Some (p_fresh v))
       (p_offset v + len D nxt)
       (match t with
        | Some x => p_targets v ++ [x]
        | None => p_targets v
        end)).
Proof.
  intros (Hprev & Hch & Hbl & Hco & Hoff & Hdict & Htg & Hnodes) Hinit Ht.
  destruct (Bytecode_init_fields _ _ _ _ Hinit)
    as (Ba & Bp & Bn & Bx & Bt & Bl & B0 & Bnone & Barg).
  set (n := p_fresh v) in *. set (h := p_store v) in *.
  set (l := seq 0 n) in *.
  set (h2 := match p_prev v with
             | Some p => upd (upd h n (fun _ => nxt)) p (set_next (Some n))
             | None => upd h n (fun _ => nxt)
             end).
  assert (Hnl : n ∉ l) by (unfold l; rewrite elem_of_seq; lia).
  assert (Hoff0 : 0 <= p_offset v).
  { rewrite Hoff. apply stream_end_ge. }
  assert (Hlast : last l ≠ Some n).
  { intros Hl. apply last_Some in Hl as [l' Hl']. apply Hnl. rewrite Hl'.
    apply elem_of_app. right. by left. }
  assert (H2n : h2 n = nxt).
  { unfold h2. rewrite Hprev. destruct (last l) as [p|] eqn:El.
    - rewrite upd_ne by congruence. by rewrite upd_eq.
    - by rewrite upd_eq. }
  assert (H2l : ∀ j, j ∈ l ->
            opcode (h2 j) = opcode (h j) ∧ addr (h2 j) = addr (h j) ∧
            oparg (h2 j) = oparg (h j) ∧ prev (h2 j) = prev (h j) ∧
            xrefs (h2 j) = xrefs (h j) ∧ target (h2 j) = target (h j) ∧
            node_co_lnotab (h2 j) = node_co_lnotab (h j) ∧
            next (h2 j) = if decide (last l = Some j) then Some n
                          else next (h j)).
  { intros j Hj. assert (j ≠ n) by (by intros ->).
    unfold h2. rewrite Hprev. destruct (last l) as [p|] eqn:El.
    - unfold upd. repeat case_decide; simplify_eq; done.
    - rewrite upd_ne by done. rewrite decide_False by done. done. }
  assert (Hseq : seq 0 (S n) = l ++ [n]) by (unfold l; by rewrite seq_S).
  unfold parse_inv. cbn [p_store p_fresh p_bytecodes p_prev p_offset p_targets].
  fold h2. rewrite Hseq.
  assert (Hco2 : contiguous D h2 0 l).
  { eapply contiguous_ext; [|exact Hco]. intros j Hj.
    destruct (H2l j Hj) as (? & ? & _). done. }
  assert (Hend2 : stream_end D h2 0 l = p_offset v).
  { rewrite Hoff. apply stream_end_ext. intros j Hj.
    by destruct (H2l j Hj) as (? & _). }
  split_and!.
  - by rewrite last_snoc.
  - assert (Hhd : (l ++ [n]) !! 0%nat
                  = match l with [] => Some n | _ => l !! 0%nat end).
    { by destruct l. }
    rewrite Hhd. apply (chain_snoc h); try done.
    + by rewrite H2n.
    + intros j Hj. by destruct (H2l j Hj) as (_&_&_&_&_&_&_&?).
  - apply back_linked_snoc.
    + eapply back_linked_ext; [|exact Hbl]. intros j Hj.
      by destruct (H2l j Hj) as (_&_&_&?&_).
    + rewrite H2n, Bp, Hprev. by destruct (last l).
  - apply contiguous_snoc; [done|]. rewrite H2n, Ba, Hend2. lia.
  - rewrite stream_end_snoc, Hend2, H2n. done.
  - intros a i. rewrite elem_of_app, list_elem_of_singleton.
    destruct (decide (a = 0 + p_offset v)) as [->|Ha].
    + rewrite lookup_insert_eq. split.
      * intros [= <-]. split; [by right|]. by rewrite H2n.
      * intros [[Hi| ->] Hai]; [|done]. exfalso.
        destruct (H2l i Hi) as (Ho & Ha' & _).
        pose proof (contiguous_upper _ _ _ _ Hco Hi) as Hup.
        pose proof (len_pos D (h i)). rewrite <- Hoff in Hup. lia.
    + rewrite lookup_insert_ne by done. rewrite Hdict. split.
      * intros [Hi Hai]. split; [by left|].
        destruct (H2l i Hi) as (_ & -> & _). done.
      * intros [[Hi| ->] Hai].
        -- destruct (H2l i Hi) as (_ & Ha' & _). split; [done|congruence].
        -- rewrite H2n, Ba in Hai. done.
  - rewrite targets_of_snoc, H2n, Ht.
    rewrite (targets_of_ext h h2 l).
    + rewrite <- Htg. destruct t; [done|by rewrite app_nil_r].
    + intros j Hj. destruct (H2l j Hj) as (? & ? & ? & _). done.
  - intros i [Hi| ->%list_elem_of_singleton]%elem_of_app.
    + destruct (H2l i Hi) as (-> & -> & -> & _ & -> & -> & -> & _).
      by apply Hnodes.
    + rewrite H2n, Bx, Bt, Bl, Ba.
      replace (Z.to_nat (0 + p_offset v)) with (Z.to_nat (p_offset v) + 0)%nat
        by lia.
      split_and!; try done.
      * by apply buffer_lookup.
      * intros Hge. destruct (Barg Hge) as (b1 & b2 & H1 & H2 & ->).
        exists b1, b2. split_and!; [| |done].
        -- replace (Z.to_nat (0 + p_offset v + 1))
             with (Z.to_nat (p_offset v) + 1)%nat by lia.
           by apply buffer_lookup.
        -- replace (Z.to_nat (0 + p_offset v + 2))
             with (Z.to_nat (p_offset v) + 2)%nat by lia.
           by apply buffer_lookup.
Qed.

Lemma parse_inv_new_node c v nxt :
  parse_inv D c v ->
  match p_prev v with
  | Some p => upd (upd (p_store v) (p_fresh v) (fun _ => nxt)) p
                  (set_next (Some (p_fresh v)))
  | None => upd (p_store v) (p_fresh v) (fun _ => nxt)
  end (p_fresh v) = nxt.
Proof.
  intros (Hprev & _). rewrite Hprev.
  destruct (last (seq 0 (p_fresh v))) as [p|] eqn:El.
  - rewrite upd_ne, upd_eq; [done|]. intros Heq.
    apply last_Some in El as [l' Hl'].
    assert (Hin : p ∈ seq 0 (p_fresh v)).
    { rewrite Hl'. apply elem_of_app. right. by left. }
    apply elem_of_seq in Hin. lia.
  - by rewrite upd_eq.
Qed.

Lemma parse_loop_inv c fuel : ∀ v v',
  parse_inv D c v -> parse_loop D fuel 0 c v = Ok v' ->
  parse_inv D c v' ∧ Z.of_nat (length c) <= p_offset v'.
Proof.
  induction fuel as [|f IH]; intros v v' Hinv; cbn [parse_loop].
  - case_bool_decide; [done|]. intros [= <-]. split; [done|lia].
  - case_bool_decide as Hlt; [|intros [= <-]; split; [done|lia]].
    intros (nxt & Hinit & (k & Hk & H)%bind_Ok)%bind_Ok.
    unfold getitem in Hk. rewrite Z.add_0_l, lookup_insert_eq in Hk.
    injection Hk as <-. rewrite upd_eq in H.
    apply bind_Ok in H as (t & Ht & H).
    rewrite (parse_inv_new_node c v nxt Hinv) in Ht.
    rewrite <- (Z.add_0_l (p_offset v)) in H at 1.
    apply (IH _ _ (parse_inv_step c v nxt t Hinv Hinit Ht)).
    rewrite Z.add_0_l. rewrite Z.add_0_l in H. exact H.
Qed.

Lemma contiguous_last h a l :
  contiguous D h a l -> l ≠ [] ->
  ∃ i, last l = Some i ∧ stream_end D h a l = addr (h i) + len D (h i).
Proof.
  revert a. induction l as [|k r IH]; intros a; [done|].
  simpl. intros [Hk Hr] _. destruct r as [|k' r'].
  - exists k. simpl. split; [done|]. by rewrite Hk.
  - destruct (IH _ Hr) as (i & Hl & He); [done|]. exists i.
    split; [|done]. by rewrite last_cons_cons.
Qed.

(** The loop never reads past the end of the stream. *)
Lemma parse_inv_bound c v :
  parse_inv D c v -> p_offset v <= Z.of_nat (length c).
Proof.
  intros (_ & _ & _ & Hco & Hoff & _ & _ & Hnodes).
  destruct (seq 0 (p_fresh v)) as [|k r] eqn:El.
  - rewrite Hoff. simpl. lia.
  - destruct (contiguous_last _ _ _ Hco) as (i & Hl & He); [done|].
    rewrite Hoff, He.
    assert (Hi : i ∈ k :: r).
    { apply last_Some in Hl as [l' ->]. apply elem_of_app. right. by left. }
    destruct (Hnodes i Hi) as (_ & _ & _ & H0 & _ & Harg).
    pose proof (contiguous_lower D _ _ _ _ Hco Hi) as Hlow.
    unfold len. case_bool_decide as Hop.
    + apply lookup_lt_Some in H0. lia.
    + destruct Harg as (b1 & b2 & _ & H2 & _); [lia|].
      apply lookup_lt_Some in H2. lia.
Qed.

(** What a [parse_bytecode] at base address 0 that returns has gone
    through: the loop ended on the invariant at the end of the stream, the
    head is the first node, and [apply_labels] returned. *)
Lemma parse_bytecode_Ok fuel c p g :
  parse_bytecode D fuel 0 c = (p, Ok g) ->
  ∃ v, parse_inv D (co_code c) v ∧
       p_offset v = Z.of_nat (length (co_code c)) ∧
       (0 < p_fresh v)%nat ∧
       p = filter (fun x => p_bytecodes v !! x = None) (p_targets v) ∧
       apply_labels D fuel
         (mkGraph 0 c (Some 0%nat) (p_bytecodes v) (p_store v) (p_fresh v))
         None = Ok g.
Proof.
  unfold parse_bytecode.
  destruct (parse_loop D _ 0 (co_code c) _) as [v| |] eqn:El; try done.
  intros [= <- H]. apply bind_Ok in H as (hd & Hhd & Ha).
  destruct (parse_loop_inv _ _ _ _ (parse_inv_init (co_code c)) El)
    as [Hinv Hge].
  pose proof (parse_inv_bound _ _ Hinv) as Hle.
  exists v. unfold getitem in Hhd.
  destruct (p_bytecodes v !! 0) as [i|] eqn:E0; [|done].
  injection Hhd as <-.
  destruct Hinv as (Hprev & Hch & Hbl & Hco & Hoff & Hdict & Htg & Hnodes).
  apply Hdict in E0 as [Hi Hai].
  assert (Hfresh : (0 < p_fresh v)%nat).
  { apply elem_of_seq in Hi. lia. }
  assert (i = 0%nat) as ->.
  { destruct (p_fresh v) as [|n]; [lia|]. simpl in Hco, Hi.
    destruct Hco as [H0 Hr].
    apply elem_of_cons in Hi as [->|Hi]; [done|].
    pose proof (contiguous_lower D _ _ _ _ Hr Hi).
    pose proof (len_pos D (p_store v 0%nat)). lia. }
  split_and!; try done. lia.
Qed.

Lemma apply_labels_Ok_nodes fuel g start g' :
  apply_labels D fuel g start = Ok g' -> ∃ l, nodes fuel g start = Some l.
Proof.
  unfold apply_labels, nodes. intros (s1 & E1 & _)%bind_Ok.
  apply (for_nodes_Ok_nodes _ apply_labels_clear_next _ _ _ _ E1).
Qed.

(** The graph a [parse_bytecode] at base address 0 returns: its list is
    the list of the invariant, and only targets and cross-references were
    added to the nodes. *)
Lemma parse_bytecode_graph fuel c g :
  (parse_bytecode D fuel 0 c).2 = Ok g ->
  ∃ v, let l := seq 0 (p_fresh v) in
       parse_inv D (co_code c) v ∧
       p_offset v = Z.of_nat (length (co_code c)) ∧
       (0 < p_fresh v)%nat ∧
       (parse_bytecode D fuel 0 c).1
         = filter (fun x => p_bytecodes v !! x = None) (p_targets v) ∧
       nodes fuel g None = Some l ∧
       base g = 0 ∧ code g = c ∧ head g = Some 0%nat ∧
       bytecodes g = p_bytecodes v ∧
       (∀ j, same_but_links (p_store v j) (store g j)) ∧
       xref_inv l l (store g) ∧
       (∀ i lab, i ∈ l -> HAVE_ARGUMENT D <= opcode (p_store v i) ->
          jump_label D (p_store v i) = Ok (Some lab) -> 0 <= lab ->
          ∃ t, p_bytecodes v !! lab = Some t ∧ target (store g i) = Some t).
Proof.
  destruct (parse_bytecode D fuel 0 c) as [p r] eqn:E. simpl. intros ->.
  destruct (parse_bytecode_Ok _ _ _ _ E) as (v & Hinv & Hoff & Hn & Hp & Ha).
  exists v. cbv zeta.
  destruct (apply_labels_Ok_nodes _ _ _ _ Ha) as [l' Hl'].
  assert (l' = seq 0 (p_fresh v)) as ->.
  { destruct Hinv as (_ & Hch & _).
    apply nodes_from_chain in Hl'. simpl in Hl'.
    eapply chain_det; [exact Hl'|].
    rewrite lookup_seq_lt in Hch by done. exact Hch. }
  destruct (apply_labels_spec D _ _ _ _ _ Hl' Ha) as (Hg & Hrel & Hx & Hres).
  simpl in *. split_and!; try done; try (by rewrite Hg).
  rewrite Hg. unfold nodes in *. simpl in *. rewrite <- Hl'.
  apply nodes_from_ext. intros j. by destruct (Hrel j) as (_&_&_&_&?&_).
Qed.

End Bytes.

(** X1. The decoder at base address 0. When [parse_bytecode] returns a
    graph, the list from [head] is not empty and is linked both ways; its
    nodes lie one after the other from address 0 to the length of the
    stream; the dictionary holds exactly the nodes of the list, each under
    its address; and every node holds the opcode the stream has at its
    address, with the two bytes after it as little-endian operand when the
    opcode takes an argument and no operand otherwise. *)
Theorem parse_bytecode_structure (D : Dis) fuel c g :
  (parse_bytecode D fuel 0 c).2 = Ok g ->
  ∃ l, nodes fuel g None = Some l ∧ l ≠ [] ∧ head g = l !! 0%nat ∧
       back_linked (store g) None l ∧
       contiguous D (store g) 0 l ∧
       stream_end D (store g) 0 l = Z.of_nat (length (co_code c)) ∧
       (∀ a i, bytecodes g !! a = Some i ↔ i ∈ l ∧ addr (store g i) = a) ∧
       (∀ i, i ∈ l ->
          co_code c !! Z.to_nat (addr (store g i)) = Some (opcode (store g i)) ∧
          (opcode (store g i) < HAVE_ARGUMENT D -> oparg (store g i) = None) ∧
          (HAVE_ARGUMENT D <= opcode (store g i) ->
           ∃ b1 b2,
             co_code c !! Z.to_nat (addr (store g i) + 1) = Some b1 ∧
             co_code c !! Z.to_nat (addr (store g i) + 2) = Some b2 ∧
             oparg (store g i) = Some (Z.lor b1 (Z.shiftl b2 8)))).
Proof.
  intros Hp.
  destruct (parse_bytecode_graph D _ _ _ Hp)
    as (v & Hinv & Hoff & Hn & _ & Hl & _ & _ & Hh & Hb & Hrel & _).
  cbv zeta in *.
  destruct Hinv as (_ & _ & Hbl & Hco & Hend & Hdict & _ & Hnodes).
  exists (seq 0 (p_fresh v)).
  assert (Hf : ∀ j, opcode (store g j) = opcode (p_store v j) ∧
                    addr (store g j) = addr (p_store v j) ∧
                    oparg (store g j) = oparg (p_store v j) ∧
                    prev (store g j) = prev (p_store v j)).
  { intros j. by destruct (Hrel j) as (? & ? & ? & ? & _). }
  split_and!.
  - done.
  - destruct (p_fresh v); [lia|done].
  - rewrite Hh. by rewrite lookup_seq_lt.
  - eapply back_linked_ext; [|exact Hbl]. intros j _. by destruct (Hf j) as (_&_&_&?).
  - eapply contiguous_ext; [|exact Hco]. intros j _.
    by destruct (Hf j) as (? & ? & _).
  - rewrite <- Hoff, Hend. apply stream_end_ext. intros j _.
    by destruct (Hf j) as (? & _).
  - intros a i. rewrite Hb, Hdict. by destruct (Hf i) as (_ & -> & _).
  - intros i Hi. destruct (Hf i) as (-> & -> & -> & _).
    destruct (Hnodes i Hi) as (_ & _ & _ & ? & ? & ?). done.
Qed.

Lemma parse_bytecode_structure_witness :
  ∃ l, nodes 10 (from_res (parse_bytecode py27 10 0 code_if).2) None = Some l ∧
       l ≠ [] ∧
       head (from_res (parse_bytecode py27 10 0 code_if).2) = l !! 0%nat ∧
       back_linked (store (from_res (parse_bytecode py27 10 0 code_if).2))
         None l ∧
       contiguous py27 (store (from_res (parse_bytecode py27 10 0 code_if).2))
         0 l ∧
       stream_end py27 (store (from_res (parse_bytecode py27 10 0 code_if).2))
         0 l = Z.of_nat (length (co_code code_if)) ∧
       (∀ a i, bytecodes (from_res (parse_bytecode py27 10 0 code_if).2) !! a
               = Some i ↔
               i ∈ l ∧
               addr (store (from_res (parse_bytecode py27 10 0 code_if).2) i)
               = a) ∧
       (∀ i, i ∈ l ->
          co_code code_if
            !! Z.to_nat
                 (addr (store (from_res (parse_bytecode py27 10 0 code_if).2) i))
          = Some (opcode (store (from_res (parse_bytecode py27 10 0 code_if).2) i)) ∧
          (opcode (store (from_res (parse_bytecode py27 10 0 code_if).2) i)
           < HAVE_ARGUMENT py27 ->
           oparg (store (from_res (parse_bytecode py27 10 0 code_if).2) i)
           = None) ∧
          (HAVE_ARGUMENT py27
           <= opcode (store (from_res (parse_bytecode py27 10 0 code_if).2) i) ->
           ∃ b1 b2,
             co_code code_if
               !! Z.to_nat
                    (addr (store (from_res (parse_bytecode py27 10 0 code_if).2) i)
                     + 1) = Some b1 ∧
             co_code code_if
               !! Z.to_nat
                    (addr (store (from_res (parse_bytecode py27 10 0 code_if).2) i)
                     + 2) = Some b2 ∧
             oparg (store (from_res (parse_bytecode py27 10 0 code_if).2) i)
             = Some (Z.lor b1 (Z.shiftl b2 8)))).
Proof.
  apply (parse_bytecode_structure py27 10 code_if).
  apply from_res_Ok. vm_compute. reflexivity.
Defined.

Section RoundTrip.

Variable D : Dis.

(** *** The byte stream through decoding and encoding *)

Lemma for_nodes_rel {A} (R : Bytecode -> Bytecode -> Prop)
    (body : nat -> Store * A -> res (Store * A)) :
  (∀ b, R b b) -> (∀ a b c, R a b -> R b c -> R a c) ->
  (∀ i s s', body i s = Ok s' -> ∀ j, R (s.1 j) (s'.1 j)) ->
  ∀ fuel cur s s', for_nodes fuel body cur s = Ok s' ->
    ∀ j, R (s.1 j) (s'.1 j).
Proof.
  intros Hr Ht Hb. induction fuel as [|f IH]; intros [i|] s s'; simpl;
    try done; try (intros [= <-] j; apply Hr).
  intros (s1 & E & Hrun)%bind_Ok j.
  eapply Ht; [eapply Hb, E|eapply IH, Hrun].
Qed.

Lemma same_but_line_refl b : same_but_line b b.
Proof. by unfold same_but_line. Qed.

Lemma same_but_line_trans a b c :
  same_but_line a b -> same_but_line b c -> same_but_line a c.
Proof. unfold same_but_line. intros ? ?. intuition congruence. Qed.

Lemma apply_lineno_body_rel x s s' :
  apply_lineno_body x s = Ok s' -> ∀ j, same_but_line (s.1 j) (s'.1 j).
Proof.
  unfold apply_lineno_body; cbv zeta. intros [= <-] j. simpl.
  unfold upd, same_but_line. by case_decide.
Qed.

(** [apply_lineno] assigns lines and nothing else. *)
Lemma apply_lineno_spec fuel g g' :
  apply_lineno fuel g = Ok g' ->
  base g' = base g ∧ code g' = code g ∧ head g' = head g ∧
  bytecodes g' = bytecodes g ∧
  ∀ j, same_but_line (store g j) (store g' j).
Proof.
  unfold apply_lineno; cbv zeta.
  destruct (running_linenos _ _ _) as [|[a0 l0] [|[a1 l1] r]].
  - intros [= <-]. split_and!; done.
  - done.
  - intros (s & Hs & [= <-])%bind_Ok. simpl. split_and!; try done.
    apply (for_nodes_rel same_but_line _ same_but_line_refl
             same_but_line_trans apply_lineno_body_rel _ _ _ _ Hs).
Qed.

Lemma contiguous_unique (h h' : Store) a l :
  contiguous D h a l -> contiguous D h' a l ->
  (∀ j, j ∈ l -> opcode (h' j) = opcode (h j)) ->
  ∀ j, j ∈ l -> addr (h' j) = addr (h j).
Proof.
  revert a. induction l as [|k r IH]; intros a; simpl.
  - intros _ _ _ j Hj. by apply elem_of_nil in Hj.
  - intros [Hk Hr] [Hk' Hr'] Ho j [->|Hj]%elem_of_cons; [congruence|].
    rewrite (len_opcode D (h k) (h' k)) in Hr' by (apply Ho; by left).
    apply (IH _ Hr Hr'); [|done]. intros i Hi. apply Ho. by right.
Qed.

(** [patch_opargs] leaves the operand of a node that is not a jump. *)
Lemma patch_loop_other l : ∀ s s' i,
  run_list (patch_opargs_body D) l s = Ok s' ->
  ¬ is_jump D (s.1 i) -> oparg (s'.1 i) = oparg (s.1 i).
Proof.
  induction l as [|k r IH]; intros s s' i; cbn [run_list].
  - by intros [= <-].
  - intros (s1 & E & Hrun)%bind_Ok Hnj.
    destruct (patch_body_rel D _ _ _ E i) as (Ho & _).
    rewrite (IH _ _ i Hrun) by (unfold is_jump in *; by rewrite Ho).
    destruct (decide (i = k)) as [->|Hik].
    + revert E. unfold patch_opargs_body, is_jump in *; cbv zeta.
      repeat case_bool_decide; try (intros [= <-]; done);
        exfalso; apply Hnj; split; (lia || auto).
    + by rewrite (patch_body_outside D _ _ _ E i Hik).
Qed.

Lemma take_slice (c : list Z) a x :
  c !! a = Some x -> take 1 (drop a c) = [x].
Proof.
  intros H. apply list_eq. intros [|j]; simpl.
  - rewrite lookup_take_lt, lookup_drop by lia. by rewrite Nat.add_0_r.
  - by rewrite lookup_take_ge by lia.
Qed.

Lemma take_slice3 (c : list Z) a x y z :
  c !! a = Some x -> c !! (a + 1)%nat = Some y -> c !! (a + 2)%nat = Some z ->
  take 3 (drop a c) = [x; y; z].
Proof.
  intros Hx Hy Hz. apply list_eq. intros [|[|[|j]]]; simpl.
  - rewrite lookup_take_lt, lookup_drop by lia. by rewrite Nat.add_0_r.
  - rewrite lookup_take_lt, lookup_drop by lia. done.
  - rewrite lookup_take_lt, lookup_drop by lia. done.
  - by rewrite lookup_take_ge by lia.
Qed.

(** The slices of a stream at the nodes of a contiguous list make up the
    stream between the first address and the end. *)
Lemma concat_slices (c : list Z) h l : ∀ a bss,
  0 <= a -> contiguous D h a l ->
  Forall2 (fun i bs => bs = take (Z.to_nat (len D (h i)))
                              (drop (Z.to_nat (addr (h i))) c)) l bss ->
  concat bss = take (Z.to_nat (stream_end D h a l - a)) (drop (Z.to_nat a) c).
Proof.
  induction l as [|k r IH]; intros a bss Ha Hc Hall.
  - apply Forall2_nil_inv_l in Hall as ->. simpl. by rewrite Z.sub_diag.
  - apply Forall2_cons_inv_l in Hall as (bs & bss' & -> & Hall & ->).
    simpl in Hc. destruct Hc as [Hk Hr]. simpl.
    pose proof (len_pos D (h k)) as Hpos.
    rewrite (IH (a + len D (h k)) bss') by (done || lia).
    pose proof (stream_end_ge D h (a + len D (h k)) r) as Hge.
    rewrite Hk.
    replace (Z.to_nat (a + len D (h k)))
      with (Z.to_nat a + Z.to_nat (len D (h k)))%nat by lia.
    rewrite <- drop_drop, take_take_drop. f_equal. lia.
Qed.

Lemma Forall2_impl_elem {A B} (P Q : A -> B -> Prop) l k :
  Forall2 P l k -> (∀ x y, x ∈ l -> P x y -> Q x y) -> Forall2 Q l k.
Proof.
  induction 1 as [|x y l k Hxy _ IH]; intros Himp; constructor.
  - apply Himp; [by left|done].
  - apply IH. intros x' y' Hx'. apply Himp. by right.
Qed.

(** [refactor] leaves the operand of a node that is not a jump. *)
Lemma refactor_other fuel g g' l i :
  nodes fuel g None = Some l -> refactor D fuel g = Ok g' ->
  ¬ is_jump D (store g i) -> oparg (store g' i) = oparg (store g i).
Proof.
  unfold nodes, refactor. cbn [start_of].
  intros Hn (s1 & E1 & (g2 & E2 & E3)%bind_Ok)%bind_Ok Hnj.
  rewrite (for_nodes_run_list _ (refactor_body_next D) _ _ _ l) in E1 by done.
  pose proof (refactor_loop_rel D _ _ _ E1) as R1. simpl in R1.
  assert (Hn1 : nodes_from fuel s1.1 (head g) = Some l).
  { rewrite <- Hn. apply nodes_from_ext. intros j.
    by destruct (R1 j) as (_&_&_&?&_). }
  unfold patch_opargs in E2. cbn [start_of head store] in E2.
  apply bind_Ok in E2 as (s2 & E2 & [= <-]).
  rewrite (for_nodes_run_list _ (patch_body_next D) _ _ _ l) in E2 by done.
  assert (Hn2 : nodes fuel
                  (with_store (mkGraph (base g) (code g) (head g) s1.2.2 s1.1
                                 (fresh g)) s2.1) None = Some l).
  { unfold nodes. simpl. rewrite <- Hn1. apply nodes_from_ext. intros j.
    by destruct (patch_loop_rel D _ _ _ E2 j) as (_&_&_&?&_). }
  destruct (apply_labels_spec D _ _ _ _ _ Hn2 E3) as (_ & R3 & _).
  destruct (R3 i) as (_ & _ & -> & _). simpl.
  rewrite (patch_loop_other _ _ _ i E2).
  - by destruct (R1 i) as (_ & ? & _).
  - simpl. destruct (R1 i) as (Ho & _). unfold is_jump in *. by rewrite Ho.
Qed.

(** On a list that is laid out and resolved, [refactor] changes no
    address and no operand. *)
Lemma refactor_resolved_id fuel g g' l :
  nodes fuel g None = Some l -> resolved_layout D g l ->
  refactor D fuel g = Ok g' ->
  ∀ i, i ∈ l -> addr (store g' i) = addr (store g i) ∧
                opcode (store g' i) = opcode (store g i) ∧
                oparg (store g' i) = oparg (store g i).
Proof.
  intros Hn [Hlay Hres] Hr.
  destruct (refactor_spec D _ _ _ _ Hn Hr)
    as (h1 & h2 & Hb & Hh & _ & R1 & R2 & R3 & Hc & _ & Hp & _).
  destruct (refactor_frame fuel g g' l h1 h2 R1 R2 R3 Hh Hn) as [_ Hf].
  assert (Ha : ∀ j, j ∈ l -> addr (h1 j) = addr (store g j)).
  { apply (contiguous_unique _ _ (base g)); [done|done|].
    intros j _. by destruct (R1 j) as (? & _). }
  intros i Hi. destruct (Hf i) as (Ho & Hai & Hgi & Hti).
  split_and!; [by rewrite Hai, Ha|done|].
  destruct (decide (is_jump D (store g i))) as [Hj|Hnj];
    [|by apply (refactor_other fuel g g' l)].
  destruct (Hres i Hi Hj) as (t & lab & Ht & Htl & Hl & Hat).
  destruct Hj as [Hop Hjj].
  destruct (R1 i) as (Ho1 & _ & _ & _ & _ & Ht1 & _).
  specialize (Hp i Hi). unfold patched in Hp.
  rewrite Ho1, Ht1, Ht, (Ha i Hi), (len_opcode D _ _ Ho1) in Hp.
  destruct (Hp Hop) as [P1 P2]. rewrite Hgi.
  unfold jump_label in Hl.
  destruct (decide (opcode (store g i) ∈ hasjrel D)) as [Hrel|Hnrel].
  - rewrite bool_decide_true in Hl by done.
    destruct (oparg (store g i)) as [o|]; [|done].
    destruct (P1 Hrel) as (t' & [= <-] & ->).
    rewrite (Ha t Htl), Hat. injection Hl as <-. f_equal. lia.
  - rewrite bool_decide_false in Hl by done.
    destruct Hjj as [?|Habs]; [done|].
    rewrite bool_decide_true in Hl by done.
    destruct (P2 Hnrel Habs) as (t' & [= <-] & ->).
    rewrite (Ha t Htl), Hat. by injection Hl as ->.
Qed.

Lemma bin_ext b b' :
  opcode b' = opcode b -> oparg b' = oparg b -> bin D b' = bin D b.
Proof. intros Ho Hg. unfold bin. by rewrite Ho, Hg. Qed.

(** A node that holds the bytes of [c] at its address encodes to them. *)
Lemma node_bin_slice (c : list Z) b :
  Forall is_byte c -> 0 <= addr b ->
  c !! Z.to_nat (addr b) = Some (opcode b) ->
  (opcode b < HAVE_ARGUMENT D -> oparg b = None) ->
  (HAVE_ARGUMENT D <= opcode b ->
   ∃ b1 b2, c !! Z.to_nat (addr b + 1) = Some b1 ∧
            c !! Z.to_nat (addr b + 2) = Some b2 ∧
            oparg b = Some (Z.lor b1 (Z.shiftl b2 8))) ->
  bin D b = Ok (take (Z.to_nat (len D b)) (drop (Z.to_nat (addr b)) c)).
Proof.
  intros Hc Ha H0 Hnone Harg.
  assert (Hb0 : is_byte (opcode b)).
  { eapply Forall_lookup_1; eauto. }
  unfold bin, len, pack_B, pack_H.
  destruct (decide (HAVE_ARGUMENT D <= opcode b)) as [Hge|Hlt].
  - destruct (Harg Hge) as (b1 & b2 & H1 & H2 & ->).
    assert (B1 : is_byte b1) by (eapply Forall_lookup_1; eauto).
    assert (B2 : is_byte b2) by (eapply Forall_lookup_1; eauto).
    destruct (operand_of_bytes b1 b2 B1 B2) as (E1 & E2 & E3).
    rewrite (bool_decide_true (HAVE_ARGUMENT D <= opcode b)) by done.
    rewrite (bool_decide_false (opcode b < HAVE_ARGUMENT D)) by lia.
    rewrite (bool_decide_true (0 <= opcode b <= 255)) by done. simpl.
    rewrite (bool_decide_true _ E3). simpl. rewrite E1, E2.
    replace (Z.to_nat (addr b + 1)) with (Z.to_nat (addr b) + 1)%nat in H1
      by lia.
    replace (Z.to_nat (addr b + 2)) with (Z.to_nat (addr b) + 2)%nat in H2
      by lia.
    change (Z.to_nat 3) with 3%nat. by rewrite (take_slice3 c _ _ _ _ H0 H1 H2).
  - rewrite (bool_decide_false (HAVE_ARGUMENT D <= opcode b)) by done.
    rewrite (bool_decide_true (opcode b < HAVE_ARGUMENT D)) by lia.
    rewrite (bool_decide_true (0 <= opcode b <= 255)) by done.
    change (Z.to_nat 1) with 1%nat. by rewrite (take_slice c _ _ H0).
Qed.

(** The graph the constructor returns at base address 0, for a stream of
    bytes: laid out, resolved, and each node encodes to the bytes of the
    stream at its address. *)
Lemma BytecodeGraph_init_graph fuel c g :
  Forall is_byte (co_code c) ->
  (BytecodeGraph_init D fuel c 0).2 = Ok g ->
  ∃ l, nodes fuel g None = Some l ∧ base g = 0 ∧ code g = c ∧
       resolved_layout D g l ∧
       stream_end D (store g) 0 l = Z.of_nat (length (co_code c)) ∧
       (∀ i, i ∈ l ->
          bin D (store g i)
          = Ok (take (Z.to_nat (len D (store g i)))
                     (drop (Z.to_nat (addr (store g i))) (co_code c)))).
Proof.
  intros Hbytes. unfold BytecodeGraph_init. cbn [snd].
  intros (g0 & Hp & Hln)%bind_Ok.
  destruct (parse_bytecode_graph D _ _ _ Hp)
    as (v & Hinv & Hoff & Hn & _ & Hl & Hb & Hcode & Hh & Hbc & Hrel & _ & Hres).
  cbv zeta in *.
  destruct (apply_lineno_spec _ _ _ Hln) as (Hb' & Hc' & Hh' & Hbc' & Hline).
  destruct Hinv as (_ & _ & _ & Hco & Hend & Hdict & _ & Hnodes).
  set (l := seq 0 (p_fresh v)) in *.
  assert (Hf : ∀ j, opcode (store g j) = opcode (p_store v j) ∧
                    addr (store g j) = addr (p_store v j) ∧
                    oparg (store g j) = oparg (p_store v j) ∧
                    target (store g j) = target (store g0 j) ∧
                    next (store g j) = next (store g0 j)).
  { intros j. destruct (Hrel j) as (? & ? & ? & _).
    destruct (Hline j) as (? & ? & ? & _ & ? & _ & ?).
    split_and!; congruence. }
  assert (Hco' : contiguous D (store g) 0 l).
  { eapply contiguous_ext; [|exact Hco]. intros j _.
    by destruct (Hf j) as (? & ? & _). }
  exists l. split_and!.
  - unfold nodes in *. cbn [start_of] in *. rewrite Hh', <- Hl.
    apply nodes_from_ext. intros j. by destruct (Hf j) as (_&_&_&_&?).
  - congruence.
  - congruence.
  - split; [by rewrite Hb', Hb|].
    intros i Hi [Hop Hjj]. destruct (Hf i) as (Ho & Ha & Hg & Ht & _).
    rewrite Ho in Hop, Hjj.
    destruct (Hnodes i Hi) as (_ & _ & _ & _ & _ & Harg).
    destruct (Harg Hop) as (b1 & b2 & H1 & H2 & Hoa).
    assert (B1 : is_byte b1) by (eapply Forall_lookup_1; eauto).
    assert (B2 : is_byte b2) by (eapply Forall_lookup_1; eauto).
    destruct (operand_of_bytes b1 b2 B1 B2) as (_ & _ & E3).
    pose proof (contiguous_lower D _ _ _ _ Hco Hi) as Hlow.
    pose proof (len_pos D (p_store v i)) as Hpos.
    assert (Hlab : ∃ lab, jump_label D (p_store v i) = Ok (Some lab)
                          ∧ 0 <= lab).
    { unfold jump_label. rewrite Hoa. case_bool_decide.
      - eexists. split; [done|]. lia.
      - destruct Hjj as [?|?]; [done|]. rewrite bool_decide_true by done.
        eexists. split; [done|]. lia. }
    destruct Hlab as (lab & Hlab & Hlab0).
    destruct (Hres i lab Hi Hop Hlab Hlab0) as (t & Hlk & Htg).
    apply Hdict in Hlk as [Htl Hat].
    exists t, lab. split_and!; [congruence|done| |].
    + rewrite <- Hlab. unfold jump_label.
      by rewrite Ho, Ha, Hg, (len_opcode D _ _ Ho).
    + destruct (Hf t) as (_ & -> & _). done.
  - rewrite <- Hoff, Hend. apply stream_end_ext. intros j _.
    by destruct (Hf j) as (? & _).
  - intros i Hi. destruct (Hf i) as (Ho & Ha & Hg & _).
    destruct (Hnodes i Hi) as (_ & _ & _ & H0 & Hnone & Harg).
    pose proof (contiguous_lower D _ _ _ _ Hco Hi) as Hlow.
    apply node_bin_slice; rewrite ?Ho, ?Ha, ?Hg; done.
Qed.

End RoundTrip.

(** X2. The byte stream round trip. For a stream of bytes decoded at base
    address 0, whenever the constructor returns a graph and [get_code],
    called on it at once, returns a code object, the [co_code] of that
    code object is the stream that was decoded. *)
Theorem get_code_returns_stream (D : Dis) fuel c g out :
  Forall is_byte (co_code c) ->
  (BytecodeGraph_init D fuel c 0).2 = Ok g ->
  get_code D fuel g None = Ok out ->
  co_code out = co_code c.
Proof.
  intros Hbytes Hinit Hget.
  destruct (BytecodeGraph_init_graph D _ _ _ Hbytes Hinit)
    as (l & Hn & Hb & _ & Hres & Hend & Hbin).
  destruct (get_code_complete D _ _ _ _ Hget)
    as (g1 & l1 & bss & Hr & _ & Hn1 & Hall & ->).
  destruct (refactor_spec D _ _ _ _ Hn Hr)
    as (h1 & h2 & _ & Hh & _ & R1 & R2 & R3 & _).
  destruct (refactor_frame fuel g g1 l h1 h2 R1 R2 R3 Hh Hn) as [Hn1' _].
  rewrite Hn1' in Hn1. injection Hn1 as <-.
  pose proof (refactor_resolved_id D _ _ _ _ Hn Hres Hr) as Hid.
  destruct Hres as [Hlay _]. rewrite Hb in Hlay.
  rewrite (concat_slices D (co_code c) (store g) l 0 bss); [| lia | done |].
  - rewrite Hend, Z.sub_0_r, Nat2Z.id. change (Z.to_nat 0) with 0%nat.
    rewrite drop_0. by apply take_ge.
  - eapply Forall2_impl_elem; [exact Hall|]. intros i bs Hi Hbs. simpl in Hbs.
    destruct (Hid i Hi) as (_ & Ho & Hg).
    rewrite (bin_ext D _ _ Ho Hg), (Hbin i Hi) in Hbs. by injection Hbs as <-.
Qed.

Lemma get_code_returns_stream_witness :
  co_code (mkCode (co_code code_if) 1 [0; 1; 6; 1; 7; 2]) = co_code code_if.
Proof.
  apply (get_code_returns_stream py27 10 code_if graph_if).
  - by_eval.
  - apply from_res_Ok. vm_compute. reflexivity.
  - vm_compute. reflexivity.
Defined.

Section Diagnostics.

Variable D : Dis.

(** *** The diagnostic of [parse_bytecode] *)

Lemma stream_end_count h a l :
  a + Z.of_nat (length l) <= stream_end D h a l.
Proof.
  revert a. induction l as [|k r IH]; intros a; simpl; [lia|].
  specialize (IH (a + len D (h k))). pose proof (len_pos D (h k)). lia.
Qed.

(** With tables that are well formed, the address [get_target_addr]
    returns is the label of [apply_labels]. *)
Lemma get_target_addr_label b x :
  dis_wf D -> get_target_addr D b = Ok (Some x) ->
  is_jump D b ∧ jump_label D b = Ok (Some x).
Proof.
  intros (W1 & W2 & W3). unfold get_target_addr, jump_label, is_jump.
  destruct (decide (opcode b ∈ hasjrel D)) as [Hr|Hr].
  - rewrite !(bool_decide_true (opcode b ∈ hasjrel D)) by done.
    rewrite (bool_decide_false (opcode b ∈ hasjabs D)) by auto.
    destruct (oparg b); [|done]. simpl. intros [= <-]. auto.
  - rewrite !(bool_decide_false (opcode b ∈ hasjrel D)) by done. simpl.
    case_bool_decide as Ha; [|done]. intros [= ->]. auto.
Qed.

Lemma nonlinear_raises fuel c :
  dis_wf D -> Forall is_byte (co_code c) ->
  (length (co_code c) <= fuel)%nat ->
  (parse_bytecode D fuel 0 c).1 ≠ [] ->
  ∃ e, (parse_bytecode D fuel 0 c).2 = Raise e.
Proof.
  intros Hwf Hbytes Hfuel. unfold parse_bytecode.
  destruct (parse_loop D _ 0 (co_code c) _) as [v| |] eqn:El; try done.
  cbn [fst snd]. intros Hne.
  destruct (parse_loop_inv D _ _ _ _ (parse_inv_init D (co_code c)) El)
    as [Hinv Hge].
  pose proof (parse_inv_bound D _ _ Hinv) as Hle.
  unfold getitem at 1.
  destruct (p_bytecodes v !! 0) as [hd|] eqn:E0; cbn [mbind res_bind];
    [|eauto].
  - destruct Hinv as (_ & Hch & _ & Hco & Hoff & Hdict & Htg & Hnodes).
    set (l := seq 0 (p_fresh v)) in *.
    destruct (filter _ (p_targets v)) as [|x r] eqn:Ef; [done|].
    assert (Hx : x ∈ filter (fun x => p_bytecodes v !! x = None) (p_targets v)).
    { rewrite Ef. by left. }
    apply list_elem_of_filter in Hx as [Hnone Hx].
    rewrite Htg in Hx. unfold targets_of in Hx.
    apply list_elem_of_bind in Hx as (i & Hxi & Hi).
    destruct (get_target_addr D (p_store v i)) as [[y|]| |] eqn:Et;
      try (by apply elem_of_nil in Hxi).
    apply list_elem_of_singleton in Hxi as ->.
    destruct (get_target_addr_label _ _ Hwf Et) as [[Hop Hjj] Hlab].
    apply Hdict in E0 as [Hhd Hahd].
    assert (hd = 0%nat) as ->.
    { unfold l in *. destruct (p_fresh v) as [|n].
      - by apply elem_of_nil in Hhd.
      - simpl in Hco, Hhd. destruct Hco as [H0 Hr].
        apply elem_of_cons in Hhd as [->|Hhd]; [done|].
        pose proof (contiguous_lower D _ _ _ _ Hr Hhd).
        pose proof (len_pos D (p_store v 0%nat)). lia. }
    apply (apply_labels_unresolved_raises D fuel _ l i y); try done.
    + unfold nodes. simpl. apply chain_nodes_from.
      * assert (l !! 0%nat = Some 0%nat) as <-; [|done].
        unfold l. apply lookup_seq_lt. apply elem_of_seq in Hhd. lia.
      * pose proof (stream_end_count (p_store v) 0 l). lia.
    + destruct (Hnodes i Hi) as (_ & _ & _ & _ & _ & Harg).
      destruct (Harg Hop) as (b1 & b2 & H1 & H2 & Hoa).
      assert (B1 : is_byte b1) by (eapply Forall_lookup_1; eauto).
      assert (B2 : is_byte b2) by (eapply Forall_lookup_1; eauto).
      destruct (operand_of_bytes b1 b2 B1 B2) as (_ & _ & E3).
      pose proof (contiguous_lower D _ _ _ _ Hco Hi).
      pose proof (len_pos D (p_store v i)).
      revert Hlab. unfold jump_label. rewrite Hoa.
      case_bool_decide; [intros [= <-]; lia|].
      destruct Hjj as [?|?]; [done|]. rewrite bool_decide_true by done.
      intros [= <-]. lia.
Qed.

End Diagnostics.

(** X3. A diagnostic is never the only outcome. With opcode tables in
    which jump opcodes take an argument and no opcode is both a relative
    and an absolute jump, a stream of bytes decoded at base address 0 for
    which [parse_bytecode] prints a "Nonlinear issue" line makes it raise
    afterwards: it does not return a graph. *)
Theorem parse_bytecode_diagnostic_raises (D : Dis) fuel c :
  dis_wf D -> Forall is_byte (co_code c) ->
  (length (co_code c) <= fuel)%nat ->
  (parse_bytecode D fuel 0 c).1 ≠ [] ->
  ∃ e, (parse_bytecode D fuel 0 c).2 = Raise e.
Proof. apply nonlinear_raises. Qed.

Lemma py27_wf : dis_wf py27.
Proof.
  unfold dis_wf, py27. simpl.
  split_and!; intros op Hop;
    repeat (apply elem_of_cons in Hop as [->|Hop]); try lia;
    try (by apply elem_of_nil in Hop);
    intros Habs; repeat (apply elem_of_cons in Habs as [?|Habs]); try lia;
    by apply elem_of_nil in Habs.
Qed.

Lemma parse_bytecode_diagnostic_raises_witness :
  ∃ e, (parse_bytecode py27 10 0 code_nonlinear).2 = Raise e.
Proof.
  apply (parse_bytecode_diagnostic_raises py27 10 code_nonlinear).
  - apply py27_wf.
  - by_eval.
  - vm_compute. lia.
  - vm_compute. discriminate.
Defined.

Section Edits.

Variable D : Dis.

(** *** The outcome of [delete_node] *)

Lemma addr_opt_upd (o : option nat) (h : Store) f j :
  (∀ b, addr (f b) = addr b) ->
  addr (match o with Some p => upd h p f | None => h end j) = addr (h j).
Proof. intros Hf. destruct o; [|done]. unfold upd. by case_decide. Qed.

Lemma delete_node_outcome g n :
  ¬ (next (store g n) = Some n ∧ xrefs (store g n) ≠ []) ->
  (bytecodes g !! addr (store g n) = None ->
   delete_node g n = Raise KeyError) ∧
  (is_Some (bytecodes g !! addr (store g n)) -> ∃ g', delete_node g n = Ok g').
Proof.
  intros Hloop. unfold delete_node; cbv zeta.
  rewrite bool_decide_false by done.
  rewrite !addr_opt_upd by done.
  destruct (redirect_fold n (xrefs (store g n)) (store g)) as (Hrel & _).
  cbv zeta in Hrel. destruct (Hrel n) as (_ & -> & _).
  unfold delitem. split.
  - by intros ->.
  - intros [i ->]. simpl. eauto.
Qed.

(** [delete_node] never ends on a node that is its own successor and has
    referrers: the loop over [node.xrefs] appends to the list it walks. *)
Lemma delete_node_diverges g n :
  next (store g n) = Some n -> xrefs (store g n) ≠ [] ->
  delete_node g n = Diverge.
Proof. intros Hn Hx. unfold delete_node. by rewrite bool_decide_true. Qed.

End Edits.

(** X4. Deleting a node twice. Whenever [delete_node(n)] returns, a second
    [delete_node(n)] raises KeyError: the first call removed the key
    [n.addr] from the dictionary and left [n.addr] as it was. *)
Theorem delete_node_twice_raises g n g1 :
  delete_node g n = Ok g1 -> delete_node g1 n = Raise KeyError.
Proof.
  intros Hd.
  destruct (delete_node_spec _ _ _ Hd)
    as (_ & _ & _ & Hb & Hf & _ & Hx & Hnx & _).
  assert (Hloop : ¬ (next (store g n) = Some n ∧ xrefs (store g n) ≠ [])).
  { intros [Hn Hxs]. by rewrite (delete_node_diverges g n Hn Hxs) in Hd. }
  assert (Hn1 : next (store g1 n) = next (store g n)).
  { rewrite Hnx. by case_bool_decide. }
  apply delete_node_outcome.
  - rewrite Hn1, Hx. intros [Hn Hxs]. rewrite bool_decide_true in Hxs by done.
    apply Hloop. split; [done|]. intros Hnil. rewrite Hnil in Hxs. done.
  - destruct (Hf n) as (_ & -> & _). rewrite Hb. apply lookup_delete_eq.
Qed.

Lemma delete_node_twice_raises_witness :
  delete_node (from_res (delete_node graph_if 3%nat)) 3%nat = Raise KeyError.
Proof.
  apply (delete_node_twice_raises graph_if 3%nat).
  apply from_res_Ok. vm_compute. reflexivity.
Defined.

Section Encode.

Variable D : Dis.

Lemma for_nodes_None {A} fuel
    (body : nat -> Store * A -> res (Store * A)) s :
  for_nodes fuel body None s = Ok s.
Proof. by destruct fuel. Qed.

Lemma get_code_no_head fuel g start :
  head g = None -> get_code D fuel g start = Raise AttributeError.
Proof.
  intros Hh. unfold get_code, refactor. rewrite Hh, for_nodes_None.
  cbn [mbind res_bind]. unfold patch_opargs. cbn [start_of head].
  rewrite for_nodes_None. cbn [mbind res_bind].
  unfold apply_labels. cbn [start_of head with_store].
  rewrite for_nodes_None. cbn [mbind res_bind].
  rewrite for_nodes_None. cbn [mbind res_bind].
  unfold calc_lnotab. done.
Qed.

End Encode.

(** X5. Deleting the last instruction under a jump. When the last node
    [n] of the list (with [prev] the node before it) is deleted, a
    referrer [r] of [n.xrefs] that is a jump-class node of the list is
    left with [target] [None], and every later [get_code] raises
    AttributeError. *)
Theorem delete_last_node_dangling (D : Dis) fuel g n g1 l1 r start :
  nodes fuel g None = Some (l1 ++ [n]) ->
  prev (store g n) = last l1 ->
  delete_node g n = Ok g1 ->
  r ∈ xrefs (store g n) -> r ∈ l1 -> is_jump D (store g r) ->
  target (store g1 r) = None ∧
  get_code D fuel g1 start = Raise AttributeError.
Proof.
  intros Hn Hp Hd Hr Hrl Hj.
  destruct (delete_node_spec _ _ _ Hd) as (_ & _ & _ & _ & Hf & Ht & _).
  destruct (delete_node_nodes _ _ _ _ _ _ Hn Hp Hd) as [Hn1 _].
  pose proof (nodes_from_chain _ _ _ _ Hn) as Hc.
  apply chain_app_cons in Hc. simpl in Hc.
  assert (Ht1 : target (store g1 r) = None).
  { by rewrite Ht, bool_decide_true, Hc. }
  split; [done|]. unfold get_code.
  rewrite (refactor_dangling D fuel g1 (l1 ++ []) r); try done.
  - rewrite app_nil_r. done.
  - destruct (Hf r) as (Ho & _). unfold is_jump in *. by rewrite Ho.
Qed.

Lemma delete_last_node_dangling_witness :
  target (store (from_res (delete_node (from_res (delete_node graph_if 6%nat))
                             5%nat)) 1%nat) = None ∧
  get_code py27 10
    (from_res (delete_node (from_res (delete_node graph_if 6%nat)) 5%nat))
    None = Raise AttributeError.
Proof.
  apply (delete_last_node_dangling py27 10
           (from_res (delete_node graph_if 6%nat)) 5%nat _
           [0; 1; 2; 3; 4]%nat 1%nat None).
  - vm_compute. reflexivity.
  - vm_compute. reflexivity.
  - apply from_res_Ok. vm_compute. reflexivity.
  - by_eval.
  - by_eval.
  - by_eval.
Defined.

(** X6. A graph without nodes cannot be encoded. Deleting the only node
    of the list leaves [head] [None], and [get_code] on a graph whose
    [head] is [None] raises AttributeError ([self.head.addr] in
    [calc_lnotab]). *)
Theorem delete_only_node_then_get_code (D : Dis) fuel g n g1 start :
  nodes fuel g None = Some [n] ->
  delete_node g n = Ok g1 ->
  head g1 = None ∧ get_code D fuel g1 start = Raise AttributeError.
Proof.
  intros Hn Hd.
  destruct (delete_node_spec _ _ _ Hd) as (_ & _ & Hh & _).
  pose proof (nodes_from_chain _ _ _ _ Hn) as Hc. simpl in Hc.
  destruct Hc as [Hhd Hnext].
  assert (Hh1 : head g1 = None).
  { rewrite Hh, bool_decide_true by done. done. }
  split; [done|]. by apply get_code_no_head.
Qed.

Lemma delete_only_node_then_get_code_witness :
  head (from_res (delete_node
                    (from_res (parse_bytecode py27 10 0 (mkCode [83] 1 [])).2)
                    0%nat)) = None ∧
  get_code py27 10
    (from_res (delete_node
                 (from_res (parse_bytecode py27 10 0 (mkCode [83] 1 [])).2)
                 0%nat)) None = Raise AttributeError.
Proof.
  apply (delete_only_node_then_get_code py27 10
           (from_res (parse_bytecode py27 10 0 (mkCode [83] 1 [])).2) 0%nat).
  - vm_compute. reflexivity.
  - apply from_res_Ok. vm_compute. reflexivity.
Defined.

Section Insert.

Variable D : Dis.

(** *** [add_node] *)

Lemma add_node_spec g parent bc ln :
  parent ≠ bc -> next (store g parent) ≠ Some bc ->
  next (store g parent) ≠ Some parent ->
  let g' := add_node g parent bc ln in
  base g' = base g ∧ code g' = code g ∧ head g' = head g ∧
  bytecodes g' = bytecodes g ∧
  (∀ j, opcode (store g' j) = opcode (store g j) ∧
        addr (store g' j) = addr (store g j) ∧
        oparg (store g' j) = oparg (store g j) ∧
        xrefs (store g' j) = xrefs (store g j) ∧
        target (store g' j) = target (store g j)) ∧
  (∀ j, node_co_lnotab (store g' j) =
        if decide (j = bc)
        then match ln with
             | Some x => Some x
             | None => node_co_lnotab (store g parent)
             end
        else node_co_lnotab (store g j)) ∧
  (∀ j, next (store g' j) =
        if decide (j = parent) then Some bc
        else if decide (j = bc) then next (store g parent)
        else next (store g j)) ∧
  (∀ j, prev (store g' j) =
        if decide (j = bc) then Some parent
        else if decide (next (store g parent) = Some j) then Some bc
        else prev (store g j)).
Proof.
  intros Hpb Hnb Hnp. cbv zeta. unfold add_node; cbv zeta.
  set (h := store g).
  set (h1 := upd h bc (set_next (next (h parent)))).
  set (h2 := upd h1 bc (set_prev (Some parent))).
  assert (H2p : h2 parent = h parent).
  { unfold h2, h1. by rewrite !upd_ne. }
  rewrite !H2p.
  set (h3 := match ln with
             | Some l => upd h2 bc (set_node_co_lnotab (Some l))
             | None => upd h2 bc (set_node_co_lnotab (node_co_lnotab (h parent)))
             end).
  assert (H3 : ∀ j, h3 j = if decide (j = bc)
                           then mkBytecode (opcode (h bc)) (addr (h bc))
                                  (oparg (h bc)) (Some parent)
                                  (next (h parent)) (xrefs (h bc))
                                  (target (h bc))
                                  (match ln with
                                   | Some x => Some x
                                   | None => node_co_lnotab (h parent)
                                   end)
                           else h j).
  { intros j. unfold h3, h2, h1, upd.
    destruct ln; repeat case_decide; simplify_eq; done. }
  assert (H3p : next (h3 parent) = next (h parent)).
  { rewrite H3. by rewrite decide_False. }
  replace (match ln with
           | Some l => upd h2 bc (set_node_co_lnotab (Some l))
           | None => upd h2 bc (set_node_co_lnotab (node_co_lnotab (h parent)))
           end) with h3 by (by destruct ln).
  rewrite H3p. simpl.
  split_and!; try done.
  - intros j. destruct (next (h parent)) as [m|]; unfold upd;
      repeat case_decide; simpl; rewrite ?H3; repeat case_decide;
      simplify_eq; done.
  - intros j. destruct (next (h parent)) as [m|]; unfold upd;
      repeat case_decide; simpl; rewrite ?H3; repeat case_decide;
      simplify_eq; done.
  - intros j. destruct (next (h parent)) as [m|] eqn:Em; unfold upd;
      repeat case_decide; simpl; rewrite ?H3; repeat case_decide;
      simplify_eq; try done.
  - intros j. destruct (next (h parent)) as [m|] eqn:Em; unfold upd;
      repeat case_decide; simpl; rewrite ?H3; repeat case_decide;
      simplify_eq; try done.
Qed.

Lemma chain_insert (h h' : Store) p bc l1 l2 : ∀ cur,
  chain h cur (l1 ++ p :: l2) -> NoDup (l1 ++ p :: l2) ->
  bc ∉ l1 ++ p :: l2 ->
  (∀ j, next (h' j) = if decide (j = p) then Some bc
                      else if decide (j = bc) then next (h p)
                      else next (h j)) ->
  chain h' cur (l1 ++ p :: bc :: l2).
Proof.
  induction l1 as [|a r IH]; intros cur Hc Hnd Hbc Hn'.
  - simpl in *. destruct Hc as [-> Hc]. split; [done|].
    rewrite Hn', decide_True by done. split; [done|].
    apply not_elem_of_cons in Hbc as [Hbp Hbl].
    rewrite Hn', decide_False, decide_True by done.
    apply (chain_ext h); [|done]. intros j Hj.
    apply NoDup_cons in Hnd as [Hp _].
    rewrite Hn', !decide_False; [done| |]; intros ->; done.
  - simpl in *. destruct Hc as [-> Hc]. split; [done|].
    apply NoDup_cons in Hnd as [Ha Hnd].
    apply not_elem_of_cons in Hbc as [Hba Hbl].
    rewrite Hn', !decide_False.
    + by apply IH.
    + done.
    + intros ->. apply Ha. apply elem_of_app. right. by left.
Qed.

Lemma back_linked_insert (h h' : Store) p bc l1 l2 : ∀ q cur,
  chain h cur (l1 ++ p :: l2) -> NoDup (l1 ++ p :: l2) ->
  bc ∉ l1 ++ p :: l2 ->
  back_linked h q (l1 ++ p :: l2) ->
  (∀ j, prev (h' j) = if decide (j = bc) then Some p
                      else if decide (next (h p) = Some j) then Some bc
                      else prev (h j)) ->
  back_linked h' q (l1 ++ p :: bc :: l2).
Proof.
  induction l1 as [|a r IH]; intros q cur Hc Hnd Hbc Hb Hp'.
  - simpl in *. destruct Hc as [-> Hc]. destruct Hb as [Hq Hb].
    apply not_elem_of_cons in Hbc as [Hbp Hbl].
    apply NoDup_cons in Hnd as [Hp Hnd].
    assert (Hnp : next (h p) ≠ Some p).
    { destruct l2 as [|m l2']; simpl in Hc; [by rewrite Hc|].
      destruct Hc as [-> _]. intros [= ->]. apply Hp. by left. }
    split; [by rewrite Hp', !decide_False|].
    split; [by rewrite Hp', decide_True|].
    destruct l2 as [|m l2']; [done|]. simpl in *.
    destruct Hc as [Hm Hc]. destruct Hb as [_ Hb].
    split.
    + rewrite Hp', decide_False, decide_True; [done|done|].
      intros ->. apply Hbl. by left.
    + apply (back_linked_ext h); [|done]. intros j Hj.
      apply NoDup_cons in Hnd as [Hmm _].
      rewrite Hp', !decide_False; [done| |].
      * rewrite Hm. intros [= ->]. done.
      * intros ->. apply Hbl. by right.
  - simpl in *. destruct Hc as [-> Hc]. destruct Hb as [Hq Hb].
    apply NoDup_cons in Hnd as [Ha Hnd].
    apply not_elem_of_cons in Hbc as [Hba Hbl].
    split.
    + rewrite Hp', !decide_False; [done| |done].
      intros Hpa. pose proof (chain_app_cons _ _ _ _ _ Hc) as Hc2.
      destruct l2 as [|m l2']; simpl in Hc2; [by rewrite Hc2 in Hpa|].
      destruct Hc2 as [Hm _]. rewrite Hm in Hpa. simplify_eq.
      apply Ha. apply elem_of_app. right. right. by left.
    + by eapply IH.
Qed.

End Insert.

(** X7. [add_node(parent, bc, lnotab)] with [parent] in the list and [bc]
    not in it puts [bc] right after [parent]: the traversal from the head
    becomes [l1 ++ parent :: bc :: l2] and the [prev] pointers follow it.
    [bc] takes the line given, or [parent]'s line when none is given; no
    other line changes, and the address dictionary, the addresses, the
    operands and the cross-references are left as they were, so that
    [bc] is not a key of [self.bytecodes] before the next [refactor]. *)
Theorem add_node_inserts fuel g parent bc ln l1 l2 :
  nodes fuel g None = Some (l1 ++ parent :: l2) ->
  bc ∉ l1 ++ parent :: l2 ->
  let g' := add_node g parent bc ln in
  nodes (S fuel) g' None = Some (l1 ++ parent :: bc :: l2) ∧
  (back_linked (store g) None (l1 ++ parent :: l2) ->
   back_linked (store g') None (l1 ++ parent :: bc :: l2)) ∧
  node_co_lnotab (store g' bc) =
    match ln with
    | Some x => Some x
    | None => node_co_lnotab (store g parent)
    end ∧
  (∀ j, j ≠ bc -> node_co_lnotab (store g' j) = node_co_lnotab (store g j)) ∧
  bytecodes g' = bytecodes g ∧
  (∀ j, opcode (store g' j) = opcode (store g j) ∧
        addr (store g' j) = addr (store g j) ∧
        oparg (store g' j) = oparg (store g j) ∧
        xrefs (store g' j) = xrefs (store g j) ∧
        target (store g' j) = target (store g j)).
Proof.
  intros Hn Hbc g'.
  pose proof (nodes_from_NoDup _ _ _ _ Hn) as Hnd.
  pose proof (nodes_from_chain _ _ _ _ Hn) as Hc.
  pose proof (nodes_from_length _ _ _ _ Hn) as Hlen.
  pose proof (chain_app_cons _ _ _ _ _ Hc) as Hc2.
  assert (Hpb : parent ≠ bc).
  { intros ->. apply Hbc. apply elem_of_app. right. by left. }
  assert (Hnb : next (store g parent) ≠ Some bc).
  { destruct l2 as [|m l2']; simpl in Hc2; [by rewrite Hc2|].
    destruct Hc2 as [-> _]. intros [= ->]. apply Hbc.
    apply elem_of_app. right. right. by left. }
  assert (Hnp : next (store g parent) ≠ Some parent).
  { destruct l2 as [|m l2']; simpl in Hc2; [by rewrite Hc2|].
    destruct Hc2 as [-> _]. intros [= ->].
    apply NoDup_app in Hnd as (_ & _ & Hnd).
    apply NoDup_cons in Hnd as [Hp _]. apply Hp. by left. }
  destruct (add_node_spec g parent bc ln Hpb Hnb Hnp)
    as (Hbase & Hcode & Hhead & Hdict & Hfields & Hline & Hnext & Hprev).
  fold g' in Hbase, Hcode, Hhead, Hdict, Hfields, Hline, Hnext, Hprev.
  split_and!.
  - unfold nodes. cbn [start_of]. rewrite Hhead.
    apply chain_nodes_from.
    + by apply (chain_insert (store g)).
    + rewrite length_app in *. simpl in *. lia.
  - intros Hb. by eapply (back_linked_insert (store g)).
  - by rewrite Hline, decide_True.
  - intros j Hj. by rewrite Hline, decide_False.
  - done.
  - done.
Qed.

Lemma add_node_inserts_witness :
  let g' := add_node graph_loop_nop 0%nat 4%nat (Some 400) in
  nodes 5 g' None = Some ([] ++ 0 :: 4 :: [1; 2; 3])%nat ∧
  (back_linked (store graph_loop_nop) None ([] ++ 0 :: [1; 2; 3])%nat ->
   back_linked (store g') None ([] ++ 0 :: 4 :: [1; 2; 3])%nat) ∧
  node_co_lnotab (store g' 4%nat) = Some 400 ∧
  (∀ j, j ≠ 4%nat ->
     node_co_lnotab (store g' j) = node_co_lnotab (store graph_loop_nop j)) ∧
  bytecodes g' = bytecodes graph_loop_nop ∧
  (∀ j, opcode (store g' j) = opcode (store graph_loop_nop j) ∧
        addr (store g' j) = addr (store graph_loop_nop j) ∧
        oparg (store g' j) = oparg (store graph_loop_nop j) ∧
        xrefs (store g' j) = xrefs (store graph_loop_nop j) ∧
        target (store g' j) = target (store graph_loop_nop j)).
Proof.
  apply (add_node_inserts 4 graph_loop_nop 0%nat 4%nat (Some 400)
           [] [1; 2; 3]%nat).
  - vm_compute. reflexivity.
  - by_eval.
Defined.

Section Relocate.

Variable D : Dis.

(** *** When [refactor] returns *)

Lemma patch_body_Ok i s :
  (is_jump D (s.1 i) -> target (s.1 i) ≠ None) ->
  ∃ s', patch_opargs_body D i s = Ok s'.
Proof.
  intros H. destruct (patch_body_exn D i s) as [?|E]; [done|].
  exfalso. revert E. unfold patch_opargs_body; cbv zeta.
  repeat case_bool_decide; try done;
    (destruct (target (s.1 i)) eqn:Et; [done|]); intros _;
    apply H; try done; (split; [lia|auto]).
Qed.

Lemma patch_loop_Ok l : ∀ s,
  (∀ i, i ∈ l -> is_jump D (s.1 i) -> target (s.1 i) ≠ None) ->
  ∃ s', run_list (patch_opargs_body D) l s = Ok s'.
Proof.
  induction l as [|k r IH]; intros s H; cbn [run_list]; [by eexists|].
  destruct (patch_body_Ok k s) as [s1 E]; [apply H; by left|].
  rewrite E. cbn [mbind res_bind]. apply IH. intros i Hi Hj.
  destruct (patch_body_rel _ _ _ _ E i) as (Ho & _ & _ & _ & _ & Ht & _).
  rewrite Ht. apply H; [by right|]. unfold is_jump in *. by rewrite <- Ho.
Qed.

Lemma apply_labels_body_Ok m i s :
  label_found D m (s.1 i) -> ∃ s', apply_labels_body D m i s = Ok s'.
Proof.
  unfold label_found, apply_labels_body; cbv zeta. intros H.
  case_bool_decide as Hop; [|by eexists].
  destruct (H Hop) as (lbl & -> & Hl). cbn [mbind res_bind].
  destruct lbl as [lab|]; [|by eexists].
  case_bool_decide as Hlab; [|by eexists].
  destruct (Hl lab eq_refl Hlab) as [t Ht]. unfold getitem. rewrite Ht.
  by eexists.
Qed.

Lemma apply_labels_loop_Ok m l : ∀ s,
  (∀ i, i ∈ l -> label_found D m (s.1 i)) ->
  ∃ s', run_list (apply_labels_body D m) l s = Ok s'.
Proof.
  induction l as [|k r IH]; intros s H; cbn [run_list]; [by eexists|].
  destruct (apply_labels_body_Ok m k s) as [s1 E]; [apply H; by left|].
  rewrite E. cbn [mbind res_bind]. apply IH. intros i Hi.
  pose proof (apply_labels_body_rel _ _ _ _ _ E i) as Hrel.
  unfold label_found. rewrite (jump_label_links _ _ _ Hrel).
  destruct Hrel as (-> & _). apply H. by right.
Qed.

Lemma jump_label_other b :
  ¬ is_jump D b -> HAVE_ARGUMENT D <= opcode b ->
  jump_label D b = Ok (Some (-1)).
Proof.
  unfold is_jump, jump_label. intros Hn Hop.
  rewrite !bool_decide_false; [done| |]; intros ?; apply Hn; auto.
Qed.

(** [refactor] returns on a list whose jumps all have a target in the
    list. *)
Lemma refactor_Ok fuel g l :
  nodes fuel g None = Some l ->
  (∀ i, i ∈ l -> is_jump D (store g i) ->
     ∃ t, target (store g i) = Some t ∧ t ∈ l) ->
  ∃ g', refactor D fuel g = Ok g'.
Proof.
  intros Hn Htg. pose proof (nodes_from_NoDup _ _ _ _ Hn) as Hnd.
  unfold nodes in Hn. cbn [start_of] in Hn. unfold refactor.
  rewrite (for_nodes_run_list _ (refactor_body_next D) _ _ _ l) by done.
  destruct (refactor_loop_total D l (store g, (base g, ∅))) as [s1 E1].
  rewrite E1. cbn [mbind res_bind].
  pose proof (refactor_loop_rel _ _ _ _ E1) as R1. simpl in R1.
  destruct s1 as [h1 [off m1]].
  destruct (refactor_loop_spec _ _ _ _ _ _ Hnd E1) as (Hc & Hm & _).
  simpl in *.
  assert (Hn1 : nodes_from fuel h1 (head g) = Some l).
  { rewrite <- Hn. apply nodes_from_ext. intros j.
    by destruct (R1 j) as (_&_&_&?&_). }
  unfold patch_opargs. cbn [start_of head store].
  rewrite (for_nodes_run_list _ (patch_body_next D) _ _ _ l) by done.
  destruct (patch_loop_Ok l (h1, tt)) as [s2 E2].
  { simpl. intros i Hi Hj. destruct (R1 i) as (Ho & _ & _ & _ & _ & Ht & _).
    destruct (Htg i Hi) as (t & Ht' & _).
    - unfold is_jump in *. by rewrite <- Ho.
    - by rewrite Ht, Ht'. }
  rewrite E2. cbn [mbind res_bind].
  pose proof (patch_loop_rel _ _ _ _ E2) as R2.
  pose proof (patch_loop_spec _ _ _ _ Hnd E2) as Hp.
  destruct s2 as [h2 []]. simpl in R2, Hp.
  assert (Hn2 : nodes_from fuel h2 (head g) = Some l).
  { rewrite <- Hn1. apply nodes_from_ext. intros j.
    by destruct (R2 j) as (_&_&_&?&_). }
  unfold apply_labels. cbn [start_of head store with_store bytecodes fst].
  rewrite (for_nodes_run_list _ apply_labels_clear_next _ _ _ l) by done.
  destruct (clear_loop_spec l (h2, tt)) as (s3 & E3 & R3 & _).
  rewrite E3. cbn [mbind res_bind]. simpl in R3.
  assert (Hn3 : nodes_from fuel s3.1 (head g) = Some l).
  { rewrite <- Hn2. apply nodes_from_ext. intros j.
    by destruct (R3 j) as (_&_&_&_&?&_). }
  rewrite (for_nodes_run_list _ (apply_labels_body_next D m1) _ _ _ l) by done.
  destruct (apply_labels_loop_Ok m1 l s3) as [s4 E4].
  { intros i Hi. unfold label_found.
    rewrite (jump_label_links _ _ _ (R3 i)).
    destruct (R3 i) as (-> & _). intros Hop.
    destruct (R1 i) as (Ho1 & _ & _ & _ & _ & Ht1 & _).
    destruct (R2 i) as (Ho2 & Ha2 & _).
    destruct (decide (is_jump D (h2 i))) as [Hj|Hj].
    - destruct (Htg i Hi) as (t & Ht & Htl).
      { unfold is_jump in *. by rewrite <- Ho1, <- Ho2. }
      exists (Some (addr (h2 t))). split.
      + destruct (R2 t) as (_ & Hat & _).
        assert (Hop1 : HAVE_ARGUMENT D <= opcode (h1 i)) by (by rewrite <- Ho2).
        destruct (Hp i Hi Hop1) as [P1 P2].
        apply jump_label_patched; [done| |].
        * rewrite Ho2. intros Hin. destruct (P1 Hin) as (t' & Ht' & ->).
          rewrite Ht1, Ht in Ht'. simplify_eq.
          by rewrite Hat, Ha2, (len_opcode _ _ _ Ho2).
        * rewrite Ho2. intros Hnin. destruct Hj as [_ [?|Habs]];
            [by rewrite Ho2 in *|].
          rewrite Ho2 in Habs. destruct (P2 Hnin Habs) as (t' & Ht' & ->).
          rewrite Ht1, Ht in Ht'. simplify_eq. by rewrite Hat.
      + intros lab [= <-] _. destruct (R2 t) as (_ & -> & _).
        rewrite (Hm t Htl). done.
    - exists (Some (-1)). split; [by apply jump_label_other|].
      intros lab [= <-] ?. lia. }
  rewrite E4. cbn [mbind res_bind]. by eexists.
Qed.

Lemma refactor_jump_label fuel g g' l i t :
  nodes fuel g None = Some l -> refactor D fuel g = Ok g' ->
  i ∈ l -> is_jump D (store g i) -> target (store g i) = Some t ->
  jump_label D (store g' i) = Ok (Some (addr (store g' t))).
Proof.
  intros Hn Hr Hi Hj Htg.
  destruct (refactor_spec _ _ _ _ _ Hn Hr)
    as (h1 & h2 & _ & _ & _ & R1 & R2 & R3 & Hc & Hm & Hp & Hinv & Hres).
  destruct (R1 i) as (Ho1 & _ & _ & _ & _ & Ht1 & _).
  destruct (R2 i) as (Ho2 & Ha2 & _ & _ & _ & Ht2 & _).
  rewrite (jump_label_links _ _ _ (R3 i)).
  destruct (R3 t) as (_ & -> & _).
  assert (Hj2 : is_jump D (h2 i)).
  { unfold is_jump in *. by rewrite Ho2, Ho1. }
  destruct Hj2 as [Hop2 Hjj].
  assert (Hop1 : HAVE_ARGUMENT D <= opcode (h1 i)) by (by rewrite <- Ho2).
  destruct (Hp i Hi Hop1) as [P1 P2].
  destruct (R2 t) as (_ & Hat & _).
  apply jump_label_patched; [done| |].
  - rewrite Ho2. intros Hin. destruct (P1 Hin) as (t' & Ht' & ->).
    rewrite Ht1, Htg in Ht'. simplify_eq.
    by rewrite Hat, Ha2, (len_opcode _ _ _ Ho2).
  - rewrite Ho2. intros Hnin. destruct Hjj as [?|Habs]; [by rewrite Ho2 in *|].
    rewrite Ho2 in Habs. destruct (P2 Hnin Habs) as (t' & Ht' & ->).
    rewrite Ht1, Htg in Ht'. simplify_eq. by rewrite Hat.
Qed.

(** The loop of [refactor] writes no other keys than the addresses of
    the nodes it meets. *)
Lemma refactor_loop_keys l : ∀ h off (m : gmap Z nat) s' a i,
  NoDup l ->
  run_list (refactor_body D) l (h, (off, m)) = Ok s' ->
  s'.2.2 !! a = Some i -> m !! a = Some i ∨ (i ∈ l ∧ addr (s'.1 i) = a).
Proof.
  induction l as [|k r IH]; intros h off m s' a i Hnd; cbn [run_list].
  - intros [= <-]. simpl. auto.
  - rewrite refactor_body_Ok. cbn [mbind res_bind fst snd]. intros Hrun Hl.
    apply NoDup_cons in Hnd as [Hk Hnd].
    destruct (IH _ _ _ _ _ _ Hnd Hrun Hl) as [Hin|[Hi Ha]].
    + apply lookup_insert_Some in Hin as [[<- <-]|[_ Hm]]; [|by left].
      right. split; [by left|].
      rewrite (run_list_outside _ (refactor_body_outside D) _ _ _ Hrun k Hk).
      simpl. by rewrite upd_eq.
    + right. split; [by right|done].
Qed.

(** After [refactor] the keys of [self.bytecodes] are the addresses of
    the nodes of the list, and no others. *)
Lemma refactor_dict fuel g g' l :
  nodes fuel g None = Some l -> refactor D fuel g = Ok g' ->
  ∀ a i, bytecodes g' !! a = Some i ↔ i ∈ l ∧ addr (store g' i) = a.
Proof.
  intros Hn Hr a i.
  pose proof (nodes_from_NoDup _ _ _ _ Hn) as Hnd.
  destruct (refactor_spec _ _ _ _ _ Hn Hr)
    as (h1 & h2 & Hbase & Hhead & _ & R1 & R2 & R3 & Hc & Hm & _).
  destruct (refactor_frame _ _ _ _ _ _ R1 R2 R3 Hhead Hn) as [Hn' Hf].
  split.
  - intros Hl. revert Hr. unfold nodes in Hn. cbn [start_of] in Hn.
    unfold refactor.
    intros (s1 & E1 & (g2 & E2 & E3)%bind_Ok)%bind_Ok.
    rewrite (for_nodes_run_list _ (refactor_body_next D) _ _ _ l) in E1 by done.
    pose proof (refactor_loop_rel _ _ _ _ E1) as Q1. simpl in Q1.
    destruct s1 as [k1 [off m1]].
    assert (Hn1 : nodes fuel (mkGraph (base g) (code g) (head g) m1 k1 (fresh g))
                    None = Some l).
    { unfold nodes. simpl. rewrite <- Hn. apply nodes_from_ext.
      intros j. by destruct (Q1 j) as (_&_&_&?&_). }
    destruct (patch_opargs_spec _ _ _ _ _ Hn1 E2) as (Hg2 & Q2 & _).
    simpl in *.
    assert (Hn2 : nodes fuel g2 None = Some l).
    { rewrite Hg2. unfold nodes. simpl. rewrite <- Hn. apply nodes_from_ext.
      intros j. destruct (Q1 j) as (_&_&_&?&_), (Q2 j) as (_&_&_&?&_).
      congruence. }
    destruct (apply_labels_spec _ _ _ _ _ _ Hn2 E3) as (Hg' & Q3 & _).
    assert (Hd : bytecodes g' = m1).
    { rewrite Hg', Hg2. done. }
    rewrite Hd in Hl.
    destruct (refactor_loop_keys _ _ _ _ _ _ _ Hnd E1 Hl) as [He|[Hi Ha]].
    + by rewrite lookup_empty in He.
    + split; [done|]. simpl in Ha.
      destruct (Q2 i) as (_ & Ha2 & _), (Q3 i) as (_ & Ha3 & _). congruence.
  - intros [Hi <-]. destruct (Hf i) as (_ & -> & _). by apply Hm.
Qed.

(** What a successful [refactor] leaves when every jump had its target
    in the list. *)
Lemma refactor_resolved fuel g g' l :
  nodes fuel g None = Some l -> 0 <= base g ->
  (∀ i, i ∈ l -> is_jump D (store g i) ->
     ∃ t, target (store g i) = Some t ∧ t ∈ l) ->
  refactor D fuel g = Ok g' ->
  nodes fuel g' None = Some l ∧ base g' = base g ∧
  resolved_layout D g' l ∧
  (∀ i t, i ∈ l -> is_jump D (store g i) -> target (store g i) = Some t ->
     target (store g' i) = Some t ∧ i ∈ xrefs (store g' t)).
Proof.
  intros Hn Hb Htg Hr.
  destruct (refactor_spec _ _ _ _ _ Hn Hr)
    as (h1 & h2 & Hbase & Hhead & _ & R1 & R2 & R3 & Hc & _).
  destruct (refactor_frame _ _ _ _ _ _ R1 R2 R3 Hhead Hn) as [Hn' Hf].
  assert (Hjt : ∀ i t, i ∈ l -> is_jump D (store g i) ->
            target (store g i) = Some t ->
            target (store g' i) = Some t ∧ i ∈ xrefs (store g' t)).
  { intros i t Hi Hj Ht. destruct (Htg i Hi Hj) as (t' & Ht' & Htl).
    rewrite Ht in Ht'. injection Ht' as <-.
    by apply (refactor_keeps_targets D fuel g g' l). }
  split_and!; [done|done| |done].
  split.
  - rewrite Hbase. apply (contiguous_ext D h1); [|done]. intros j _.
    destruct (Hf j) as (Ho & Ha & _). destruct (R1 j) as (Ho1 & _).
    split; congruence.
  - intros i Hi Hj.
    assert (Hj0 : is_jump D (store g i)).
    { destruct (Hf i) as (Ho & _). unfold is_jump in *. by rewrite <- Ho. }
    destruct (Htg i Hi Hj0) as (t & Ht & Htl).
    exists t, (addr (store g' t)). split_and!; [|done| |done].
    + by apply Hjt.
    + by apply (refactor_jump_label fuel g g' l).
Qed.

(** A node that is no jump is given no target. *)
Lemma apply_labels_loop_unlinked m l : ∀ s s' i,
  run_list (apply_labels_body D m) l s = Ok s' ->
  ¬ is_jump D (s.1 i) -> target (s'.1 i) = target (s.1 i).
Proof.
  induction l as [|k r IH]; intros s s' i; cbn [run_list].
  - by intros [= <-].
  - intros (s1 & E & Hrun)%bind_Ok Hj.
    pose proof (apply_labels_body_rel _ _ _ _ _ E i) as (Ho & _).
    rewrite (IH _ _ _ Hrun); [|unfold is_jump in *; by rewrite Ho].
    destruct (decide (i = k)) as [->|Hik];
      [|by apply (apply_labels_body_target D m k)].
    apply apply_labels_body_cases in E
      as [[-> _]|(lab & t & Hop & Hl & Hlab & _)]; [done|].
    rewrite jump_label_other in Hl by done. injection Hl as <-. lia.
Qed.

Lemma apply_labels_non_jump fuel g start g' l i :
  nodes fuel g start = Some l -> apply_labels D fuel g start = Ok g' ->
  i ∈ l -> ¬ is_jump D (store g i) -> target (store g' i) = None.
Proof.
  unfold nodes, apply_labels.
  intros Hn (s1 & E1 & (s2 & E2 & [= <-])%bind_Ok)%bind_Ok Hi Hj.
  rewrite (for_nodes_run_list _ apply_labels_clear_next _ _ _ l) in E1 by done.
  destruct (clear_loop_spec l (store g, tt)) as (s1' & E1' & Hrel1 & Hin & _).
  rewrite E1 in E1'. simplify_eq. simpl in Hrel1.
  assert (Hn1 : nodes_from fuel s1'.1 (start_of g start) = Some l).
  { rewrite <- Hn. apply nodes_from_ext. intros j.
    by destruct (Hrel1 j) as (_&_&_&_&?&_). }
  rewrite (for_nodes_run_list _ (apply_labels_body_next D (bytecodes g))
             _ _ _ l) in E2 by done.
  simpl. rewrite (apply_labels_loop_unlinked _ _ _ _ _ E2).
  - by destruct (Hin i Hi).
  - destruct (Hrel1 i) as (Ho & _). unfold is_jump in *. by rewrite Ho.
Qed.

Lemma refactor_non_jump fuel g g' l i :
  nodes fuel g None = Some l -> refactor D fuel g = Ok g' ->
  i ∈ l -> ¬ is_jump D (store g i) -> target (store g' i) = None.
Proof.
  intros Hn Hr Hi Hj. revert Hr.
  unfold nodes in Hn. cbn [start_of] in Hn. unfold refactor.
  intros (s1 & E1 & (g2 & E2 & E3)%bind_Ok)%bind_Ok.
  rewrite (for_nodes_run_list _ (refactor_body_next D) _ _ _ l) in E1 by done.
  pose proof (refactor_loop_rel _ _ _ _ E1) as Q1. simpl in Q1.
  destruct s1 as [k1 [off m1]].
  assert (Hn1 : nodes fuel (mkGraph (base g) (code g) (head g) m1 k1 (fresh g))
                  None = Some l).
  { unfold nodes. simpl. rewrite <- Hn. apply nodes_from_ext.
    intros j. by destruct (Q1 j) as (_&_&_&?&_). }
  destruct (patch_opargs_spec _ _ _ _ _ Hn1 E2) as (Hg2 & Q2 & _).
  simpl in *.
  assert (Hn2 : nodes fuel g2 None = Some l).
  { rewrite Hg2. unfold nodes. simpl. rewrite <- Hn. apply nodes_from_ext.
    intros j. destruct (Q1 j) as (_&_&_&?&_), (Q2 j) as (_&_&_&?&_).
    congruence. }
  apply (apply_labels_non_jump fuel g2 None g' l i Hn2 E3 Hi).
  destruct (Q1 i) as (Ho1 & _), (Q2 i) as (Ho2 & _).
  unfold is_jump in *. by rewrite Ho2, Ho1.
Qed.

End Relocate.

(** X8. An edited list can always be relocated when no jump is left
    without a destination: if the base is not negative and every jump of
    the list has its [target] in the list, [refactor] returns. It keeps
    the list, lays the nodes out one after the other from the base, and
    every jump keeps its target, is in its target's [xrefs], and its
    operand now computes the new address of the target. *)
Theorem refactor_succeeds (D : Dis) fuel g l :
  nodes fuel g None = Some l -> 0 <= base g ->
  (∀ i, i ∈ l -> is_jump D (store g i) ->
     ∃ t, target (store g i) = Some t ∧ t ∈ l) ->
  ∃ g', refactor D fuel g = Ok g' ∧
    nodes fuel g' None = Some l ∧
    contiguous D (store g') (base g) l ∧
    (∀ i t, i ∈ l -> is_jump D (store g i) -> target (store g i) = Some t ->
       target (store g' i) = Some t ∧ i ∈ xrefs (store g' t) ∧
       jump_label D (store g' i) = Ok (Some (addr (store g' t)))).
Proof.
  intros Hn Hb Htg.
  destruct (refactor_Ok D fuel g l Hn Htg) as [g' Hr].
  exists g'. split; [done|].
  destruct (refactor_resolved D fuel g g' l Hn Hb Htg Hr)
    as (Hn' & Hbase & [Hc _] & Hk).
  split_and!; [done|by rewrite <- Hbase|].
  intros i t Hi Hj Ht. destruct (Hk i t Hi Hj Ht) as [H1 H2].
  split_and!; [done|done|].
  by apply (refactor_jump_label D fuel g g' l).
Qed.

Lemma refactor_succeeds_witness :
  ∃ g', refactor py27 10 graph_if_deleted = Ok g' ∧
    nodes 10 g' None = Some [0; 1; 2; 4; 5; 6]%nat ∧
    contiguous py27 (store g') (base graph_if_deleted)
      [0; 1; 2; 4; 5; 6]%nat ∧
    (∀ i t, i ∈ [0; 1; 2; 4; 5; 6]%nat ->
       is_jump py27 (store graph_if_deleted i) ->
       target (store graph_if_deleted i) = Some t ->
       target (store g' i) = Some t ∧ i ∈ xrefs (store g' t) ∧
       jump_label py27 (store g' i) = Ok (Some (addr (store g' t)))).
Proof.
  apply (refactor_succeeds py27 10 graph_if_deleted [0; 1; 2; 4; 5; 6]%nat).
  - vm_compute. reflexivity.
  - vm_compute. discriminate.
  - intros i Hi Hj.
    assert (Hi' : i = 1%nat ∨ i = 4%nat).
    { revert Hj. unfold is_jump.
      repeat (apply elem_of_cons in Hi as [->|Hi]);
        try (by apply elem_of_nil in Hi); auto;
        intros [_ [H|H]]; exfalso; revert H; by_eval. }
    destruct Hi' as [->| ->]; exists 5%nat; split;
      solve [vm_compute; reflexivity | by_eval].
Defined.

(** X9. After [refactor] the dictionary [self.bytecodes] holds the nodes
    of the list under their new addresses and nothing else: a node that
    was deleted, or a key of the old layout, is no longer found. *)
Theorem refactor_dictionary_exact (D : Dis) fuel g g' l a i :
  nodes fuel g None = Some l -> refactor D fuel g = Ok g' ->
  bytecodes g' !! a = Some i ↔ i ∈ l ∧ addr (store g' i) = a.
Proof. intros Hn Hr. by apply (refactor_dict D fuel g g' l). Qed.

Lemma refactor_dictionary_exact_witness :
  bytecodes (from_res (refactor py27 10 graph_if_deleted)) !! 9 = Some 4%nat
  ↔ 4%nat ∈ [0; 1; 2; 4; 5; 6]%nat ∧
    addr (store (from_res (refactor py27 10 graph_if_deleted)) 4%nat) = 9.
Proof.
  apply (refactor_dictionary_exact py27 10 graph_if_deleted).
  - vm_compute. reflexivity.
  - apply from_res_Ok. vm_compute. reflexivity.
Defined.

(** X10. Relocation is stable: when every jump of the list has its target
    in the list, a second [refactor] right after the first returns too
    and changes nothing: the same dictionary, and for every node of the
    list the same address, operand and target, and the same referrers
    in [xrefs]. *)
Theorem refactor_twice (D : Dis) fuel g g1 l :
  nodes fuel g None = Some l -> 0 <= base g ->
  (∀ i, i ∈ l -> is_jump D (store g i) ->
     ∃ t, target (store g i) = Some t ∧ t ∈ l) ->
  refactor D fuel g = Ok g1 ->
  ∃ g2, refactor D fuel g1 = Ok g2 ∧
    bytecodes g2 = bytecodes g1 ∧
    ∀ i, i ∈ l ->
      addr (store g2 i) = addr (store g1 i) ∧
      oparg (store g2 i) = oparg (store g1 i) ∧
      target (store g2 i) = target (store g1 i) ∧
      ∀ r, r ∈ xrefs (store g2 i) ↔ r ∈ xrefs (store g1 i).
Proof.
  intros Hn Hb Htg Hr.
  destruct (refactor_resolved D fuel g g1 l Hn Hb Htg Hr)
    as (Hn1 & Hbase & Hlay & Hk).
  assert (Hop : ∀ j, opcode (store g1 j) = opcode (store g j)).
  { destruct (refactor_spec D _ _ _ _ Hn Hr)
      as (h1 & h2 & _ & Hh & _ & R1 & R2 & R3 & _).
    intros j.
    by destruct (refactor_frame fuel g g1 l h1 h2 R1 R2 R3 Hh Hn)
      as [_ Hf]; destruct (Hf j) as (? & _). }
  assert (Htg1 : ∀ i, i ∈ l -> is_jump D (store g1 i) ->
            ∃ t, target (store g1 i) = Some t ∧ t ∈ l).
  { intros i Hi Hj. destruct Hlay as [_ Hres].
    destruct (Hres i Hi Hj) as (t & lab & Ht & Htl & _). eauto. }
  assert (Hb1 : 0 <= base g1) by (by rewrite Hbase).
  destruct (refactor_Ok D fuel g1 l Hn1 Htg1) as [g2 Hr2].
  exists g2. split; [done|].
  pose proof (refactor_resolved_id D fuel g1 g2 l Hn1 Hlay Hr2) as Hid.
  assert (Ht2 : ∀ i, i ∈ l -> target (store g2 i) = target (store g1 i)).
  { intros i Hi. destruct (decide (is_jump D (store g1 i))) as [Hj|Hj].
    - destruct (Htg1 i Hi Hj) as (t & Ht & Htl). rewrite Ht.
      by destruct (refactor_keeps_targets D fuel g1 g2 l i t).
    - rewrite (refactor_non_jump D fuel g1 g2 l i) by done.
      symmetry. apply (refactor_non_jump D fuel g g1 l i); try done.
      unfold is_jump in *. by rewrite <- Hop. }
  split.
  - apply map_eq. intros a.
    destruct (bytecodes g1 !! a) as [i|] eqn:E1.
    + apply (refactor_dict D fuel g g1 l Hn Hr) in E1 as [Hi Ha].
      apply (refactor_dict D fuel g1 g2 l Hn1 Hr2). split; [done|].
      destruct (Hid i Hi) as (-> & _). done.
    + destruct (bytecodes g2 !! a) as [i|] eqn:E2; [|done].
      apply (refactor_dict D fuel g1 g2 l Hn1 Hr2) in E2 as [Hi Ha].
      destruct (Hid i Hi) as (Ha' & _). rewrite Ha' in Ha.
      assert (bytecodes g1 !! a = Some i) as E
        by (by apply (refactor_dict D fuel g g1 l Hn Hr)).
      congruence.
  - intros i Hi. destruct (Hid i Hi) as (Ha & _ & Hg).
    split_and!; [done|done|by apply Ht2|].
    destruct (refactor_spec D _ _ _ _ Hn Hr)
      as (_ & _ & _ & _ & _ & _ & _ & _ & _ & _ & _ & Hinv1 & _).
    destruct (refactor_spec D _ _ _ _ Hn1 Hr2)
      as (_ & _ & _ & _ & _ & _ & _ & _ & _ & _ & _ & Hinv2 & _).
    destruct Hinv1 as (A1 & B1 & _), Hinv2 as (A2 & B2 & _).
    intros r. split.
    + intros Hx. destruct (A2 i r Hi Hx) as [Hrl Ht].
      apply B1; [done|]. by rewrite <- Ht2.
    + intros Hx. destruct (A1 i r Hi Hx) as [Hrl Ht].
      apply B2; [done|]. by rewrite Ht2.
Qed.

Lemma refactor_twice_witness :
  ∃ g2, refactor py27 10 (from_res (refactor py27 10 graph_if_deleted))
          = Ok g2 ∧
    bytecodes g2 = bytecodes (from_res (refactor py27 10 graph_if_deleted)) ∧
    ∀ i, i ∈ [0; 1; 2; 4; 5; 6]%nat ->
      addr (store g2 i)
        = addr (store (from_res (refactor py27 10 graph_if_deleted)) i) ∧
      oparg (store g2 i)
        = oparg (store (from_res (refactor py27 10 graph_if_deleted)) i) ∧
      target (store g2 i)
        = target (store (from_res (refactor py27 10 graph_if_deleted)) i) ∧
      ∀ r, r ∈ xrefs (store g2 i)
           ↔ r ∈ xrefs (store (from_res (refactor py27 10 graph_if_deleted)) i).
Proof.
  apply (refactor_twice py27 10 graph_if_deleted).
  - vm_compute. reflexivity.
  - vm_compute. discriminate.
  - intros i Hi Hj.
    assert (Hi' : i = 1%nat ∨ i = 4%nat).
    { revert Hj. unfold is_jump.
      repeat (apply elem_of_cons in Hi as [->|Hi]);
        try (by apply elem_of_nil in Hi); auto;
        intros [_ [H|H]]; exfalso; revert H; by_eval. }
    destruct Hi' as [->| ->]; exists 5%nat; split;
      solve [vm_compute; reflexivity | by_eval].
  - apply from_res_Ok. vm_compute. reflexivity.
Defined.

(** X11. Deleting an instruction keeps the control flow. Let [n] be a
    node of the list with successor [m], whose [prev] is the node before
    it, registered under its address, in a graph with a base address that
    is not negative whose jumps all have their target in the list and are
    in the [xrefs] of their target. Then [delete_node(n)] followed by
    [refactor] returns; the list is the old one without [n], laid out
    from the base; [n] is no longer a value of [self.bytecodes]; and
    every jump left in the list has the target it had, or [m] where it
    was a referrer of [n]. *)
Theorem delete_node_then_refactor (D : Dis) fuel g n m l1 l2 :
  nodes fuel g None = Some (l1 ++ n :: m :: l2) ->
  prev (store g n) = last l1 ->
  0 <= base g ->
  is_Some (bytecodes g !! addr (store g n)) ->
  (∀ i, i ∈ l1 ++ n :: m :: l2 -> is_jump D (store g i) ->
     ∃ t, target (store g i) = Some t ∧ t ∈ l1 ++ n :: m :: l2 ∧
          i ∈ xrefs (store g t)) ->
  ∃ g1 g2,
    delete_node g n = Ok g1 ∧ refactor D fuel g1 = Ok g2 ∧
    nodes fuel g2 None = Some (l1 ++ m :: l2) ∧
    contiguous D (store g2) (base g) (l1 ++ m :: l2) ∧
    (∀ a, bytecodes g2 !! a ≠ Some n) ∧
    (∀ i, i ∈ l1 ++ m :: l2 -> is_jump D (store g i) ->
       target (store g2 i) =
         (if bool_decide (i ∈ xrefs (store g n)) then Some m
          else target (store g i)) ∧
       ∃ t, target (store g2 i) = Some t ∧ t ∈ l1 ++ m :: l2 ∧
            i ∈ xrefs (store g2 t) ∧
            jump_label D (store g2 i) = Ok (Some (addr (store g2 t)))).
Proof.
  intros Hn Hp Hb Hkey Htg.
  pose proof (nodes_from_NoDup _ _ _ _ Hn) as Hnd.
  pose proof (nodes_from_chain _ _ _ _ Hn) as Hc.
  apply chain_app_cons in Hc. destruct Hc as [Hm _].
  assert (Hmn : m ≠ n).
  { intros ->. apply NoDup_app in Hnd as (_ & _ & Hnd).
    apply NoDup_cons in Hnd as [Hx _]. apply Hx. by left. }
  destruct (delete_node_outcome g n) as [_ Hok].
  { rewrite Hm. intros [[= ?] _]. done. }
  destruct (Hok Hkey) as [g1 Hd]. exists g1.
  destruct (delete_node_spec _ _ _ Hd)
    as (Hb1 & _ & _ & _ & Hf & Ht & _).
  destruct (delete_node_nodes _ _ _ _ _ _ Hn Hp Hd) as [Hn1 Hnot].
  assert (Hsub : ∀ i, i ∈ l1 ++ m :: l2 -> i ∈ l1 ++ n :: m :: l2).
  { intros i. rewrite !elem_of_app, !elem_of_cons. tauto. }
  assert (Hj1 : ∀ i, is_jump D (store g1 i) ↔ is_jump D (store g i)).
  { intros i. destruct (Hf i) as (Ho & _). unfold is_jump. by rewrite Ho. }
  assert (Htg1 : ∀ i, i ∈ l1 ++ m :: l2 -> is_jump D (store g1 i) ->
            ∃ t, target (store g1 i) = Some t ∧ t ∈ l1 ++ m :: l2).
  { intros i Hi Hj. apply Hj1 in Hj. rewrite Ht, Hm.
    case_bool_decide as Hx.
    - exists m. split; [done|]. apply elem_of_app. right. by left.
    - destruct (Htg i (Hsub i Hi) Hj) as (t & Htt & Htl & Hxt).
      exists t. split; [done|].
      destruct (decide (t = n)) as [->|Htn]; [done|].
      revert Htl. rewrite !elem_of_app, !elem_of_cons. tauto. }
  assert (Hbase1 : 0 <= base g1) by (by rewrite Hb1).
  destruct (refactor_Ok D fuel g1 _ Hn1 Htg1) as [g2 Hr]. exists g2.
  destruct (refactor_resolved D fuel g1 g2 _ Hn1 Hbase1 Htg1 Hr)
    as (Hn2 & Hb2 & [Hlay _] & Hk).
  split_and!; [done|done|done|by rewrite <- Hb1, <- Hb2| |].
  - intros a Ha. apply (refactor_dict D fuel g1 g2 _ Hn1 Hr) in Ha as [Hi _].
    done.
  - intros i Hi Hj.
    destruct (Htg1 i Hi (proj2 (Hj1 i) Hj)) as (t & Htt & Htl).
    destruct (Hk i t Hi (proj2 (Hj1 i) Hj) Htt) as [Ht2 Hx2].
    split.
    + rewrite Ht2, <- Htt, Ht, Hm. done.
    + exists t. split_and!; [done|done|done|].
      apply (refactor_jump_label D fuel g1 g2 (l1 ++ m :: l2)); try done.
      by apply Hj1.
Qed.

Lemma delete_node_then_refactor_witness :
  ∃ g1 g2,
    delete_node graph_if 3%nat = Ok g1 ∧ refactor py27 10 g1 = Ok g2 ∧
    nodes 10 g2 None = Some ([0; 1; 2] ++ 4 :: [5; 6])%nat ∧
    contiguous py27 (store g2) (base graph_if) ([0; 1; 2] ++ 4 :: [5; 6])%nat ∧
    (∀ a, bytecodes g2 !! a ≠ Some 3%nat) ∧
    (∀ i, i ∈ ([0; 1; 2] ++ 4 :: [5; 6])%nat -> is_jump py27 (store graph_if i) ->
       target (store g2 i) =
         (if bool_decide (i ∈ xrefs (store graph_if 3%nat)) then Some 4%nat
          else target (store graph_if i)) ∧
       ∃ t, target (store g2 i) = Some t ∧
            t ∈ ([0; 1; 2] ++ 4 :: [5; 6])%nat ∧
            i ∈ xrefs (store g2 t) ∧
            jump_label py27 (store g2 i) = Ok (Some (addr (store g2 t)))).
Proof.
  apply (delete_node_then_refactor py27 10 graph_if 3%nat 4%nat
           [0; 1; 2]%nat [5; 6]%nat).
  - vm_compute. reflexivity.
  - vm_compute. reflexivity.
  - vm_compute. discriminate.
  - by_eval.
  - intros i Hi Hj.
    assert (Hi' : i = 1%nat ∨ i = 4%nat).
    { revert Hj. unfold is_jump.
      repeat (apply elem_of_cons in Hi as [->|Hi]);
        try (by apply elem_of_nil in Hi); auto;
        intros [_ [H|H]]; exfalso; revert H; by_eval. }
    destruct Hi' as [->| ->]; exists 5%nat; split_and!;
      solve [vm_compute; reflexivity | by_eval].
Defined.

Section Shift.

Variable D : Dis.

(** *** Addresses around an insertion *)

Lemma contiguous_shift (h h' : Store) d l : ∀ a,
  (∀ j, opcode (h' j) = opcode (h j)) ->
  contiguous D h a l -> contiguous D h' (a + d) l ->
  ∀ i, i ∈ l -> addr (h' i) = addr (h i) + d.
Proof.
  induction l as [|k r IH]; intros a Ho; simpl.
  - intros _ _ i Hi. by apply elem_of_nil in Hi.
  - intros [Hk Hr] [Hk' Hr'] i [->|Hi]%elem_of_cons; [lia|].
    rewrite (len_opcode D _ _ (Ho k)) in Hr'.
    replace (a + d + len D (h k)) with (a + len D (h k) + d) in Hr' by lia.
    by apply (IH _ Ho Hr Hr').
Qed.

Lemma contiguous_insert (h h' : Store) p bc l2 l1 : ∀ a,
  (∀ j, opcode (h' j) = opcode (h j)) ->
  contiguous D h a (l1 ++ p :: l2) ->
  contiguous D h' a (l1 ++ p :: bc :: l2) ->
  (∀ i, i ∈ l1 ++ [p] -> addr (h' i) = addr (h i)) ∧
  addr (h' bc) = addr (h p) + len D (h p) ∧
  (∀ i, i ∈ l2 -> addr (h' i) = addr (h i) + len D (h bc)).
Proof.
  induction l1 as [|k r IH]; intros a Ho; simpl.
  - intros [Hp Hr] (Hp' & Hbc & Hr').
    rewrite (len_opcode D _ _ (Ho p)) in Hbc, Hr'.
    rewrite (len_opcode D _ _ (Ho bc)) in Hr'.
    split_and!.
    + intros i ->%list_elem_of_singleton. lia.
    + lia.
    + by apply (contiguous_shift h h' _ l2 (a + len D (h p))).
  - intros [Hk Hr] [Hk' Hr'].
    rewrite (len_opcode D _ _ (Ho k)) in Hr'.
    destruct (IH _ Ho Hr Hr') as (H1 & H2 & H3).
    split_and!; [|done|done].
    intros i [->|Hi]%elem_of_cons; [lia|by apply H1].
Qed.

End Shift.

(** X12. Inserting an instruction keeps the control flow. In a graph
    that is laid out from a base that is not negative and whose jumps
    all have their target in the list, [add_node(parent, bc)] of a new
    node [bc] that is no jump, followed by [refactor], returns. The
    nodes up to [parent] keep their address, [bc] lies right after
    [parent], every later node is moved by the length of [bc], and every
    jump keeps its target, its operand now computing the target's new
    address. *)
Theorem add_node_then_refactor (D : Dis) fuel g parent bc ln l1 l2 :
  nodes fuel g None = Some (l1 ++ parent :: l2) ->
  bc ∉ l1 ++ parent :: l2 ->
  0 <= base g ->
  contiguous D (store g) (base g) (l1 ++ parent :: l2) ->
  (∀ i, i ∈ l1 ++ parent :: l2 -> is_jump D (store g i) ->
     ∃ t, target (store g i) = Some t ∧ t ∈ l1 ++ parent :: l2) ->
  ¬ is_jump D (store g bc) ->
  ∃ g', refactor D (S fuel) (add_node g parent bc ln) = Ok g' ∧
    nodes (S fuel) g' None = Some (l1 ++ parent :: bc :: l2) ∧
    (∀ i, i ∈ l1 ++ [parent] -> addr (store g' i) = addr (store g i)) ∧
    addr (store g' bc) = addr (store g parent) + len D (store g parent) ∧
    (∀ i, i ∈ l2 -> addr (store g' i) = addr (store g i) + len D (store g bc)) ∧
    (∀ i t, i ∈ l1 ++ parent :: l2 -> is_jump D (store g i) ->
       target (store g i) = Some t ->
       target (store g' i) = Some t ∧ i ∈ xrefs (store g' t) ∧
       jump_label D (store g' i) = Ok (Some (addr (store g' t)))).
Proof.
  intros Hn Hbc Hb Hlay Htg Hnj.
  pose proof (nodes_from_NoDup _ _ _ _ Hn) as Hnd.
  pose proof (nodes_from_chain _ _ _ _ Hn) as Hc.
  pose proof (nodes_from_length _ _ _ _ Hn) as Hlen.
  pose proof (chain_app_cons _ _ _ _ _ Hc) as Hc2.
  assert (Hpb : parent ≠ bc).
  { intros ->. apply Hbc. apply elem_of_app. right. by left. }
  assert (Hnb : next (store g parent) ≠ Some bc).
  { destruct l2 as [|m l2']; simpl in Hc2; [by rewrite Hc2|].
    destruct Hc2 as [-> _]. intros [= ->]. apply Hbc.
    apply elem_of_app. right. right. by left. }
  assert (Hnp : next (store g parent) ≠ Some parent).
  { destruct l2 as [|m l2']; simpl in Hc2; [by rewrite Hc2|].
    destruct Hc2 as [-> _]. intros [= ->].
    apply NoDup_app in Hnd as (_ & _ & Hnd).
    apply NoDup_cons in Hnd as [Hp _]. apply Hp. by left. }
  destruct (add_node_spec g parent bc ln Hpb Hnb Hnp)
    as (Hbase & _ & Hhead & _ & Hfields & _ & Hnext & _).
  set (g0 := add_node g parent bc ln) in *.
  assert (Hn0 : nodes (S fuel) g0 None = Some (l1 ++ parent :: bc :: l2)).
  { unfold nodes. cbn [start_of]. rewrite Hhead. apply chain_nodes_from.
    - by apply (chain_insert (store g)).
    - rewrite length_app in *. simpl in *. lia. }
  assert (Hsub : ∀ i, i ∈ l1 ++ parent :: bc :: l2 ->
            i = bc ∨ i ∈ l1 ++ parent :: l2).
  { intros i. rewrite !elem_of_app, !elem_of_cons. tauto. }
  assert (Hsup : ∀ i, i ∈ l1 ++ parent :: l2 -> i ∈ l1 ++ parent :: bc :: l2).
  { intros i. rewrite !elem_of_app, !elem_of_cons. tauto. }
  assert (Hj0 : ∀ i, is_jump D (store g0 i) ↔ is_jump D (store g i)).
  { intros i. destruct (Hfields i) as (Ho & _). unfold is_jump.
    by rewrite Ho. }
  assert (Htg0 : ∀ i, i ∈ l1 ++ parent :: bc :: l2 -> is_jump D (store g0 i) ->
            ∃ t, target (store g0 i) = Some t ∧ t ∈ l1 ++ parent :: bc :: l2).
  { intros i Hi Hj. apply Hj0 in Hj.
    destruct (Hsub i Hi) as [->|Hi']; [done|].
    destruct (Htg i Hi' Hj) as (t & Ht & Htl). exists t.
    destruct (Hfields i) as (_ & _ & _ & _ & ->). auto. }
  assert (Hb0 : 0 <= base g0) by (by rewrite Hbase).
  destruct (refactor_Ok D (S fuel) g0 _ Hn0 Htg0) as [g' Hr]. exists g'.
  destruct (refactor_resolved D (S fuel) g0 g' _ Hn0 Hb0 Htg0 Hr)
    as (Hn' & Hb' & [Hlay' _] & Hk).
  assert (Hop : ∀ j, opcode (store g' j) = opcode (store g j)).
  { destruct (refactor_spec D _ _ _ _ Hn0 Hr)
      as (h1 & h2 & _ & Hh & _ & R1 & R2 & R3 & _).
    intros j.
    destruct (refactor_frame (S fuel) g0 g' _ h1 h2 R1 R2 R3 Hh Hn0)
      as [_ Hf]. destruct (Hf j) as (-> & _).
    by destruct (Hfields j) as (-> & _). }
  rewrite Hb', Hbase in Hlay'.
  destruct (contiguous_insert D (store g) (store g') parent bc l2 l1 (base g)
              Hop Hlay Hlay') as (A1 & A2 & A3).
  split_and!; try done.
  intros i t Hi Hj Ht.
  assert (Ht0 : target (store g0 i) = Some t).
  { by destruct (Hfields i) as (_ & _ & _ & _ & ->). }
  destruct (Hk i t (Hsup i Hi) (proj2 (Hj0 i) Hj) Ht0) as [H1 H2].
  split_and!; [done|done|].
  apply (refactor_jump_label D (S fuel) g0 g' (l1 ++ parent :: bc :: l2));
    try done; [by apply Hsup|by apply Hj0].
Qed.

Lemma add_node_then_refactor_witness :
  ∃ g', refactor py27 5 (add_node graph_loop_nop 0%nat 4%nat (Some 400))
          = Ok g' ∧
    nodes 5 g' None = Some ([] ++ 0 :: 4 :: [1; 2; 3])%nat ∧
    (∀ i, i ∈ ([] ++ [0])%nat ->
       addr (store g' i) = addr (store graph_loop_nop i)) ∧
    addr (store g' 4%nat)
      = addr (store graph_loop_nop 0%nat)
        + len py27 (store graph_loop_nop 0%nat) ∧
    (∀ i, i ∈ [1; 2; 3]%nat ->
       addr (store g' i)
       = addr (store graph_loop_nop i) + len py27 (store graph_loop_nop 4%nat)) ∧
    (∀ i t, i ∈ ([] ++ 0 :: [1; 2; 3])%nat ->
       is_jump py27 (store graph_loop_nop i) ->
       target (store graph_loop_nop i) = Some t ->
       target (store g' i) = Some t ∧ i ∈ xrefs (store g' t) ∧
       jump_label py27 (store g' i) = Ok (Some (addr (store g' t)))).
Proof.
  apply (add_node_then_refactor py27 4 graph_loop_nop 0%nat 4%nat (Some 400)
           [] [1; 2; 3]%nat).
  - vm_compute. reflexivity.
  - by_eval.
  - vm_compute. discriminate.
  - by_eval.
  - intros i Hi Hj.
    assert (Hi' : i = 0%nat ∨ i = 1%nat).
    { revert Hj. unfold is_jump.
      repeat (apply elem_of_cons in Hi as [->|Hi]);
        try (by apply elem_of_nil in Hi); auto;
        intros [_ [H|H]]; exfalso; revert H; by_eval. }
    destruct Hi' as [->| ->]; [exists 2%nat|exists 1%nat]; split;
      solve [vm_compute; reflexivity | by_eval].
  - by_eval.
Defined.

Section LineTables.

Variable D : Dis.

(** *** Line tables the constructor does not take *)

Lemma apply_lineno_short fuel g :
  (length (co_lnotab (code g)) <= 1)%nat -> apply_lineno fuel g = Ok g.
Proof.
  unfold apply_lineno; cbv zeta.
  destruct (co_lnotab (code g)) as [|x [|y r]]; simpl; [done|done|lia].
Qed.

Lemma apply_lineno_one_pair fuel g :
  (length (co_lnotab (code g)) = 2 ∨ length (co_lnotab (code g)) = 3)%nat ->
  apply_lineno fuel g = Raise IndexError.
Proof.
  unfold apply_lineno; cbv zeta.
  destruct (co_lnotab (code g)) as [|x [|y [|z [|w r]]]]; simpl;
    intros [?|?]; try lia; done.
Qed.

Lemma refactor_line fuel g g' l j :
  nodes fuel g None = Some l -> refactor D fuel g = Ok g' ->
  node_co_lnotab (store g' j) = node_co_lnotab (store g j).
Proof.
  intros Hn Hr.
  destruct (refactor_spec D _ _ _ _ Hn Hr)
    as (h1 & h2 & _ & _ & _ & R1 & R2 & R3 & _).
  destruct (R1 j) as (_&_&_&_&_&_&H1), (R2 j) as (_&_&_&_&_&_&H2),
           (R3 j) as (_&_&_&_&_&H3).
  congruence.
Qed.

End LineTables.

(** X13. A line table of one pair cannot be loaded: when the stream
    itself decodes (base address 0) and [co_lnotab] has two or three
    bytes, the constructor raises IndexError, at the second
    [linenos.pop(0)] of [apply_lineno]. *)
Theorem init_one_pair_line_table_raises (D : Dis) fuel c g :
  (parse_bytecode D fuel 0 c).2 = Ok g ->
  (length (co_lnotab c) = 2 ∨ length (co_lnotab c) = 3)%nat ->
  (BytecodeGraph_init D fuel c 0).2 = Raise IndexError.
Proof.
  intros Hp Hlen. unfold BytecodeGraph_init. cbn [snd]. rewrite Hp.
  cbn [mbind res_bind].
  destruct (parse_bytecode_graph D _ _ _ Hp) as (v & H). cbv zeta in H.
  destruct H as (_ & _ & _ & _ & _ & _ & Hc & _).
  apply apply_lineno_one_pair. by rewrite Hc.
Qed.

Lemma init_one_pair_line_table_raises_witness :
  (BytecodeGraph_init py27 10 code_one_line 0).2 = Raise IndexError.
Proof.
  apply (init_one_pair_line_table_raises py27 10 code_one_line
           (from_res (parse_bytecode py27 10 0 code_one_line).2)).
  - apply from_res_Ok. vm_compute. reflexivity.
  - left. vm_compute. reflexivity.
Defined.

(** X14. A code object without line table loads but cannot be encoded
    again: when [co_lnotab] is empty (or one byte long) and the
    constructor returns a graph for a stream of bytes at base address 0,
    no node has a line, and [get_code] on that graph raises TypeError,
    at [current.co_lnotab - prev_lineno] in [calc_lnotab]. *)
Theorem empty_line_table_get_code_raises (D : Dis) fuel c g :
  Forall is_byte (co_code c) ->
  (length (co_lnotab c) <= 1)%nat ->
  (BytecodeGraph_init D fuel c 0).2 = Ok g ->
  (∀ l i, nodes fuel g None = Some l -> i ∈ l ->
     node_co_lnotab (store g i) = None) ∧
  get_code D fuel g None = Raise TypeError.
Proof.
  intros Hbytes Hlen Hinit.
  destruct (BytecodeGraph_init_graph D _ _ _ Hbytes Hinit)
    as (l & Hn & Hb & Hc & Hlay & _).
  revert Hinit. unfold BytecodeGraph_init. cbn [snd].
  intros (g0 & Hp & Hln)%bind_Ok.
  destruct (parse_bytecode_graph D _ _ _ Hp) as (v & H). cbv zeta in H.
  destruct H as (Hinv & _ & Hfresh & _ & Hn0 & _ & Hc0 & Hh0 & _ & Hrel & _).
  rewrite apply_lineno_short in Hln by (by rewrite Hc0).
  injection Hln as <-.
  assert (l = seq 0 (p_fresh v)) as -> by congruence.
  assert (Hnone : ∀ i, i ∈ seq 0 (p_fresh v) ->
            node_co_lnotab (store g0 i) = None).
  { intros i Hi. destruct Hinv as (_ & _ & _ & _ & _ & _ & _ & Hnodes).
    destruct (Hnodes i Hi) as (_ & _ & Hl & _).
    destruct (Hrel i) as (_ & _ & _ & _ & _ & ->). done. }
  split.
  - intros l i Hl Hi. apply Hnone. congruence.
  - assert (Htg : ∀ i, i ∈ seq 0 (p_fresh v) -> is_jump D (store g0 i) ->
              ∃ t, target (store g0 i) = Some t ∧ t ∈ seq 0 (p_fresh v)).
    { intros i Hi Hj. destruct Hlay as [_ Hres].
      destruct (Hres i Hi Hj) as (t & lab & Ht & Htl & _). eauto. }
    destruct (refactor_Ok D fuel g0 _ Hn Htg) as [g1 Hr].
    unfold get_code. rewrite Hr. cbn [mbind res_bind].
    destruct (refactor_spec D _ _ _ _ Hn Hr) as (_ & _ & _ & Hh1 & _).
    destruct fuel as [|f].
    { unfold nodes in Hn. cbn [start_of] in Hn. rewrite Hh0 in Hn. done. }
    rewrite (calc_lnotab_no_line f g1 0%nat); [done|by rewrite Hh1|].
    rewrite (refactor_line D (S f) g0 g1 _ 0%nat Hn Hr).
    apply Hnone. apply elem_of_seq. lia.
Qed.

Lemma empty_line_table_get_code_raises_witness :
  (∀ l i, nodes 10 (from_res (BytecodeGraph_init py27 10 code_first_line 0).2)
            None = Some l -> i ∈ l ->
     node_co_lnotab
       (store (from_res (BytecodeGraph_init py27 10 code_first_line 0).2) i)
     = None) ∧
  get_code py27 10 (from_res (BytecodeGraph_init py27 10 code_first_line 0).2)
    None = Raise TypeError.
Proof.
  apply (empty_line_table_get_code_raises py27 10 code_first_line).
  - by_eval.
  - vm_compute. lia.
  - apply from_res_Ok. vm_compute. reflexivity.
Defined.

(** X15. Decoding one instruction and encoding it again gives the bytes
    that were read: for a buffer of bytes, [Bytecode(addr, buffer).bin()]
    is the first [len()] bytes of the buffer. *)
Theorem decode_encode_instruction (D : Dis) a buffer p b :
  Forall is_byte buffer ->
  Bytecode_init D a buffer p = Ok b ->
  bin D b = Ok (take (Z.to_nat (len D b)) buffer).
Proof. apply Bytecode_init_bin. Qed.

Lemma decode_encode_instruction_witness :
  bin py27 (mkBytecode 114 6 (Some 13) None None [] None None)
  = Ok (take (Z.to_nat (len py27 (mkBytecode 114 6 (Some 13) None None []
                                    None None)))
          [114; 13; 0; 100]).
Proof.
  apply (decode_encode_instruction py27 6 [114; 13; 0; 100] None).
  - by_eval.
  - vm_compute. reflexivity.
Defined.

(** X16. Encoding one instruction and decoding the bytes gives the
    opcode and the operand back, whatever follows in the buffer, as long
    as an opcode without argument carries no operand; the decoder reads
    exactly the bytes [bin()] wrote. *)
Theorem encode_decode_instruction (D : Dis) b bs rest a p :
  bin D b = Ok bs ->
  (opcode b < HAVE_ARGUMENT D -> oparg b = None) ->
  ∃ b', Bytecode_init D a (bs ++ rest) p = Ok b' ∧
        opcode b' = opcode b ∧ oparg b' = oparg b ∧
        len D b' = Z.of_nat (length bs).
Proof.
  intros Hb Hn.
  destruct (bin_Bytecode_init D b bs rest a p Hb Hn) as (b' & Hi & Ho & Ha).
  exists b'. split_and!; [done|done|done|].
  rewrite (bin_length D _ _ Hb). by apply len_opcode.
Qed.

Lemma encode_decode_instruction_witness :
  ∃ b', Bytecode_init py27 0 ([114; 13; 0] ++ [100; 1; 0]) None = Ok b' ∧
        opcode b' = opcode (mkBytecode 114 6 (Some 13) None None [] None None) ∧
        oparg b' = oparg (mkBytecode 114 6 (Some 13) None None [] None None) ∧
        len py27 b' = Z.of_nat (length [114; 13; 0]).
Proof.
  apply (encode_decode_instruction py27
           (mkBytecode 114 6 (Some 13) None None [] None None)).
  - vm_compute. reflexivity.
  - vm_compute. discriminate.
Defined.

Section Emit.

Variable D : Dis.

(** *** What [get_code] cannot encode *)

Lemma bin_exn b : (∃ bs, bin D b = Ok bs) ∨ bin D b = Raise StructError.
Proof.
  unfold bin, pack_B, pack_H.
  repeat (case_bool_decide || case_match || simpl); eauto.
Qed.

Lemma bin_negative_operand b v :
  HAVE_ARGUMENT D <= opcode b -> oparg b = Some v -> ¬ 0 <= v <= 65535 ->
  bin D b = Raise StructError.
Proof.
  unfold bin, pack_B, pack_H. intros Hop -> Hv.
  rewrite (bool_decide_true _ Hop), (bool_decide_false _ Hv).
  by case_bool_decide.
Qed.

Lemma get_code_loop_raises l : ∀ s i,
  i ∈ l -> bin D (s.1 i) = Raise StructError ->
  run_list (get_code_body D) l s = Raise StructError.
Proof.
  induction l as [|k r IH]; intros s i Hi Hb; cbn [run_list].
  - by apply elem_of_nil in Hi.
  - assert (Hbody : get_code_body D k s
                    = (b ← bin D (s.1 k); Ok (s.1, s.2 ++ b))) by done.
    rewrite Hbody.
    destruct (bin_exn (s.1 k)) as [[bs E]|E]; rewrite E; [|done].
    cbn [mbind res_bind]. apply elem_of_cons in Hi as [->|Hi]; [congruence|].
    by apply (IH _ i).
Qed.

Lemma get_code_loop_Ok l : ∀ (h : Store) acc bss,
  Forall2 (fun i bs => bin D (h i) = Ok bs) l bss ->
  run_list (get_code_body D) l (h, acc) = Ok (h, acc ++ concat bss).
Proof.
  induction l as [|k r IH]; intros h acc bss H; cbn [run_list].
  - apply Forall2_nil_inv_l in H as ->. simpl. by rewrite app_nil_r.
  - apply Forall2_cons_inv_l in H as (bs & bss' & Hb & Hr & ->).
    assert (Hbody : get_code_body D k (h, acc)
                    = (b ← bin D (h k); Ok (h, acc ++ b))) by done.
    rewrite Hbody, Hb. cbn [mbind res_bind].
    rewrite (IH _ _ _ Hr). simpl. by rewrite app_assoc.
Qed.

Lemma contiguous_app h l1 l2 : ∀ a,
  contiguous D h a (l1 ++ l2) ->
  contiguous D h a l1 ∧ contiguous D h (stream_end D h a l1) l2.
Proof.
  induction l1 as [|k r IH]; intros a; simpl; [done|].
  intros [Hk Hr]. destruct (IH _ Hr). done.
Qed.

Lemma nodes_from_suffix fuel h cur pre s r :
  nodes_from fuel h cur = Some (pre ++ s :: r) ->
  nodes_from fuel h (Some s) = Some (s :: r).
Proof.
  intros Hn. pose proof (nodes_from_chain _ _ _ _ Hn) as Hc.
  pose proof (nodes_from_length _ _ _ _ Hn) as Hlen.
  apply chain_nodes_from.
  - split; [done|]. by apply (chain_app_cons _ _ _ _ _ Hc).
  - rewrite length_app in Hlen. simpl in *. lia.
Qed.

(** After [refactor] the operand of a jump is what [patch_opargs]
    computed from the new addresses. *)
Lemma refactor_operand fuel g g' l i t :
  nodes fuel g None = Some l -> refactor D fuel g = Ok g' ->
  i ∈ l -> is_jump D (store g i) -> target (store g i) = Some t ->
  oparg (store g' i) =
    Some (if bool_decide (opcode (store g i) ∈ hasjrel D)
          then addr (store g' t) - (addr (store g' i) + len D (store g' i))
          else addr (store g' t)).
Proof.
  intros Hn Hr Hi [Hop Hj] Ht.
  destruct (refactor_spec D _ _ _ _ Hn Hr)
    as (h1 & h2 & _ & Hh & _ & R1 & R2 & R3 & _ & _ & Hp & _).
  destruct (refactor_frame fuel g g' l h1 h2 R1 R2 R3 Hh Hn) as [_ Hf].
  destruct (R1 i) as (Ho1 & _ & _ & _ & _ & Ht1 & _).
  destruct (Hf i) as (Ho & Ha & Hg & _). destruct (Hf t) as (_ & Hat & _).
  specialize (Hp i Hi). unfold patched in Hp.
  rewrite Ho1, Ht1, Ht, (len_opcode D _ _ Ho1) in Hp.
  destruct (Hp Hop) as [P1 P2].
  rewrite Hg, Ha, Hat, (len_opcode D _ _ Ho).
  case_bool_decide as Hrel.
  - by destruct (P1 Hrel) as (t' & [= <-] & ->).
  - destruct Hj as [?|Habs]; [done|].
    by destruct (P2 Hrel Habs) as (t' & [= <-] & ->).
Qed.

End Emit.

(** X17. A relative jump cannot go backwards. When a jump of [hasjrel]
    has for target a node that is not after it in the list (itself
    included), [patch_opargs] gives it a negative operand, and [get_code]
    raises [struct.error], provided [refactor] and [calc_lnotab]
    returned. *)
Theorem get_code_backward_relative_jump_raises (D : Dis)
    fuel g g1 lt l1 t l2 i start :
  nodes fuel g None = Some (l1 ++ t :: l2) ->
  i ∈ t :: l2 ->
  HAVE_ARGUMENT D <= opcode (store g i) ->
  opcode (store g i) ∈ hasjrel D ->
  target (store g i) = Some t ->
  refactor D fuel g = Ok g1 ->
  calc_lnotab fuel g1 = Ok lt ->
  (start = None ∨ start = Some t) ->
  (∃ v, oparg (store g1 i) = Some v ∧ v < 0) ∧
  get_code D fuel g start = Raise StructError.
Proof.
  intros Hn Hi Hop Hrel Ht Hr Hl Hstart.
  assert (Hil : i ∈ l1 ++ t :: l2) by (apply elem_of_app; by right).
  assert (Hj : is_jump D (store g i)) by (split; auto).
  pose proof (refactor_operand D fuel g g1 _ i t Hn Hr Hil Hj Ht) as Hv.
  rewrite bool_decide_true in Hv by done.
  destruct (refactor_spec D _ _ _ _ Hn Hr)
    as (h1 & h2 & _ & Hh & _ & R1 & R2 & R3 & Hc & _).
  destruct (refactor_frame fuel g g1 _ h1 h2 R1 R2 R3 Hh Hn) as [Hn1 Hf].
  assert (Hlow : addr (store g1 t) <= addr (store g1 i)).
  { destruct (Hf i) as (_ & -> & _), (Hf t) as (_ & -> & _).
    apply contiguous_app in Hc as [_ Hc2].
    pose proof (contiguous_lower D _ _ _ _ Hc2 Hi) as Hlo.
    simpl in Hc2. destruct Hc2 as [-> _]. done. }
  pose proof (len_pos D (store g1 i)) as Hpos.
  split; [eexists; split; [exact Hv|lia]|].
  assert (Hbin : bin D (store g1 i) = Raise StructError).
  { apply (bin_negative_operand D _ _) with (2 := Hv); [|lia].
    destruct (Hf i) as (-> & _). done. }
  unfold get_code. rewrite Hr. cbn [mbind res_bind]. rewrite Hl.
  cbn [mbind res_bind].
  assert (Hns : ∃ l', nodes fuel g1 start = Some l' ∧ i ∈ l').
  { destruct Hstart as [->| ->]; [eauto|]. exists (t :: l2). split; [|done].
    unfold nodes in *. cbn [start_of] in *.
    apply (nodes_from_suffix fuel _ (head g1) l1). exact Hn1. }
  destruct Hns as (l' & Hn' & Hi').
  unfold nodes in Hn'.
  rewrite (for_nodes_run_list _ (get_code_body_next D) _ _ _ l') by done.
  by rewrite (get_code_loop_raises D l' _ i).
Qed.

Lemma get_code_backward_relative_jump_raises_witness :
  (∃ v, oparg (store (from_res (refactor py27 10 graph_back_jump)) 1%nat)
        = Some v ∧ v < 0) ∧
  get_code py27 10 graph_back_jump None = Raise StructError.
Proof.
  apply (get_code_backward_relative_jump_raises py27 10 graph_back_jump
           (from_res (refactor py27 10 graph_back_jump)) [0; 1; 3; 1]
           [] 0%nat [1; 2]%nat 1%nat None).
  - vm_compute. reflexivity.
  - by_eval.
  - vm_compute. discriminate.
  - by_eval.
  - vm_compute. reflexivity.
  - apply from_res_Ok. vm_compute. reflexivity.
  - vm_compute. reflexivity.
  - by left.
Defined.

Section Output.

Variable D : Dis.

(** *** Where [get_code] puts each instruction *)

Lemma bins_bytes (h : Store) l bss :
  Forall2 (fun i bs => bin D (h i) = Ok bs) l bss ->
  Forall is_byte (concat bss).
Proof.
  induction 1 as [|k bs l bss Hb _ IH]; simpl; [constructor|].
  apply Forall_app. split; [by apply (bin_bytes D (h k))|done].
Qed.

Lemma slice_lookup (c bs : list Z) k j x :
  take (length bs) (drop k c) = bs -> bs !! j = Some x ->
  c !! (k + j)%nat = Some x.
Proof.
  intros <- Hx. apply lookup_take_Some in Hx as [Hx _].
  by rewrite lookup_drop in Hx.
Qed.

Lemma refactor_contiguous fuel g g' l :
  nodes fuel g None = Some l -> refactor D fuel g = Ok g' ->
  nodes fuel g' None = Some l ∧ code g' = code g ∧
  contiguous D (store g') (base g) l.
Proof.
  intros Hn Hr.
  destruct (refactor_spec D _ _ _ _ Hn Hr)
    as (h1 & h2 & _ & Hh & Hcode & R1 & R2 & R3 & Hc & _).
  destruct (refactor_frame fuel g g' l h1 h2 R1 R2 R3 Hh Hn) as [Hn' Hf].
  split_and!; [done|done|].
  apply (contiguous_ext D h1); [|done]. intros j _.
  destruct (Hf j) as (Ho & Ha & _). destruct (R1 j) as (Ho1 & _).
  split; congruence.
Qed.

End Output.

(** X18. The layout of the stream [get_code()] returns. The stream holds
    bytes only; its length is the end of the relocated list minus the
    base; the opcode of every node is at the node's address minus the
    base, followed, for an opcode with argument, by the low and the high
    byte of its operand, which lies in 0..65535. The first line number is
    the one of the code object the graph was built from. *)
Theorem get_code_layout (D : Dis) fuel g out :
  get_code D fuel g None = Ok out ->
  ∃ g1 l, refactor D fuel g = Ok g1 ∧ nodes fuel g1 None = Some l ∧
    co_firstlineno out = co_firstlineno (code g) ∧
    Forall is_byte (co_code out) ∧
    base g + Z.of_nat (length (co_code out))
      = stream_end D (store g1) (base g) l ∧
    ∀ i, i ∈ l ->
      let k := Z.to_nat (addr (store g1 i) - base g) in
      co_code out !! k = Some (opcode (store g1 i)) ∧
      (HAVE_ARGUMENT D <= opcode (store g1 i) ->
       ∃ v, oparg (store g1 i) = Some v ∧ 0 <= v <= 65535 ∧
            co_code out !! S k = Some (Z.land v 255) ∧
            co_code out !! S (S k) = Some (Z.shiftr v 8)).
Proof.
  intros Hg.
  destruct (get_code_complete D _ _ _ _ Hg)
    as (g1 & l & bss & Hr & _ & Hn1 & Hall & Hcode).
  destruct (refactor_Ok_nodes D _ _ _ Hr) as [l0 Hn0].
  destruct (refactor_contiguous D _ _ _ _ Hn0 Hr) as (Hn1' & Hc1 & Hlay).
  assert (l0 = l) as -> by congruence.
  exists g1, l. split_and!; try done.
  - revert Hg. unfold get_code. rewrite Hr. cbn [mbind res_bind].
    intros (ln & _ & (s & _ & [= <-])%bind_Ok)%bind_Ok. simpl.
    by rewrite Hc1.
  - rewrite Hcode. by apply (bins_bytes D (store g1) l).
  - rewrite Hcode. by apply concat_bins_length.
  - intros i Hi k.
    destruct (concat_bins_at D _ _ _ _ Hall Hlay i Hi) as (bs & Hb & Hs).
    fold k in Hs. rewrite <- Hcode in Hs.
    destruct (bin_cases D _ _ Hb) as [_ [[Hlt ->]|[Hge (v & Hv & Hr' & ->)]]].
    + split; [|lia].
      rewrite <- (Nat.add_0_r k). by apply (slice_lookup _ [opcode (store g1 i)]).
    + split.
      * rewrite <- (Nat.add_0_r k). by eapply slice_lookup.
      * intros _. exists v. split; [done|]. split; [done|]. split.
        -- replace (S k) with (k + 1)%nat by lia. by eapply slice_lookup.
        -- replace (S (S k)) with (k + 2)%nat by lia. by eapply slice_lookup.
Qed.

Lemma get_code_layout_witness :
  ∃ g1 l, refactor py27 10 graph_if_deleted = Ok g1 ∧
    nodes 10 g1 None = Some l ∧
    co_firstlineno (mkCode [124; 0; 0; 114; 12; 0; 100; 1; 0; 110; 0; 0;
                            100; 2; 0; 83] 1 [0; 1; 6; 1; 6; 2])
      = co_firstlineno (code graph_if_deleted) ∧
    Forall is_byte
      (co_code (mkCode [124; 0; 0; 114; 12; 0; 100; 1; 0; 110; 0; 0;
                        100; 2; 0; 83] 1 [0; 1; 6; 1; 6; 2])) ∧
    base graph_if_deleted
      + Z.of_nat (length (co_code
                            (mkCode [124; 0; 0; 114; 12; 0; 100; 1; 0;
                                     110; 0; 0; 100; 2; 0; 83] 1
                                    [0; 1; 6; 1; 6; 2])))
      = stream_end py27 (store g1) (base graph_if_deleted) l ∧
    ∀ i, i ∈ l ->
      let k := Z.to_nat (addr (store g1 i) - base graph_if_deleted) in
      co_code (mkCode [124; 0; 0; 114; 12; 0; 100; 1; 0; 110; 0; 0;
                       100; 2; 0; 83] 1 [0; 1; 6; 1; 6; 2]) !! k
        = Some (opcode (store g1 i)) ∧
      (HAVE_ARGUMENT py27 <= opcode (store g1 i) ->
       ∃ v, oparg (store g1 i) = Some v ∧ 0 <= v <= 65535 ∧
            co_code (mkCode [124; 0; 0; 114; 12; 0; 100; 1; 0; 110; 0; 0;
                             100; 2; 0; 83] 1 [0; 1; 6; 1; 6; 2]) !! S k
              = Some (Z.land v 255) ∧
            co_code (mkCode [124; 0; 0; 114; 12; 0; 100; 1; 0; 110; 0; 0;
                             100; 2; 0; 83] 1 [0; 1; 6; 1; 6; 2]) !! S (S k)
              = Some (Z.shiftr v 8)).
Proof.
  apply (get_code_layout py27 10 graph_if_deleted).
  vm_compute. reflexivity.
Defined.

(** X19. [get_code(start)] with a node [start] of the list returns the
    end of the stream [get_code()] returns, from the address of [start]
    on, and the same line table and first line: the bytes before [start]
    are left out, while the jump operands and the line table are those of
    the whole list. *)
Theorem get_code_from_start (D : Dis) fuel g out g1 pre s r :
  get_code D fuel g None = Ok out ->
  refactor D fuel g = Ok g1 ->
  nodes fuel g1 None = Some (pre ++ s :: r) ->
  ∃ out', get_code D fuel g (Some s) = Ok out' ∧
    co_lnotab out' = co_lnotab out ∧
    co_firstlineno out' = co_firstlineno out ∧
    co_code out'
      = drop (Z.to_nat (addr (store g1 s) - base g)) (co_code out).
Proof.
  intros Hg Hr Hn1.
  destruct (get_code_complete D _ _ _ _ Hg)
    as (g1' & l & bss & Hr' & Hl & Hn1' & Hall & Hcode).
  assert (g1' = g1) as -> by congruence.
  assert (l = pre ++ s :: r) as -> by congruence.
  destruct (refactor_Ok_nodes D _ _ _ Hr) as [l0 Hn0].
  destruct (refactor_contiguous D _ _ _ _ Hn0 Hr) as (Hn1'' & Hc1 & Hlay).
  assert (l0 = pre ++ s :: r) as -> by congruence.
  apply Forall2_app_inv_l in Hall as (b1 & b2 & H1 & H2 & ->).
  assert (Hout : co_firstlineno out = co_firstlineno (code g1)).
  { revert Hg. unfold get_code. rewrite Hr. cbn [mbind res_bind].
    by intros (ln & _ & (s0 & _ & [= <-])%bind_Ok)%bind_Ok. }
  exists (mkCode (concat b2) (co_firstlineno (code g1)) (co_lnotab out)).
  split_and!; [|done|done|].
  - unfold get_code. rewrite Hr. cbn [mbind res_bind]. rewrite Hl.
    cbn [mbind res_bind start_of].
    rewrite (for_nodes_run_list _ (get_code_body_next D) _ _ _ (s :: r)).
    + by rewrite (get_code_loop_Ok D _ _ _ _ H2).
    + unfold nodes in Hn1. cbn [start_of] in Hn1.
      apply (nodes_from_suffix fuel _ (head g1) pre). exact Hn1.
  - simpl. rewrite Hcode, concat_app.
    pose proof (concat_bins_length D _ (base g) _ _ H1) as Hlen.
    apply contiguous_app in Hlay as [_ Hs]. simpl in Hs.
    destruct Hs as [Hs _]. rewrite Hs, <- Hlen.
    replace (Z.to_nat (base g + Z.of_nat (length (concat b1)) - base g))
      with (length (concat b1)) by lia.
    by rewrite drop_app_length.
Qed.

Lemma get_code_from_start_witness :
  ∃ out', get_code py27 10 graph_if_deleted (Some 4%nat) = Ok out' ∧
    co_lnotab out'
      = co_lnotab (mkCode [124; 0; 0; 114; 12; 0; 100; 1; 0; 110; 0; 0;
                           100; 2; 0; 83] 1 [0; 1; 6; 1; 6; 2]) ∧
    co_firstlineno out'
      = co_firstlineno (mkCode [124; 0; 0; 114; 12; 0; 100; 1; 0; 110; 0; 0;
                                100; 2; 0; 83] 1 [0; 1; 6; 1; 6; 2]) ∧
    co_code out'
      = drop (Z.to_nat (addr (store (from_res (refactor py27 10
                                                 graph_if_deleted)) 4%nat)
                        - base graph_if_deleted))
          (co_code (mkCode [124; 0; 0; 114; 12; 0; 100; 1; 0; 110; 0; 0;
                            100; 2; 0; 83] 1 [0; 1; 6; 1; 6; 2])).
Proof.
  apply (get_code_from_start py27 10 graph_if_deleted _
           (from_res (refactor py27 10 graph_if_deleted))
           [0; 1; 2]%nat 4%nat [5; 6]%nat).
  - vm_compute. reflexivity.
  - apply from_res_Ok. vm_compute. reflexivity.
  - vm_compute. reflexivity.
Defined.

Section Reparse.

Variable D : Dis.

(** *** Decoding the stream [get_code] wrote *)

Lemma Bytecode_init_of_bin b bs rest a p :
  bin D b = Ok bs ->
  ∃ b', Bytecode_init D a (take 3 (bs ++ rest)) p = Ok b' ∧
        opcode b' = opcode b ∧
        (HAVE_ARGUMENT D <= opcode b -> oparg b' = oparg b) ∧
        (HAVE_ARGUMENT D <= opcode b' -> is_Some (oparg b')).
Proof.
  intros [_ [[Hlt ->]|[Hge (v & Hv & Hr & ->)]]]%bin_cases;
    unfold Bytecode_init; simpl.
  - rewrite bool_decide_false by lia. eexists. split; [done|]. simpl.
    split_and!; [done|lia|lia].
  - rewrite bool_decide_true by done. eexists. split; [done|]. simpl.
    destruct (bytes_of_operand v Hr) as (_ & _ & -> & _).
    split_and!; [done|done|eauto].
Qed.

Lemma get_target_addr_Ok b :
  dis_wf D -> (HAVE_ARGUMENT D <= opcode b -> is_Some (oparg b)) ->
  ∃ t, get_target_addr D b = Ok t.
Proof.
  intros (W1 & _) Ho. unfold get_target_addr.
  destruct (decide (opcode b ∈ hasjrel D)) as [Hr|Hr].
  - rewrite (bool_decide_true _ Hr).
    destruct (Ho (W1 _ Hr)) as [v ->]. simpl. case_bool_decide; eauto.
  - rewrite (bool_decide_false _ Hr). simpl. case_bool_decide; eauto.
Qed.

(** The loop of [parse_bytecode] returns on a stream made of the
    encodings of a list of instructions. *)
Lemma parse_loop_Ok (h : Store) c : ∀ lb la bss v fuel,
  dis_wf D ->
  Forall2 (fun i bs => bin D (h i) = Ok bs) (la ++ lb) bss ->
  c = concat bss ->
  p_offset v = stream_end D h 0 la ->
  (length lb <= fuel)%nat ->
  ∃ v', parse_loop D fuel 0 c v = Ok v'.
Proof.
  induction lb as [|i r IH]; intros la bss v fuel Hwf Hall Hc Hoff Hlen.
  - rewrite app_nil_r in Hall.
    pose proof (concat_bins_length D _ 0 _ _ Hall) as Hl.
    exists v. destruct fuel; cbn [parse_loop];
      rewrite bool_decide_false; try done; subst c; lia.
  - pose proof Hall as Hall'.
    apply Forall2_app_inv_l in Hall as (b1 & b2 & H1 & H2 & ->).
    apply Forall2_cons_inv_l in H2 as (bs & b2' & Hb & H2 & ->).
    pose proof (concat_bins_length D _ 0 _ _ H1) as Hl1.
    pose proof (bin_length D _ _ Hb) as Hlb.
    pose proof (len_pos D (h i)) as Hpos.
    destruct fuel as [|f]; [simpl in Hlen; lia|]. cbn [parse_loop].
    assert (Hcc : c = concat b1 ++ bs ++ concat b2').
    { subst c. by rewrite concat_app. }
    rewrite bool_decide_true.
    2:{ rewrite Hcc, !length_app. lia. }
    assert (Hdrop : drop (Z.to_nat (p_offset v)) c = bs ++ concat b2').
    { rewrite Hcc, Hoff, <- Hl1.
      replace (Z.to_nat (0 + Z.of_nat (length (concat b1))))
        with (length (concat b1)) by lia.
      by rewrite drop_app_length. }
    rewrite Hdrop.
    destruct (Bytecode_init_of_bin _ _ (concat b2') (0 + p_offset v)
                (p_prev v) Hb) as (nxt & -> & Ho & _ & Hsome).
    cbn [mbind res_bind]. unfold getitem. rewrite lookup_insert_eq.
    cbn [mbind res_bind]. rewrite upd_eq.
    set (h' := match p_prev v with
               | Some p => upd (upd (p_store v) (p_fresh v) (λ _, nxt)) p
                             (set_next (Some (p_fresh v)))
               | None => upd (p_store v) (p_fresh v) (λ _, nxt)
               end).
    assert (Hsame : opcode (h' (p_fresh v)) = opcode nxt ∧
                    addr (h' (p_fresh v)) = addr nxt ∧
                    oparg (h' (p_fresh v)) = oparg nxt).
    { unfold h'. destruct (p_prev v) as [q|]; unfold upd;
        repeat case_decide; simplify_eq; done. }
    destruct Hsame as (S1 & S2 & S3).
    rewrite (get_target_addr_ext D nxt _ S1 S2 S3).
    destruct (get_target_addr_Ok nxt Hwf Hsome) as [t ->].
    cbn [mbind res_bind].
    apply (IH (la ++ [i]) (b1 ++ bs :: b2')); try done.
    + by rewrite <- app_assoc.
    + simpl. rewrite stream_end_snoc, (len_opcode D _ _ Ho). lia.
    + simpl in Hlen. lia.
Qed.

Lemma bins_encoded (h : Store) l bss :
  Forall2 (fun i bs => bin D (h i) = Ok bs) l bss ->
  contiguous D h 0 l ->
  ∀ i, i ∈ l -> encoded_at D (concat bss) (h i).
Proof.
  intros Hall Hlay i Hi.
  destruct (concat_bins_at D _ _ _ _ Hall Hlay i Hi) as (bs & Hb & Hs).
  pose proof (contiguous_lower D _ _ _ _ Hlay Hi) as Hlow.
  rewrite Z.sub_0_r in Hs. unfold encoded_at.
  replace (Z.to_nat (addr (h i) + 1))
    with (Z.to_nat (addr (h i)) + 1)%nat by lia.
  replace (Z.to_nat (addr (h i) + 2))
    with (Z.to_nat (addr (h i)) + 2)%nat by lia.
  rewrite <- (Nat.add_0_r (Z.to_nat (addr (h i)))) at 1.
  destruct (bin_cases D _ _ Hb) as [_ [[Hlt ->]|[Hge (v & Hv & Hr & ->)]]].
  - split; [by apply (slice_lookup _ [opcode (h i)])|lia].
  - split; [by eapply slice_lookup|].
    intros _. exists v. split; [done|]. split; [done|].
    split; by eapply slice_lookup.
Qed.

Lemma parse_inv_decoded c v i :
  parse_inv D c v -> i ∈ seq 0 (p_fresh v) -> decoded_at D c (p_store v i).
Proof.
  intros (_ & _ & _ & _ & _ & _ & _ & Hnodes) Hi.
  destruct (Hnodes i Hi) as (_ & _ & _ & H0 & _ & Harg). by split.
Qed.

(** Two layouts of one stream from one address are the same
    instructions, one by one. *)
Lemma layout_match (c : list Z) (h h' : Store) : ∀ l l' a,
  0 <= a ->
  contiguous D h a l -> contiguous D h' a l' ->
  stream_end D h a l = stream_end D h' a l' ->
  (∀ i, i ∈ l -> encoded_at D c (h i)) ->
  (∀ k, k ∈ l' -> decoded_at D c (h' k)) ->
  Forall2 (fun i k => same_instr D (h i) (h' k)) l l'.
Proof.
  induction l as [|i r IH]; intros l' a Ha Hc Hc' He Henc Hdec.
  - destruct l' as [|k r']; [constructor|]. simpl in He.
    pose proof (stream_end_ge D h' (a + len D (h' k)) r').
    pose proof (len_pos D (h' k)). lia.
  - destruct l' as [|k r'].
    { simpl in He. pose proof (stream_end_ge D h (a + len D (h i)) r).
      pose proof (len_pos D (h i)). lia. }
    simpl in Hc, Hc', He. destruct Hc as [Hi Hr], Hc' as [Hk Hr'].
    destruct (Henc i) as [E0 Earg]; [by left|].
    destruct (Hdec k) as [D0 Darg]; [by left|].
    assert (Hop : opcode (h' k) = opcode (h i)).
    { rewrite Hi in E0. rewrite Hk in D0. congruence. }
    pose proof (len_opcode D _ _ Hop) as Hlen.
    constructor.
    + split_and!; [congruence|done|]. intros Hge.
      destruct (Earg Hge) as (v & Hv & Hrange & E1 & E2).
      destruct Darg as (b1 & b2 & D1 & D2 & ->); [by rewrite Hop|].
      rewrite Hi in E1, E2. rewrite Hk in D1, D2.
      rewrite E1 in D1. rewrite E2 in D2.
      injection D1 as <-. injection D2 as <-.
      destruct (bytes_of_operand v Hrange) as (_ & _ & -> & _). done.
    + apply (IH r' (a + len D (h i))).
      * pose proof (len_pos D (h i)). lia.
      * done.
      * by rewrite <- Hlen.
      * by rewrite He, Hlen.
      * intros j Hj. apply Henc. by right.
      * intros j Hj. apply Hdec. by right.
Qed.

Lemma jump_label_same_instr b b' :
  same_instr D b b' -> HAVE_ARGUMENT D <= opcode b ->
  jump_label D b' = jump_label D b.
Proof.
  intros (Ha & Ho & Hg) Hop. unfold jump_label.
  by rewrite Ho, Ha, (Hg Hop), (len_opcode D _ _ Ho).
Qed.

Lemma linkable_same_instr b b' :
  same_instr D b b' -> linkable D b' = linkable D b.
Proof.
  intros Hs. pose proof Hs as (_ & Ho & _). unfold linkable. rewrite Ho.
  case_bool_decide as Hop; [|done].
  by rewrite (jump_label_same_instr _ _ Hs Hop).
Qed.

Lemma linkable_links b b' :
  same_but_links b b' -> linkable D b' = linkable D b.
Proof.
  intros Hs. unfold linkable. rewrite (jump_label_links D _ _ Hs).
  by destruct Hs as (-> & _).
Qed.

Lemma label_found_linkable m b :
  label_found D m b ->
  ∀ lab, linkable D b = Some lab -> is_Some (m !! lab).
Proof.
  unfold label_found, linkable. intros Hf lab.
  case_bool_decide as Hop; [|done].
  destruct (Hf Hop) as (lbl & -> & Hl).
  destruct lbl as [x|]; [|done]. case_bool_decide; [|done].
  intros [= <-]. by apply Hl.
Qed.

Lemma apply_labels_body_found m i s s' :
  apply_labels_body D m i s = Ok s' -> label_found D m (s.1 i).
Proof.
  unfold apply_labels_body, label_found; cbv zeta. intros H Hop.
  rewrite bool_decide_true in H by done.
  apply bind_Ok in H as (lbl & Hl & H). exists lbl. split; [done|].
  intros lab -> Hlab. rewrite bool_decide_true in H by done.
  apply bind_Ok in H as (t & Ht & _). unfold getitem in Ht.
  destruct (m !! lab); [done|discriminate].
Qed.

Lemma label_found_links m b b' :
  same_but_links b b' -> label_found D m b' -> label_found D m b.
Proof.
  intros Hs. unfold label_found. rewrite (jump_label_links D _ _ Hs).
  by destruct Hs as (-> & _).
Qed.

Lemma apply_labels_loop_found m l : ∀ s s',
  run_list (apply_labels_body D m) l s = Ok s' ->
  ∀ i, i ∈ l -> label_found D m (s.1 i).
Proof.
  induction l as [|k r IH]; intros s s'; cbn [run_list].
  - intros _ i Hi. by apply elem_of_nil in Hi.
  - intros (s1 & E & Hrun)%bind_Ok i [->|Hi]%elem_of_cons.
    + by apply (apply_labels_body_found m k s s1).
    + apply (label_found_links m _ (s1.1 i)).
      * by apply (apply_labels_body_rel D m k).
      * by apply (IH s1 s').
Qed.

Lemma apply_labels_loop_unlinkable m l : ∀ s s' i,
  run_list (apply_labels_body D m) l s = Ok s' ->
  linkable D (s.1 i) = None -> target (s'.1 i) = target (s.1 i).
Proof.
  induction l as [|k r IH]; intros s s' i; cbn [run_list].
  - by intros [= <-].
  - intros (s1 & E & Hrun)%bind_Ok Hj.
    pose proof (apply_labels_body_rel D _ _ _ _ E i) as Hrel.
    rewrite (IH _ _ _ Hrun); [|by rewrite (linkable_links _ _ Hrel)].
    destruct (decide (i = k)) as [->|Hik];
      [|by apply (apply_labels_body_target D m k)].
    apply apply_labels_body_cases in E
      as [[-> _]|(lab & t & Hop & Hl & Hlab & _)]; [done|].
    unfold linkable in Hj.
    by rewrite (bool_decide_true _ Hop), Hl, (bool_decide_true _ Hlab) in Hj.
Qed.

(** After [apply_labels] the target of a node lies at the address its
    label names, and a node without such a label has no target. *)
Lemma apply_labels_target_addr fuel g start g' l :
  nodes fuel g start = Some l -> apply_labels D fuel g start = Ok g' ->
  (∀ a t, bytecodes g !! a = Some t -> addr (store g t) = a) ->
  ∀ i, i ∈ l ->
    label_found D (bytecodes g) (store g i) ∧
    (fun t => addr (store g' t)) <$> target (store g' i)
    = linkable D (store g i).
Proof.
  intros Hn Ha Hdict i Hi.
  destruct (apply_labels_spec D _ _ _ _ _ Hn Ha) as (_ & Hrel & _ & Hres).
  revert Ha. unfold nodes in Hn. unfold apply_labels.
  intros (s1 & E1 & (s2 & E2 & [= <-])%bind_Ok)%bind_Ok.
  rewrite (for_nodes_run_list _ apply_labels_clear_next _ _ _ l) in E1 by done.
  destruct (clear_loop_spec l (store g, tt)) as (s1' & E1' & Hrel1 & Hin & _).
  rewrite E1 in E1'. simplify_eq. simpl in Hrel1, Hrel, Hres.
  assert (Hn1 : nodes_from fuel s1'.1 (start_of g start) = Some l).
  { rewrite <- Hn. apply nodes_from_ext. intros j.
    by destruct (Hrel1 j) as (_&_&_&_&?&_). }
  rewrite (for_nodes_run_list _ (apply_labels_body_next D (bytecodes g))
             _ _ _ l) in E2 by done.
  split.
  - apply (label_found_links _ _ (s1'.1 i)); [done|].
    by apply (apply_labels_loop_found _ _ _ _ E2).
  - simpl. destruct (linkable D (store g i)) as [lab|] eqn:El.
    + revert El. unfold linkable. case_bool_decide as Hop; [|done].
      destruct (jump_label D (store g i)) as [[x|]| |] eqn:Hl; try done.
      case_bool_decide as Hlab; [|done]. intros [= ->].
      destruct (Hres i lab Hi Hop Hl Hlab) as (t & Ht & ->). simpl.
      destruct (Hrel t) as (_ & -> & _). by rewrite (Hdict _ _ Ht).
    + rewrite (apply_labels_loop_unlinkable _ _ _ _ _ E2).
      * by destruct (Hin i Hi) as [_ ->].
      * by rewrite (linkable_links _ _ (Hrel1 i)).
Qed.

Lemma apply_labels_Ok fuel g start l :
  nodes fuel g start = Some l ->
  (∀ i, i ∈ l -> label_found D (bytecodes g) (store g i)) ->
  ∃ g', apply_labels D fuel g start = Ok g'.
Proof.
  intros Hn Hf. unfold nodes in Hn. unfold apply_labels.
  rewrite (for_nodes_run_list _ apply_labels_clear_next _ _ _ l) by done.
  destruct (clear_loop_spec l (store g, tt)) as (s1 & E1 & Hrel1 & _).
  rewrite E1. cbn [mbind res_bind]. simpl in Hrel1.
  assert (Hn1 : nodes_from fuel s1.1 (start_of g start) = Some l).
  { rewrite <- Hn. apply nodes_from_ext. intros j.
    by destruct (Hrel1 j) as (_&_&_&_&?&_). }
  rewrite (for_nodes_run_list _ (apply_labels_body_next D (bytecodes g))
             _ _ _ l) by done.
  destruct (apply_labels_loop_Ok D (bytecodes g) l s1) as [s2 E2].
  { intros i Hi. unfold label_found.
    rewrite (jump_label_links D _ _ (Hrel1 i)).
    destruct (Hrel1 i) as (-> & _). by apply Hf. }
  rewrite E2. cbn [mbind res_bind]. by eexists.
Qed.

(** The same two facts for the graph [refactor] returns. *)
Lemma refactor_target_addr fuel g g' l :
  nodes fuel g None = Some l -> refactor D fuel g = Ok g' ->
  ∀ i, i ∈ l ->
    label_found D (bytecodes g') (store g' i) ∧
    (fun t => addr (store g' t)) <$> target (store g' i)
    = linkable D (store g' i).
Proof.
  intros Hn Hr i Hi.
  pose proof (nodes_from_NoDup _ _ _ _ Hn) as Hnd.
  revert Hr. unfold nodes in Hn. cbn [start_of] in Hn. unfold refactor.
  intros (s1 & E1 & (g2 & E2 & E3)%bind_Ok)%bind_Ok.
  rewrite (for_nodes_run_list _ (refactor_body_next D) _ _ _ l) in E1 by done.
  pose proof (refactor_loop_rel _ _ _ _ E1) as Q1. simpl in Q1.
  destruct s1 as [k1 [off m1]].
  assert (Hn1 : nodes fuel (mkGraph (base g) (code g) (head g) m1 k1 (fresh g))
                  None = Some l).
  { unfold nodes. simpl. rewrite <- Hn. apply nodes_from_ext.
    intros j. by destruct (Q1 j) as (_&_&_&?&_). }
  destruct (patch_opargs_spec _ _ _ _ _ Hn1 E2) as (Hg2 & Q2 & _).
  simpl in *.
  assert (Hn2 : nodes fuel g2 None = Some l).
  { rewrite Hg2. unfold nodes. simpl. rewrite <- Hn. apply nodes_from_ext.
    intros j. destruct (Q1 j) as (_&_&_&?&_), (Q2 j) as (_&_&_&?&_).
    congruence. }
  destruct (apply_labels_spec _ _ _ _ _ _ Hn2 E3) as (Hg' & Q3 & _).
  assert (Hd : bytecodes g2 = m1) by (by rewrite Hg2).
  assert (Hd' : bytecodes g' = m1) by (by rewrite Hg', Hg2).
  destruct (apply_labels_target_addr fuel g2 None g' l Hn2 E3) with (i := i)
    as [F T]; [|done|].
  - intros a t Ht. rewrite Hd in Ht.
    destruct (refactor_loop_keys _ _ _ _ _ _ _ _ Hnd E1 Ht) as [He|[_ Ha]].
    + by rewrite lookup_empty in He.
    + simpl in Ha. destruct (Q2 t) as (_ & -> & _). done.
  - rewrite Hd', <- Hd. split.
    + unfold label_found in *.
      rewrite (jump_label_links D _ _ (Q3 i)).
      destruct (Q3 i) as (-> & _). done.
    + rewrite T. symmetry. by apply linkable_links.
Qed.

(** [parse_bytecode] on the stream of a laid out, resolved list. *)
Lemma parse_of_layout fuel (g1 : BytecodeGraph) l bss c :
  dis_wf D ->
  nodes fuel g1 None = Some l -> l ≠ [] ->
  contiguous D (store g1) 0 l ->
  Forall2 (fun i bs => bin D (store g1 i) = Ok bs) l bss ->
  co_code c = concat bss ->
  (∀ a i, bytecodes g1 !! a = Some i ↔ i ∈ l ∧ addr (store g1 i) = a) ->
  (∀ i, i ∈ l -> label_found D (bytecodes g1) (store g1 i)) ->
  ∃ g', parse_bytecode D fuel 0 c = ([], Ok g') ∧
    nodes fuel g' None = Some (seq 0 (length l)) ∧
    ∀ k i, l !! k = Some i ->
      same_instr D (store g1 i) (store g' k) ∧
      (fun t => addr (store g' t)) <$> target (store g' k)
      = linkable D (store g1 i).
Proof.
  intros Hwf Hn1 Hne Hlay Hall Hcode Hd1 Hf1.
  pose proof (concat_bins_length D _ 0 _ _ Hall) as Hlen.
  pose proof (stream_end_count D (store g1) 0 l) as Hcount.
  pose proof (nodes_from_length _ _ _ _ Hn1) as Hfuel.
  destruct (parse_loop_Ok (store g1) (co_code c) l [] bss
              (mkParseVars (fun _ => blank) O ∅ None 0 [])
              (S (length (co_code c))) Hwf) as [v El]; try done.
  { rewrite Hcode. lia. }
  destruct (parse_loop_inv D _ _ _ _ (parse_inv_init D (co_code c)) El)
    as [Hinv Hge].
  pose proof (parse_inv_bound D _ _ Hinv) as Hle.
  pose proof (λ i, parse_inv_decoded (co_code c) v i Hinv) as Hdec.
  destruct Hinv as (Hprev & Hch & Hbl & Hco & Hoff & Hdict & Htg & Hnodes).
  cbv zeta in *.
  assert (HF : Forall2 (fun i k => same_instr D (store g1 i) (p_store v k))
                 l (seq 0 (p_fresh v))).
  { apply (layout_match (co_code c) _ _ _ _ 0); try done.
    - rewrite <- Hoff, <- Hlen. rewrite Hcode in Hge, Hle. lia.
    - rewrite Hcode. by apply bins_encoded. }
  pose proof (Forall2_length _ _ _ HF) as Hlen2. rewrite length_seq in Hlen2.
  assert (Hpos : (0 < p_fresh v)%nat).
  { destruct l; [done|]. simpl in Hlen2. lia. }
  assert (H0 : seq 0 (p_fresh v) !! 0%nat = Some 0%nat).
  { by rewrite lookup_seq_lt. }
  assert (Hd0 : p_bytecodes v !! 0 = Some 0%nat).
  { apply Hdict. split; [apply elem_of_seq; lia|].
    destruct (p_fresh v) as [|n]; [lia|]. simpl in Hco. by destruct Hco. }
  assert (Hpair : ∀ k, k ∈ seq 0 (p_fresh v) ->
            ∃ i, l !! k = Some i ∧ i ∈ l ∧
                 same_instr D (store g1 i) (p_store v k)).
  { intros k Hk. apply elem_of_seq in Hk.
    assert (Hlk : seq 0 (p_fresh v) !! k = Some k)
      by (rewrite lookup_seq_lt by lia; done).
    destruct (Forall2_lookup_r _ _ _ _ _ HF Hlk) as (i & Hi & Hs).
    exists i. split_and!; [done| |done]. by eapply list_elem_of_lookup_2. }
  assert (Hkeys : ∀ lab, is_Some (bytecodes g1 !! lab) ->
            is_Some (p_bytecodes v !! lab)).
  { intros lab [t Ht]. apply Hd1 in Ht as [Htl Hta].
    apply list_elem_of_lookup_1 in Htl as [kt Hkt].
    destruct (Forall2_lookup_l _ _ _ _ _ HF Hkt) as (k' & Hk' & Hs).
    exists k'. apply Hdict. split; [by eapply list_elem_of_lookup_2|].
    destruct Hs as (-> & _). done. }
  assert (Hfound : ∀ k, k ∈ seq 0 (p_fresh v) ->
            label_found D (p_bytecodes v) (p_store v k)).
  { intros k Hk. destruct (Hpair k Hk) as (i & _ & Hi & Hs).
    pose proof Hs as (_ & Ho & _).
    unfold label_found. rewrite Ho. intros Hop.
    rewrite (jump_label_same_instr _ _ Hs Hop).
    destruct (Hf1 i Hi Hop) as (lbl & Hl & Hin). exists lbl.
    split; [done|]. intros lab Hlab H0l. apply Hkeys. by apply Hin. }
  set (G0 := mkGraph 0 c (Some 0%nat) (p_bytecodes v) (p_store v) (p_fresh v)).
  assert (Hn0 : nodes fuel G0 None = Some (seq 0 (p_fresh v))).
  { unfold nodes. simpl. apply chain_nodes_from.
    - by rewrite <- H0.
    - rewrite length_seq. lia. }
  destruct (apply_labels_Ok fuel G0 None _ Hn0 Hfound) as [g' Ha].
  exists g'.
  destruct (apply_labels_spec D _ _ _ _ _ Hn0 Ha) as (Hg & Hrel & _).
  split_and!.
  - unfold parse_bytecode. rewrite El. unfold getitem. rewrite Hd0.
    cbn [mbind res_bind]. fold G0. rewrite Ha. f_equal.
    destruct (filter _ (p_targets v)) as [|x r] eqn:Ef; [done|]. exfalso.
    assert (Hx : x ∈ filter (fun x => p_bytecodes v !! x = None) (p_targets v)).
    { rewrite Ef. by left. }
    apply list_elem_of_filter in Hx as [Hnone Hx].
    rewrite Htg in Hx. unfold targets_of in Hx.
    apply list_elem_of_bind in Hx as (k & Hxk & Hk).
    destruct (get_target_addr D (p_store v k)) as [[y|]| |] eqn:Et;
      try (by apply elem_of_nil in Hxk).
    apply list_elem_of_singleton in Hxk as ->.
    destruct (get_target_addr_label D _ _ Hwf Et) as [[Hop Hjj] Hlab].
    destruct (Hfound k Hk Hop) as (lbl & Hl & Hin).
    rewrite Hlab in Hl. injection Hl as <-.
    destruct (Hin y eq_refl) as [t Ht]; [|congruence].
    destruct (Hpair k Hk) as (i & _ & Hi & Hs).
    pose proof Hs as (Has & Ho & Hg').
    rewrite Ho in Hop.
    destruct (bins_encoded _ _ _ Hall Hlay i Hi) as [_ Harg].
    destruct (Harg Hop) as (w & Hw & Hrange & _).
    pose proof (contiguous_lower D _ _ _ _ Hlay Hi) as Hlow.
    pose proof (len_pos D (p_store v k)).
    revert Hlab. unfold jump_label. rewrite (Hg' Hop), Hw, Has.
    destruct Hjj as [Hjr|Hja].
    + rewrite bool_decide_true by done. intros [= <-]. lia.
    + case_bool_decide; [intros [= <-]; lia|].
      rewrite bool_decide_true by done. intros [= <-]. lia.
  - rewrite Hlen2. rewrite Hg. unfold nodes in *. simpl in *. rewrite <- Hn0.
    apply nodes_from_ext. intros j. by destruct (Hrel j) as (_&_&_&_&?&_).
  - intros k i Hki.
    destruct (Forall2_lookup_l _ _ _ _ _ HF Hki) as (k' & Hk' & Hs).
    apply lookup_seq in Hk' as [-> Hlt]. simpl in *.
    assert (Hk : k ∈ seq 0 (p_fresh v)) by (apply elem_of_seq; lia).
    split.
    + destruct Hs as (A1 & A2 & A3).
      destruct (Hrel k) as (B1 & B2 & B3 & _).
      unfold same_instr. rewrite B1, B2, B3. done.
    + destruct (apply_labels_target_addr fuel G0 None g' _ Hn0 Ha)
        with (i := k) as [_ T]; [|done|].
      * intros a t Ht. by apply Hdict in Ht as [_ ?].
      * rewrite T. simpl. by apply linkable_same_instr.
Qed.

End Reparse.

(** X20. The stream [get_code()] returns decodes again. For a graph at
    base address 0 (jump tables disjoint, holding only opcodes that take
    an argument), when [get_code()] returns a code object,
    [parse_bytecode] on that object prints no diagnostic and returns a
    graph with as many nodes as the relocated list; its k-th node has the
    address and the opcode of the k-th node of the list, its operand when
    the opcode takes one, and a target at the same address (or none where
    the original has none). *)
Theorem get_code_reparses (D : Dis) fuel g out :
  dis_wf D -> base g = 0 ->
  get_code D fuel g None = Ok out ->
  ∃ g1 l g', refactor D fuel g = Ok g1 ∧ nodes fuel g1 None = Some l ∧
    parse_bytecode D fuel 0 out = ([], Ok g') ∧
    nodes fuel g' None = Some (seq 0 (length l)) ∧
    ∀ k i, l !! k = Some i ->
      addr (store g' k) = addr (store g1 i) ∧
      opcode (store g' k) = opcode (store g1 i) ∧
      (HAVE_ARGUMENT D <= opcode (store g1 i) ->
       oparg (store g' k) = oparg (store g1 i)) ∧
      (fun t => addr (store g' t)) <$> target (store g' k)
      = (fun t => addr (store g1 t)) <$> target (store g1 i).
Proof.
  intros Hwf Hb Hg.
  destruct (get_code_complete D _ _ _ _ Hg)
    as (g1 & l & bss & Hr & Hl & Hn1 & Hall & Hcode).
  destruct (refactor_Ok_nodes D _ _ _ Hr) as [l0 Hn0].
  destruct (refactor_contiguous D _ _ _ _ Hn0 Hr) as (Hn1' & _ & Hlay).
  assert (l0 = l) as -> by congruence. rewrite Hb in Hlay.
  assert (Hne : l ≠ []).
  { intros ->. revert Hl. unfold calc_lnotab.
    destruct (head g1) as [hd|] eqn:Eh; [|done]. intros _.
    unfold nodes in Hn1. cbn [start_of] in Hn1. rewrite Eh in Hn1.
    apply nodes_from_chain in Hn1. done. }
  destruct (parse_of_layout D fuel g1 l bss out Hwf Hn1 Hne Hlay Hall Hcode)
    as (g' & Hp & Hn' & Hk).
  - intros a i. by apply (refactor_dict D fuel g g1 l).
  - intros i Hi. by destruct (refactor_target_addr D fuel g g1 l Hn0 Hr i Hi).
  - exists g1, l, g'. split_and!; try done.
    intros k i Hki. destruct (Hk k i Hki) as [(A1 & A2 & A3) T].
    split_and!; try done. rewrite T. symmetry.
    apply (refactor_target_addr D fuel g g1 l Hn0 Hr i).
    by eapply list_elem_of_lookup_2.
Qed.

Lemma get_code_reparses_witness :
  ∃ g1 l g', refactor py27 10 graph_if_deleted = Ok g1 ∧
    nodes 10 g1 None = Some l ∧
    parse_bytecode py27 10 0
      (mkCode [124; 0; 0; 114; 12; 0; 100; 1; 0; 110; 0; 0; 100; 2; 0; 83]
              1 [0; 1; 6; 1; 6; 2]) = ([], Ok g') ∧
    nodes 10 g' None = Some (seq 0 (length l)) ∧
    ∀ k i, l !! k = Some i ->
      addr (store g' k) = addr (store g1 i) ∧
      opcode (store g' k) = opcode (store g1 i) ∧
      (HAVE_ARGUMENT py27 <= opcode (store g1 i) ->
       oparg (store g' k) = oparg (store g1 i)) ∧
      (fun t => addr (store g' t)) <$> target (store g' k)
      = (fun t => addr (store g1 t)) <$> target (store g1 i).
Proof.
  apply (get_code_reparses py27 10 graph_if_deleted).
  - exact py27_wf.
  - vm_compute. reflexivity.
  - vm_compute. reflexivity.
Defined.

Section LineRoundTrip.

(** *** Line tables: from the table to the nodes and back *)

Lemma running_linenos_above incrs : ∀ off line q,
  Forall (fun p => 1 <= p.1) incrs ->
  q ∈ (running_linenos off line incrs).*1 -> off < q.
Proof.
  induction incrs as [|[b d] r IH]; intros off line q Hf; simpl.
  - intros Hq. by apply elem_of_nil in Hq.
  - apply Forall_cons in Hf as [Hb Hf]. simpl in Hb.
    intros [->|Hq]%elem_of_cons; [lia|].
    specialize (IH _ _ _ Hf Hq). lia.
Qed.

Lemma running_linenos_ascending incrs : ∀ off line,
  Forall (fun p => 1 <= p.1) incrs ->
  ascending (running_linenos off line incrs).*1.
Proof.
  induction incrs as [|[b d] r IH]; intros off line Hf; simpl; [done|].
  apply Forall_cons in Hf as [Hb Hf]. split; [|by apply IH].
  apply Forall_forall. intros q Hq.
  by apply (running_linenos_above r _ (line + d)).
Qed.

Lemma zip_slices incrs :
  zip (slice_even (flatten_pairs incrs)) (slice_odd (flatten_pairs incrs))
  = incrs.
Proof.
  unfold slice_odd. induction incrs as [|[b d] r IH]; [done|].
  simpl. f_equal. destruct r as [|[b' d'] r']; [done|]. exact IH.
Qed.

Lemma ascending_NoDup (f : nat -> Z) l : ascending (f <$> l) -> NoDup l.
Proof.
  induction l as [|x r IH]; simpl; [constructor|].
  intros [Hx Hr]. constructor; [|by apply IH].
  rewrite Forall_forall in Hx.
  intros Hin. specialize (Hx (f x)).
  assert (f x < f x); [|lia]. apply Hx.
  apply list_elem_of_fmap. eauto.
Qed.

Lemma lnotab_claimed_same addrs line off :
  lnotab_claimed line off ((fun a => (a, line)) <$> addrs) = [] ∧
  deltas_fit line off ((fun a => (a, line)) <$> addrs).
Proof.
  induction addrs as [|a r IH]; simpl; [done|].
  by rewrite bool_decide_true.
Qed.

(** Over nodes that carry the lines of the table, the encoder writes the
    table. *)
Lemma claimed_table addrs : ∀ incrs line off,
  ascending addrs ->
  (∀ a, a ∈ (running_linenos off line incrs).*1 -> a ∈ addrs) ->
  Forall (fun p => 0 <= p.1 <= 255 ∧ 1 <= p.2 <= 255) incrs ->
  Forall (fun p => 1 <= p.1) (tail incrs) ->
  lnotab_claimed line off
    ((fun a => (a, line_at line (running_linenos off line incrs) a))
       <$> addrs)
  = flatten_pairs incrs ∧
  deltas_fit line off
    ((fun a => (a, line_at line (running_linenos off line incrs) a))
       <$> addrs).
Proof.
  induction addrs as [|a rest IH]; intros incrs line off Hasc Hin Hb Ht.
  - destruct incrs as [|[b d] r]; [done|]. simpl in Hin.
    specialize (Hin (off + b)). exfalso.
    eapply elem_of_nil, Hin. by left.
  - destruct incrs as [|[b d] incrs'].
    { simpl running_linenos. cbn [line_at].
      apply (lnotab_claimed_same (a :: rest)). }
    simpl in Hasc. destruct Hasc as [Ha Hasc]. rewrite Forall_forall in Ha.
    apply Forall_cons in Hb as [[Hb1 Hd1] Hb]. simpl in Hb1, Hd1, Ht.
    cbn [running_linenos] in *. cbn [fmap list_fmap line_at].
    change (list_fmap _ _ ?f rest) with (f <$> rest).
    assert (Hp : off + b ∈ a :: rest) by (apply Hin; by left).
    assert (Hnext : ∀ x, x <= off + b ->
              line_at (line + d)
                (running_linenos (off + b) (line + d) incrs') x = line + d).
    { intros x Hx. destruct incrs' as [|[b' d'] r']; [done|]. simpl.
      apply Forall_cons in Ht as [Hb' _]. simpl in Hb'.
      by rewrite bool_decide_false by lia. }
    case_bool_decide as Hle.
    + assert (off + b = a) as Hpa.
      { apply elem_of_cons in Hp as [?|Hp]; [done|].
        specialize (Ha _ Hp). lia. }
      rewrite Hnext by lia.
      cbn [lnotab_claimed deltas_fit].
      rewrite !bool_decide_false by lia.
      assert (Hext : (fun a0 => (a0, if bool_decide (off + b <= a0)
                          then line_at (line + d)
                                 (running_linenos (off + b) (line + d) incrs') a0
                          else line)) <$> rest
                = (fun a0 => (a0, line_at (line + d)
                           (running_linenos a (line + d) incrs') a0)) <$> rest).
      { apply list_fmap_ext. intros k x Hx.
        apply list_elem_of_lookup_2 in Hx. specialize (Ha _ Hx).
        rewrite bool_decide_true by lia. by rewrite Hpa. }
      rewrite Hext.
      destruct (IH incrs' (line + d) a) as [E1 E2]; try done.
      * intros q Hq. pose proof (running_linenos_above _ _ _ _ Ht Hq).
        assert (Hq' : q ∈ a :: rest).
        { apply Hin. right. by rewrite Hpa. }
        apply elem_of_cons in Hq' as [->|?]; [lia|done].
      * by apply Forall_tail.
      * rewrite E1. split.
        -- rewrite (clamp_byte_id (a - off)) by lia.
           rewrite (clamp_byte_id (line + d - line)) by lia.
           replace (a - off) with b by lia.
           by replace (line + d - line) with d by lia.
        -- split; [lia|done].
    + cbn [lnotab_claimed deltas_fit].
      rewrite !bool_decide_true by done.
      assert (Hext : (fun a0 => (a0, if bool_decide (off + b <= a0)
                          then line_at (line + d)
                                 (running_linenos (off + b) (line + d) incrs') a0
                          else line)) <$> rest
                = (fun a0 => (a0, line_at line
                           (running_linenos off line ((b, d) :: incrs')) a0))
                    <$> rest) by done.
      rewrite Hext.
      apply (IH ((b, d) :: incrs') line off); try done.
      * intros q Hq. specialize (Hin q Hq).
        apply elem_of_cons in Hin as [->|?]; [|done].
        simpl in Hq. apply elem_of_cons in Hq as [?|Hq]; [lia|].
        pose proof (running_linenos_above _ _ _ _ Ht Hq). lia.
      * apply Forall_cons. done.
Qed.

(** *** The loop of [apply_lineno] *)

Lemma apply_lineno_body_outside x s s' :
  apply_lineno_body x s = Ok s' -> ∀ j, j ≠ x -> s'.1 j = s.1 j.
Proof.
  unfold apply_lineno_body; cbv zeta. intros [= <-] j Hj. simpl.
  by apply upd_ne.
Qed.

Lemma apply_lineno_body_next x s s' :
  apply_lineno_body x s = Ok s' -> ∀ j, next (s'.1 j) = next (s.1 j).
Proof.
  intros H j. by destruct (apply_lineno_body_rel _ _ _ H j) as (_&_&_&_&?&_).
Qed.

(** Once the table is used up every node gets the last line. *)
Lemma apply_lineno_loop_done l : ∀ (h : Store) v,
  linenos v = [] -> next_lineno v = current_lineno v ->
  ∃ s', run_list apply_lineno_body l (h, v) = Ok s' ∧
        ∀ i, i ∈ l -> node_co_lnotab (s'.1 i) = Some (current_lineno v).
Proof.
  induction l as [|x r IH]; intros h v Hl Hn; cbn [run_list].
  - exists (h, v). split; [done|]. intros i Hi. by apply elem_of_nil in Hi.
  - set (v1 := if bool_decide (current_addr v <= addr (h x))
               then mkLinenoVars (current_addr v) (next_lineno v)
                      (next_lineno v) []
               else v).
    assert (Hb : apply_lineno_body x (h, v)
                 = Ok (upd h x (set_node_co_lnotab (Some (current_lineno v1))),
                       v1)).
    { unfold apply_lineno_body, v1; cbv zeta. simpl. rewrite Hl.
      by case_bool_decide. }
    assert (Hv1 : linenos v1 = [] ∧ next_lineno v1 = current_lineno v1 ∧
                  current_lineno v1 = current_lineno v).
    { unfold v1. case_bool_decide; simpl; auto. }
    destruct Hv1 as (H1 & H2 & H3).
    rewrite Hb. cbn [mbind res_bind].
    destruct (IH (upd h x (set_node_co_lnotab (Some (current_lineno v1)))) v1
                H1 H2) as (s' & Hrun & Hlines).
    exists s'. split; [done|]. intros i [->|Hi]%elem_of_cons.
    + destruct (decide (x ∈ r)) as [Hx|Hx].
      * rewrite <- H3. by apply Hlines.
      * rewrite (run_list_outside _ apply_lineno_body_outside _ _ _ Hrun x Hx).
        simpl. by rewrite upd_eq, H3.
    + rewrite <- H3. by apply Hlines.
Qed.

(** While pairs are pending, each of them at the address of a node still
    to come, every node gets the line of the last pair at or before it. *)
Lemma apply_lineno_loop (A : nat -> Z) l : ∀ (h : Store) v,
  (∀ j, addr (h j) = A j) ->
  ascending (A <$> l) ->
  ascending (((current_addr v, next_lineno v) :: linenos v).*1) ->
  (∀ a, a ∈ ((current_addr v, next_lineno v) :: linenos v).*1 ->
        a ∈ A <$> l) ->
  ∃ s', run_list apply_lineno_body l (h, v) = Ok s' ∧
        ∀ i, i ∈ l ->
          node_co_lnotab (s'.1 i)
          = Some (line_at (current_lineno v)
                    ((current_addr v, next_lineno v) :: linenos v) (A i)).
Proof.
  induction l as [|x r IH]; intros h v HA Hasc Hp Hin; cbn [run_list].
  - exists (h, v). split; [done|]. intros i Hi. by apply elem_of_nil in Hi.
  - pose proof (ascending_NoDup A _ Hasc) as Hnd.
    apply NoDup_cons in Hnd as [Hxr _].
    cbn [fmap list_fmap] in Hasc, Hin.
    change (list_fmap _ _ A r) with (A <$> r) in *.
    destruct Hasc as [Hx Hr]. cbn [fmap list_fmap fst] in Hp.
    destruct Hp as [Hp1 Hp2]. rewrite Forall_forall in Hx, Hp1.
    assert (HxA : ∀ i, i ∈ r -> A x < A i).
    { intros i Hi. apply Hx. apply list_elem_of_fmap. eauto. }
    destruct (decide (current_addr v <= A x)) as [Hle|Hgt].
    + assert (Hcur : current_addr v = A x).
      { assert (Hc0 : current_addr v ∈ A x :: (A <$> r))
          by (apply Hin; by left).
        apply elem_of_cons in Hc0 as [?|Hc']; [done|].
        specialize (Hx _ Hc'). lia. }
      destruct (linenos v) as [|[a' l'] rest] eqn:El.
      * set (v1 := mkLinenoVars (current_addr v) (next_lineno v)
                     (next_lineno v) []).
        assert (Hb : apply_lineno_body x (h, v)
                     = Ok (upd h x (set_node_co_lnotab (Some (next_lineno v))),
                           v1)).
        { unfold apply_lineno_body, v1; cbv zeta. simpl.
          by rewrite El, HA, bool_decide_true. }
        rewrite Hb. cbn [mbind res_bind].
        destruct (apply_lineno_loop_done r
                    (upd h x (set_node_co_lnotab (Some (next_lineno v)))) v1)
          as (s' & Hrun & Hlines); [done|done|].
        exists s'. split; [done|]. simpl in Hlines.
        intros i Hi. cbn [line_at].
        assert (Hle' : current_addr v <= A i).
        { apply elem_of_cons in Hi as [->|Hi]; [done|].
          specialize (HxA _ Hi). lia. }
        rewrite bool_decide_true by done.
        apply elem_of_cons in Hi as [->|Hi]; [|by apply Hlines].
        rewrite (run_list_outside _ apply_lineno_body_outside _ _ _ Hrun x Hxr).
        simpl. by rewrite upd_eq.
      * set (v1 := mkLinenoVars a' (next_lineno v) l' rest).
        assert (Hb : apply_lineno_body x (h, v)
                     = Ok (upd h x (set_node_co_lnotab (Some (next_lineno v))),
                           v1)).
        { unfold apply_lineno_body, v1; cbv zeta. simpl.
          by rewrite El, HA, bool_decide_true. }
        rewrite Hb. cbn [mbind res_bind].
        assert (Ha' : current_addr v < a').
        { apply Hp1. simpl. by left. }
        destruct (IH (upd h x (set_node_co_lnotab (Some (next_lineno v)))) v1)
          as (s' & Hrun & Hlines).
        -- intros j. rewrite <- HA. unfold upd. by case_decide.
        -- done.
        -- exact Hp2.
        -- intros a Ha. simpl in Ha.
           assert (Hgt : current_addr v < a).
           { apply elem_of_cons in Ha as [->|Ha]; [done|].
             apply Hp1. simpl. by right. }
           assert (Hc0 : a ∈ A x :: (A <$> r)) by (apply Hin; by right).
           apply elem_of_cons in Hc0 as [?|Hc']; [lia|done].
        -- exists s'. split; [done|]. simpl in Hlines.
           intros i Hi. cbn [line_at].
           assert (Hle' : current_addr v <= A i).
           { apply elem_of_cons in Hi as [->|Hi]; [done|].
             specialize (HxA _ Hi). lia. }
           rewrite (bool_decide_true (current_addr v <= A i)) by done.
           apply elem_of_cons in Hi as [->|Hi]; [|by apply Hlines].
           rewrite (run_list_outside _ apply_lineno_body_outside _ _ _ Hrun x Hxr).
           simpl. rewrite upd_eq. simpl.
           by rewrite bool_decide_false by lia.
    + assert (Hb : apply_lineno_body x (h, v)
                   = Ok (upd h x (set_node_co_lnotab (Some (current_lineno v))),
                         v)).
      { unfold apply_lineno_body; cbv zeta. simpl.
        by rewrite HA, bool_decide_false. }
      rewrite Hb. cbn [mbind res_bind].
      destruct (IH (upd h x (set_node_co_lnotab (Some (current_lineno v)))) v)
        as (s' & Hrun & Hlines).
      * intros j. rewrite <- HA. unfold upd. by case_decide.
      * done.
      * split; [by apply Forall_forall|done].
      * intros a Ha.
        assert (Hge : current_addr v <= a).
        { simpl in Ha. apply elem_of_cons in Ha as [->|Ha]; [done|].
          specialize (Hp1 _ Ha). lia. }
        pose proof (Hin a Ha) as Hc0.
        apply elem_of_cons in Hc0 as [?|Hc']; [lia|done].
      * exists s'. split; [done|].
        intros i [->|Hi]%elem_of_cons; [|by apply Hlines].
        rewrite (run_list_outside _ apply_lineno_body_outside _ _ _ Hrun x Hxr).
        simpl. rewrite upd_eq. simpl.
        by rewrite bool_decide_false by lia.
Qed.

Lemma Forall2_fmap_elem {A B} (P : A -> B -> Prop) (f : A -> B) l :
  (∀ x, x ∈ l -> P x (f x)) -> Forall2 P l (f <$> l).
Proof.
  induction l as [|x r IH]; intros H; simpl; constructor.
  - apply H. by left.
  - apply IH. intros y Hy. apply H. by right.
Qed.

(** [apply_lineno] over a list with ascending addresses, for a table of
    at least two pairs whose pairs, from the second on, stand at
    addresses of the list. *)
Lemma apply_lineno_assigns fuel g l a0 l0 a1 l1 rest :
  nodes fuel g None = Some l ->
  ascending ((fun i => addr (store g i)) <$> l) ->
  running_linenos (base g) (co_firstlineno (code g))
    (zip (slice_even (co_lnotab (code g))) (slice_odd (co_lnotab (code g))))
  = (a0, l0) :: (a1, l1) :: rest ->
  ascending (((a1, l1) :: rest).*1) ->
  (∀ a, a ∈ ((a1, l1) :: rest).*1 ->
        a ∈ (fun i => addr (store g i)) <$> l) ->
  ∃ g', apply_lineno fuel g = Ok g' ∧
    (∀ j, same_but_line (store g j) (store g' j)) ∧
    ∀ i, i ∈ l ->
      node_co_lnotab (store g' i)
      = Some (line_at l0 ((a1, l1) :: rest) (addr (store g i))).
Proof.
  intros Hn Hasc Hrun Hp Hin. unfold apply_lineno; cbv zeta. rewrite Hrun.
  unfold nodes in Hn. cbn [start_of] in Hn.
  rewrite (for_nodes_run_list _ apply_lineno_body_next _ _ _ l) by done.
  destruct (apply_lineno_loop (fun i => addr (store g i)) l (store g)
              (mkLinenoVars a1 l0 l1 rest)) as (s' & Hs & Hlines);
    try done.
  rewrite Hs. cbn [mbind res_bind]. eexists. split; [done|]. simpl.
  split; [|done].
  apply (run_list_rel same_but_line apply_lineno_body same_but_line_refl
           same_but_line_trans apply_lineno_body_rel _ _ _ Hs).
Qed.

End LineRoundTrip.

(** X21. What [apply_lineno] assigns. For a list with ascending
    addresses and a line table of at least two pairs whose pairs, from
    the second on, have ascending addresses that are addresses of nodes
    of the list, [apply_lineno] returns and gives every node the line of
    the last pair, from the second on, at or before its address, and the
    line of the first pair to the nodes before the second pair, whatever
    the address of the first pair; nothing but the lines changes. *)
Theorem apply_lineno_lines fuel g l a0 l0 a1 l1 rest :
  nodes fuel g None = Some l ->
  ascending ((fun i => addr (store g i)) <$> l) ->
  running_linenos (base g) (co_firstlineno (code g))
    (zip (slice_even (co_lnotab (code g))) (slice_odd (co_lnotab (code g))))
  = (a0, l0) :: (a1, l1) :: rest ->
  ascending (((a1, l1) :: rest).*1) ->
  (∀ a, a ∈ ((a1, l1) :: rest).*1 ->
        a ∈ (fun i => addr (store g i)) <$> l) ->
  ∃ g', apply_lineno fuel g = Ok g' ∧
    (∀ j, same_but_line (store g j) (store g' j)) ∧
    ∀ i, i ∈ l ->
      node_co_lnotab (store g' i)
      = Some (line_at l0 ((a1, l1) :: rest) (addr (store g i))).
Proof. apply apply_lineno_assigns. Qed.

Lemma apply_lineno_lines_witness :
  ∃ g', apply_lineno 10 graph_three_lines_parsed = Ok g' ∧
    (∀ j, same_but_line (store graph_three_lines_parsed j) (store g' j)) ∧
    ∀ i, i ∈ seq 0 8 ->
      node_co_lnotab (store g' i)
      = Some (line_at 2 ((12, 3) :: [])
                (addr (store graph_three_lines_parsed i))).
Proof.
  apply (apply_lineno_lines 10 graph_three_lines_parsed (seq 0 8) 6 2 12 3 []).
  - vm_compute. reflexivity.
  - by_eval.
  - vm_compute. reflexivity.
  - by_eval.
  - intros a Ha. apply list_elem_of_singleton in Ha as ->. by_eval.
Defined.

Section StandardRoundTrip.

Variable D : Dis.

(** *** The round trip of a code object with a standard line table *)

Lemma contiguous_ascending (h : Store) l : ∀ a,
  contiguous D h a l -> ascending ((fun i => addr (h i)) <$> l).
Proof.
  induction l as [|k r IH]; intros a; simpl; [done|].
  intros [Hk Hr]. split; [|by eapply IH].
  apply Forall_forall. intros b (i & -> & Hi)%list_elem_of_fmap.
  pose proof (contiguous_lower D _ _ _ _ Hr Hi).
  pose proof (len_pos D (h k)). lia.
Qed.

Lemma round_trip_standard fuel c g0 incrs :
  Forall is_byte (co_code c) ->
  co_lnotab c = flatten_pairs incrs -> standard_table incrs ->
  (parse_bytecode D fuel 0 c).2 = Ok g0 ->
  (∀ a, a ∈ (running_linenos 0 (co_firstlineno c) incrs).*1 ->
        is_Some (bytecodes g0 !! a)) ->
  round_trip D fuel c 0 = Ok c.
Proof.
  intros Hbytes Htab Hstd Hp Hbreak.
  destruct (parse_bytecode_graph D _ _ _ Hp) as (v & H). cbv zeta in H.
  destruct H as (Hinv & _ & Hfresh & _ & Hn0 & Hb0 & Hc0 & Hh0 & Hd0 & Hrel & _).
  destruct Hinv as (_ & _ & _ & Hco & _ & Hdict & _).
  set (l := seq 0 (p_fresh v)) in *.
  assert (Hlay0 : contiguous D (store g0) 0 l).
  { apply (contiguous_ext D (p_store v)); [|done]. intros j _.
    by destruct (Hrel j) as (? & ? & _). }
  assert (Hkey : ∀ a, is_Some (bytecodes g0 !! a) ->
            a ∈ (fun i => addr (store g0 i)) <$> l).
  { intros a [i Hi]. rewrite Hd0 in Hi. apply Hdict in Hi as [Hil Ha].
    apply list_elem_of_fmap. exists i. split; [|done].
    destruct (Hrel i) as (_ & -> & _). done. }
  destruct incrs as [|[b0 d0] [|[b1 d1] rest]]; try done;
    destruct Hstd as (-> & Hd0r & Hne & Hrest); [done|].
  clear Hne.
  assert (Hb1 : Forall (fun p : Z * Z => 1 <= p.1) ((b1, d1) :: rest)).
  { eapply Forall_impl; [exact Hrest|]. intros p [[? _] _]. done. }
  destruct (apply_lineno_assigns fuel g0 l (0 + 0)
              (co_firstlineno c + d0) (0 + 0 + b1) (co_firstlineno c + d0 + d1)
              (running_linenos (0 + 0 + b1) (co_firstlineno c + d0 + d1) rest))
    as (g & Hln & Hline & Hlines); try done.
  { by apply (contiguous_ascending _ _ 0). }
  { by rewrite Hb0, Hc0, Htab, zip_slices. }
  { apply (running_linenos_ascending ((b1, d1) :: rest) (0 + 0)
             (co_firstlineno c + d0) Hb1). }
  { intros a Ha. apply Hkey, Hbreak. simpl. by right. }
  assert (Hinit : (BytecodeGraph_init D fuel c 0).2 = Ok g).
  { unfold BytecodeGraph_init. cbn [snd]. by rewrite Hp. }
  unfold round_trip. rewrite Hinit. cbn [mbind res_bind].
  destruct (BytecodeGraph_init_graph D _ _ _ Hbytes Hinit)
    as (l' & Hn & Hb & Hc & Hres & Hend & Hbin).
  destruct (apply_lineno_spec _ _ _ Hln) as (_ & _ & Hh & _).
  assert (l' = l) as ->.
  { unfold nodes in Hn, Hn0. cbn [start_of] in Hn, Hn0.
    rewrite Hh in Hn.
    rewrite (nodes_from_ext fuel (store g0) (store g)) in Hn; [congruence|].
    intros j. by destruct (Hline j) as (_&_&_&_&?&_). }
  assert (Htg : ∀ i, i ∈ l -> is_jump D (store g i) ->
            ∃ t, target (store g i) = Some t ∧ t ∈ l).
  { intros i Hi Hj. destruct Hres as [_ Hr].
    destruct (Hr i Hi Hj) as (t & lab & ? & ? & _). eauto. }
  destruct (refactor_Ok D fuel g l Hn Htg) as [g1 Hr].
  pose proof (refactor_resolved_id D fuel g g1 l Hn Hres Hr) as Hid.
  destruct (refactor_contiguous D fuel g g1 l Hn Hr) as (Hn1 & Hc1 & Hlay1).
  destruct (refactor_spec D _ _ _ _ Hn Hr) as (_ & _ & _ & Hh1 & _).
  rewrite Hb in Hlay1.
  assert (Haddr : ∀ i, i ∈ l -> addr (store g1 i) = addr (store g0 i)).
  { intros i Hi. destruct (Hid i Hi) as (-> & _).
    by destruct (Hline i) as (_ & -> & _). }
  assert (H0l : 0%nat ∈ l) by (apply elem_of_seq; lia).
  assert (Ha0 : addr (store g1 0%nat) = 0).
  { unfold l in Hlay1. destruct (p_fresh v) as [|n]; [lia|].
    simpl in Hlay1. by destruct Hlay1. }
  (* the line table *)
  set (first := co_firstlineno c) in *.
  set (incrs := (0, d0) :: (b1, d1) :: rest) in *.
  set (addrs := (fun i => addr (store g0 i)) <$> l).
  set (xs := (fun a => (a, line_at first (running_linenos 0 first incrs) a))
               <$> addrs).
  assert (Hnl : node_lines (store g1) l xs).
  { unfold node_lines, xs, addrs. rewrite <- list_fmap_compose.
    apply Forall2_fmap_elem. intros i Hi. simpl.
    split; [by apply Haddr|].
    rewrite (refactor_line D fuel g g1 l i Hn Hr), (Hlines i Hi).
    pose proof (contiguous_lower D _ _ _ _ Hlay0 Hi).
    by rewrite bool_decide_true by lia. }
  destruct (claimed_table addrs incrs first 0) as [Hcl Hfit].
  { by apply (contiguous_ascending _ _ 0). }
  { intros a Ha. by apply Hkey, Hbreak. }
  { unfold incrs. apply Forall_cons. split; [simpl; lia|].
    eapply Forall_impl; [exact Hrest|]. intros p [[? ?] ?]. simpl. lia. }
  { exact Hb1. }
  fold xs in Hcl, Hfit.
  assert (Hcalc : calc_lnotab fuel g1 = Ok (flatten_pairs incrs)).
  { unfold calc_lnotab. rewrite Hh1, Hh, Hh0.
    unfold nodes in Hn1. cbn [start_of] in Hn1. rewrite Hh1, Hh, Hh0 in Hn1.
    rewrite (for_nodes_run_list _ calc_lnotab_body_next _ _ _ l) by done.
    destruct (calc_lnotab_loop l xs (store g1)
                (mkLnotabVars [] (co_firstlineno (code g1))
                   (addr (store g1 0%nat)))) as (v' & -> & Hrv).
    - done.
    - simpl. by rewrite Hc1, Hc, Ha0.
    - cbn [rvalue prev_lineno prev_offset app] in Hrv.
      cbn [mbind res_bind snd]. rewrite Hrv, Hc1, Hc, Ha0.
      change (co_firstlineno c) with first. by rewrite Hcl. }
  (* the byte stream *)
  set (bss := (fun i => take (Z.to_nat (len D (store g i)))
                          (drop (Z.to_nat (addr (store g i))) (co_code c)))
                <$> l).
  assert (Hall : Forall2 (fun i bs => bin D (store g1 i) = Ok bs) l bss).
  { apply Forall2_fmap_elem. intros i Hi.
    destruct (Hid i Hi) as (_ & Ho & Hg).
    by rewrite (bin_ext D _ _ Ho Hg), (Hbin i Hi). }
  assert (Hcode : concat bss = co_code c).
  { destruct Hres as [Hlay _]. rewrite Hb in Hlay.
    rewrite (concat_slices D (co_code c) (store g) l 0 bss); [|lia|done|].
    - rewrite Hend, Z.sub_0_r, Nat2Z.id. change (Z.to_nat 0) with 0%nat.
      rewrite drop_0. by apply take_ge.
    - by apply Forall2_fmap_elem. }
  unfold get_code. rewrite Hr. cbn [mbind res_bind]. rewrite Hcalc.
  cbn [mbind res_bind start_of].
  unfold nodes in Hn1. cbn [start_of] in Hn1.
  rewrite (for_nodes_run_list _ (get_code_body_next D) _ _ _ l) by done.
  rewrite (get_code_loop_Ok D _ _ _ _ Hall). cbn [mbind res_bind fst snd app].
  rewrite Hcode, Hc1, Hc. fold incrs in Htab. rewrite <- Htab. by destruct c.
Qed.

End StandardRoundTrip.

(** X22. The round trip of a code object with a standard line table.
    Let the stream of [c] be bytes that decode at base address 0, and let
    the line table of [c] have at least two pairs, the first one at the
    first instruction, each with a line increment in 1..255 and, after
    the first, a byte increment in 1..255, every pair at the address of
    an instruction. Then building the graph and calling [get_code] at
    once returns [c]: the same byte stream, first line and line table. *)
Theorem round_trip_standard_table (D : Dis) fuel c g0 incrs :
  Forall is_byte (co_code c) ->
  co_lnotab c = flatten_pairs incrs -> standard_table incrs ->
  (parse_bytecode D fuel 0 c).2 = Ok g0 ->
  (∀ a, a ∈ (running_linenos 0 (co_firstlineno c) incrs).*1 ->
        is_Some (bytecodes g0 !! a)) ->
  round_trip D fuel c 0 = Ok c.
Proof. apply round_trip_standard. Qed.

Lemma round_trip_standard_table_witness :
  round_trip py27 10 code_if 0 = Ok code_if.
Proof.
  apply (round_trip_standard_table py27 10 code_if
           (from_res (parse_bytecode py27 10 0 code_if).2)
           [(0, 1); (6, 1); (7, 2)]).
  - by_eval.
  - vm_compute. reflexivity.
  - by_eval.
  - apply from_res_Ok. vm_compute. reflexivity.
  - intros a Ha. simpl in Ha.
    repeat (apply elem_of_cons in Ha as [->|Ha]); try by_eval.
    exfalso. by apply elem_of_nil in Ha.
Defined.

Section Truncated.

Variable D : Dis.

(** *** Streams the decoder does not take *)

(** The loop of [parse_bytecode] walks over a prefix made of encoded
    instructions, one turn each. *)
Lemma parse_loop_prefix (c : list Z) : ∀ bss pre tl v k,
  dis_wf D ->
  Forall (fun bs => ∃ b, bin D b = Ok bs) bss ->
  c = pre ++ concat bss ++ tl ->
  p_offset v = Z.of_nat (length pre) ->
  ∃ v', parse_loop D (length bss + k) 0 c v = parse_loop D k 0 c v' ∧
        p_offset v' = Z.of_nat (length pre + length (concat bss)).
Proof.
  induction bss as [|bs bss IH]; intros pre tl v k Hwf Hall Hc Hoff.
  - exists v. simpl. split; [done|]. rewrite Hoff. lia.
  - apply Forall_cons in Hall as [[b Hb] Hall].
    pose proof (bin_length D _ _ Hb) as Hlb.
    pose proof (len_pos D b) as Hpos.
    cbn [length Nat.add parse_loop].
    rewrite bool_decide_true.
    2:{ rewrite Hc, Hoff, !length_app. simpl. rewrite length_app. lia. }
    assert (Hdrop : drop (Z.to_nat (p_offset v)) c
                    = bs ++ concat bss ++ tl).
    { rewrite Hc, Hoff, Nat2Z.id, drop_app_length. simpl.
      by rewrite <- app_assoc. }
    rewrite Hdrop.
    destruct (Bytecode_init_of_bin D _ _ (concat bss ++ tl) (0 + p_offset v)
                (p_prev v) Hb) as (nxt & -> & Ho & _ & Hsome).
    cbn [mbind res_bind]. unfold getitem. rewrite lookup_insert_eq.
    cbn [mbind res_bind]. rewrite upd_eq.
    set (h' := match p_prev v with
               | Some p => upd (upd (p_store v) (p_fresh v) (λ _, nxt)) p
                             (set_next (Some (p_fresh v)))
               | None => upd (p_store v) (p_fresh v) (λ _, nxt)
               end).
    assert (Hsame : opcode (h' (p_fresh v)) = opcode nxt ∧
                    addr (h' (p_fresh v)) = addr nxt ∧
                    oparg (h' (p_fresh v)) = oparg nxt).
    { unfold h'. destruct (p_prev v) as [q|]; unfold upd;
        repeat case_decide; simplify_eq; done. }
    destruct Hsame as (S1 & S2 & S3).
    rewrite (get_target_addr_ext D nxt _ S1 S2 S3).
    destruct (get_target_addr_Ok D nxt Hwf Hsome) as [t ->].
    cbn [mbind res_bind].
    destruct (IH (pre ++ bs) tl
                (mkParseVars h' (S (p_fresh v))
                   (<[0 + p_offset v := p_fresh v]> (p_bytecodes v))
                   (Some (p_fresh v)) (p_offset v + len D nxt)
                   (match t with
                    | Some x => p_targets v ++ [x]
                    | None => p_targets v
                    end)) k) as (v' & Hrun & Hoff'); try done.
    + rewrite Hc. simpl. by rewrite <- !app_assoc.
    + simpl. rewrite (len_opcode D _ _ Ho), length_app. lia.
    + exists v'. split; [done|]. rewrite Hoff', !length_app. simpl.
      rewrite length_app. lia.
Qed.

Lemma Bytecode_init_short a op tl p :
  HAVE_ARGUMENT D <= op -> (length tl < 2)%nat ->
  Bytecode_init D a (take 3 (op :: tl)) p = Raise IndexError.
Proof.
  intros Hop Hlen. unfold Bytecode_init.
  destruct tl as [|b1 [|b2 r]]; simpl in *; try lia;
    by rewrite bool_decide_true.
Qed.

Lemma parse_truncated fuel c bss op tl :
  dis_wf D ->
  Forall (fun bs => ∃ b, bin D b = Ok bs) bss ->
  co_code c = concat bss ++ op :: tl ->
  HAVE_ARGUMENT D <= op -> (length tl < 2)%nat ->
  parse_bytecode D fuel 0 c = ([], Raise IndexError).
Proof.
  intros Hwf Hall Hc Hop Hlen. unfold parse_bytecode.
  assert (Hcount : (length bss <= length (concat bss))%nat).
  { clear Hc. induction Hall as [|bs r [b Hb] _ IH]; simpl; [lia|].
    pose proof (bin_length D _ _ Hb). pose proof (len_pos D b).
    rewrite length_app. lia. }
  assert (Hfuel : ∃ k, S (length (co_code c)) = (length bss + S k)%nat).
  { exists (length (co_code c) - length bss)%nat.
    rewrite Hc, length_app. simpl. lia. }
  destruct Hfuel as [k ->].
  destruct (parse_loop_prefix (co_code c) bss [] (op :: tl)
              (mkParseVars (fun _ => blank) O ∅ None 0 []) (S k))
    as (v' & -> & Hoff); try done.
  simpl in Hoff. cbn [parse_loop].
  rewrite bool_decide_true.
  2:{ rewrite Hoff, Hc, length_app. simpl. lia. }
  assert (Hdrop : drop (Z.to_nat (p_offset v')) (co_code c) = op :: tl).
  { by rewrite Hoff, Hc, Nat2Z.id, drop_app_length. }
  rewrite Hdrop, Bytecode_init_short by done. done.
Qed.

End Truncated.

(** X23. An empty stream cannot be loaded: whatever the base address,
    [parse_bytecode] on a code object whose [co_code] is empty prints
    nothing and raises KeyError at [self.head = self.bytecodes[self.base]],
    and so does the constructor. *)
Theorem parse_bytecode_empty_stream (D : Dis) fuel b c :
  co_code c = [] ->
  parse_bytecode D fuel b c = ([], Raise KeyError) ∧
  BytecodeGraph_init D fuel c b = ([], Raise KeyError).
Proof.
  intros Hc. unfold BytecodeGraph_init, parse_bytecode. rewrite Hc. done.
Qed.

Lemma parse_bytecode_empty_stream_witness :
  parse_bytecode py27 10 0 (mkCode [] 1 [0; 1]) = ([], Raise KeyError) ∧
  BytecodeGraph_init py27 10 (mkCode [] 1 [0; 1]) 0 = ([], Raise KeyError).
Proof.
  apply (parse_bytecode_empty_stream py27 10 0 (mkCode [] 1 [0; 1])).
  reflexivity.
Defined.

(** X24. A stream that ends inside an instruction cannot be loaded: when
    [co_code] is a sequence of encoded instructions followed by an opcode
    that takes an argument and fewer than two more bytes, [parse_bytecode]
    at base address 0 raises IndexError, at [ord(buffer[1])] or
    [ord(buffer[2])] in [Bytecode.__init__], and so does the
    constructor. *)
Theorem parse_bytecode_truncated_raises (D : Dis) fuel c bss op tl :
  dis_wf D ->
  Forall (fun bs => ∃ b, bin D b = Ok bs) bss ->
  co_code c = concat bss ++ op :: tl ->
  HAVE_ARGUMENT D <= op -> (length tl < 2)%nat ->
  parse_bytecode D fuel 0 c = ([], Raise IndexError) ∧
  (BytecodeGraph_init D fuel c 0).2 = Raise IndexError.
Proof.
  intros Hwf Hall Hc Hop Hlen.
  pose proof (parse_truncated D fuel c bss op tl Hwf Hall Hc Hop Hlen) as Hp.
  split; [done|]. unfold BytecodeGraph_init. by rewrite Hp.
Qed.

Lemma parse_bytecode_truncated_raises_witness :
  parse_bytecode py27 10 0 (mkCode [100; 0; 0; 83; 100; 1] 1 [0; 1; 3; 1])
    = ([], Raise IndexError) ∧
  (BytecodeGraph_init py27 10
     (mkCode [100; 0; 0; 83; 100; 1] 1 [0; 1; 3; 1]) 0).2 = Raise IndexError.
Proof.
  apply (parse_bytecode_truncated_raises py27 10
           (mkCode [100; 0; 0; 83; 100; 1] 1 [0; 1; 3; 1])
           [[100; 0; 0]; [83]] 100 [1]).
  - exact py27_wf.
  - apply Forall_cons_2;
      [exists (mkBytecode 100 0 (Some 0) None None [] None None);
       vm_compute; reflexivity|].
    apply Forall_cons_2;
      [exists (mkBytecode 83 3 None None None [] None None);
       vm_compute; reflexivity|].
    apply Forall_nil_2.
  - reflexivity.
  - vm_compute. discriminate.
  - simpl. lia.
Defined.
